(** * ngmix: Gaussian mixtures, Jacobians, EM and fitters

    A shallow embedding of the parts of [ngmix/gmix.py], [ngmix/jacobian.py],
    [ngmix/em.py] and [ngmix/fitting.py] that the specification speaks about,
    followed by the theorems that settle each statement of the specification
    against that embedding.

    Conventions of the embedding.
    - A Python [float] (numpy [float64]) is an exact real number of [R]:
      rounding is not modelled.  Where the code itself inspects finiteness
      ([isfinite]) the values are extended reals, see [xfloat].
    - A numpy structured array is a [list] of records; writing element [i]
      is stdpp's list insert, guarded by the bounds check Python performs.
    - A Python [dict] is a [gmap string pyval].
    - Exceptions are values of [exn]; code that mutates an object and may
      raise lives in the monad [M S], whose state survives an exception
      (as the Python heap does). *)

From Stdlib Require Import Reals Lra Lia ZArith.
From stdpp Require Import gmap strings list.

Local Open Scope R_scope.

(** ** Exceptions and the state-and-exception monad *)

(** The exceptions of the code, and [NotFinite], which is no exception: it
    marks the place where a float of a compiled kernel stops being a
    number of [R] (see [fdiv]). *)
Inductive exn : Type :=
| GMixRangeError
| GMixFatalError
| ZeroDivisionError
| ValueError (msg : string)
| LinAlgError
| IndexError
| KeyError (key : string)
| UnboundLocalError
| NotFinite.

Definition result (A : Type) : Type := (exn + A)%type.

Definition M (S A : Type) : Type := S -> result A * S.

Definition ret {S A : Type} (a : A) : M S A := fun s => (inr a, s).

Definition raise {S A : Type} (e : exn) : M S A := fun s => (inl e, s).

Definition bind {S A B : Type} (m : M S A) (k : A -> M S B) : M S B :=
  fun s =>
    match m s with
    | (inl e, s') => (inl e, s')
    | (inr a, s') => k a s'
    end.

Definition lift {S A : Type} (r : result A) : M S A := fun s => (r, s).

Notation "'let*' x ':=' m 'in' k" := (bind m (fun x => k))
  (at level 10, x pattern, m at level 200, k at level 200).

(** [for x in l: body x], with the loop-carried local [acc]. *)
Fixpoint foldM {S A B : Type} (body : B -> A -> M S B) (l : list A) (acc : B)
  : M S B :=
  match l with
  | [] => ret acc
  | x :: l' => let* acc' := body acc x in foldM body l' acc'
  end.

(** [a / b] on floats inside the compiled Gaussian kernels.  A zero
    divisor raises nothing there: the quotient is an infinity or a NaN and
    the kernel goes on with it.  The floats of the kernels are numbers of
    [R] here, which hold neither, so the run is followed up to that
    division only and ends in [NotFinite]; what the kernel does after it is
    not described. *)
Definition fdiv (a b : R) : result R :=
  if Req_dec_T b 0 then inl NotFinite else inr (a / b).

Module jacobian.

(** The numba struct [_jacobian]: the one element of [self._data]. *)
Record _jacobian : Type := mk_jacobian {
  row0 : R; col0 : R;
  dudrow : R; dudcol : R; dvdrow : R; dvdcol : R;
  det : R; sdet : R
}.

(** A [Jacobian] object: the attributes [self.row0] and [self.col0] that
    [__init__] sets, and the array [self._data]. *)
Record Jacobian : Type := mk_Jacobian {
  self_row0 : R;
  self_col0 : R;
  _data : _jacobian
}.

(** [Jacobian.__init__(self, row0, col0, dudrow, dudcol, dvdrow, dvdcol)] *)
Definition __init__ (row0 col0 dudrow dudcol dvdrow dvdcol : R) : Jacobian :=
  let det := Rabs (dudrow * dvdcol - dudcol * dvdrow) in
  {| self_row0 := row0;
     self_col0 := col0;
     _data := {| row0 := row0; col0 := col0;
                 dudrow := dudrow; dudcol := dudcol;
                 dvdrow := dvdrow; dvdcol := dvdcol;
                 det := det; sdet := sqrt det |} |}.

(** [get_cen]: [return self.row0, self.col0] *)
Definition get_cen (self : Jacobian) : R * R :=
  (self_row0 self, self_col0 self).

(** [set_cen]: [self._data['row0'] = row0; self._data['col0'] = col0] *)
Definition set_cen (self : Jacobian) (row0' col0' : R) : Jacobian :=
  let d := _data self in
  {| self_row0 := self_row0 self;
     self_col0 := self_col0 self;
     _data := {| row0 := row0'; col0 := col0';
                 dudrow := dudrow d; dudcol := dudcol d;
                 dvdrow := dvdrow d; dvdcol := dvdcol d;
                 det := det d; sdet := sdet d |} |}.

(** [get_det]: [self._data['det'][0]] *)
Definition get_det (self : Jacobian) : R := det (_data self).

(** [get_scale]: [self._data['sdet'][0]] *)
Definition get_scale (self : Jacobian) : R := sdet (_data self).

(** [copy]: a new [Jacobian] built from the six entries of [self._data]. *)
Definition copy (self : Jacobian) : Jacobian :=
  let d := _data self in
  __init__ (row0 d) (col0 d) (dudrow d) (dudcol d) (dvdrow d) (dvdcol d).

(** [UnitJacobian(cen1, cen2)] *)
Definition UnitJacobian (cen1 cen2 : R) : Jacobian :=
  __init__ cen1 cen2 1 0 0 1.

End jacobian.

Module gmix.

(** The numba struct [_gauss2d]. *)
Record gauss2d : Type := mk_gauss2d {
  p : R; row : R; col : R;
  irr : R; irc : R; icc : R;
  det : R; drr : R; drc : R; dcc : R;
  norm : R; pnorm : R
}.

(** One element of [zeros(n, dtype=_gauss2d_dtype)]. *)
Definition gauss2d_zero : gauss2d := mk_gauss2d 0 0 0 0 0 0 0 0 0 0 0 0.

(** [self[i] = g] for an array element, all twelve fields at once. *)
Definition store (i : nat) (g : gauss2d) : M (list gauss2d) unit :=
  fun self =>
    if decide (i < length self)%nat then (inr tt, <[i:=g]> self)
    else (inl IndexError, self).

(** [_gauss2d_set(self, i, p, row, col, irr, irc, icc)] *)
Definition _gauss2d_set (i : nat) (p row col irr irc icc : R)
  : M (list gauss2d) unit :=
  let det := irr * icc - irc * irc in
  if Rle_dec det 0 then raise GMixRangeError
  else
    let idet := 1 / det in
    let norm := 1 / (2 * PI * sqrt det) in
    store i {| p := p; row := row; col := col;
               irr := irr; irc := irc; icc := icc;
               det := det;
               drr := irr * idet; drc := irc * idet; dcc := icc * idet;
               norm := norm; pnorm := p * norm |}.

(** [pars[i]] on a flat float array. *)
Definition getitem (pars : list R) (i : nat) : result R :=
  match pars !! i with
  | Some x => inr x
  | None => inl IndexError
  end.

(** [_fill_full(self, pars)] *)
Definition _fill_full (pars : list R) : M (list gauss2d) unit :=
  fun self =>
    let ngauss := length self in
    (let* _ := foldM (fun (_ : unit) (i : nat) =>
                 let beg := (i * 6)%nat in
                 let* p := lift (getitem pars (beg + 0)) in
                 let* row := lift (getitem pars (beg + 1)) in
                 let* col := lift (getitem pars (beg + 2)) in
                 let* irr := lift (getitem pars (beg + 3)) in
                 let* irc := lift (getitem pars (beg + 4)) in
                 let* icc := lift (getitem pars (beg + 5)) in
                 _gauss2d_set i p row col irr irc icc)
               (seq 0 ngauss) tt in
     ret tt) self.

(** A [GMix] object is its [_data] array; [len(self)] is its length.
    [GMix(ngauss=n)]: [reset()] installs a zeroed array. *)
Definition GMix_new (ngauss : nat) : list gauss2d :=
  replicate ngauss gauss2d_zero.

(** [GMix.fill(pars)] *)
Definition fill (pars : list R) : M (list gauss2d) unit :=
  fun self =>
    let npars := length pars in
    let npars_expected := (length self * 6)%nat in
    if decide (npars <> npars_expected) then (inl GMixFatalError, self)
    else _fill_full pars self.

(** [GMix(pars=pars)] *)
Definition GMix_of_pars (pars : list R) : result (list gauss2d) :=
  let npars := length pars in
  if decide (npars `mod` 6 <> 0)%nat then inl GMixFatalError
  else
    match fill pars (GMix_new (npars / 6)) with
    | (inl e, _) => inl e
    | (inr _, data) => inr data
    end.

(** [GMix.get_full_pars()] *)
Definition get_full_pars (self : list gauss2d) : list R :=
  flat_map (fun g => [p g; row g; col g; irr g; irc g; icc g]) self.

(** [_get_cen(self)]: returns [(row, col, psum)]. *)
Definition _get_cen (self : list gauss2d) : result (R * R * R) :=
  let '(row_, col_, psum) :=
    fold_left (fun '(row_, col_, psum) g =>
                 let p_ := p g in
                 (row_ + p_ * row g, col_ + p_ * col g, psum + p_))
              self (0, 0, 0) in
  match fdiv row_ psum, fdiv col_ psum with
  | inr r, inr c => inr (r, c, psum)
  | inl e, _ | _, inl e => inl e
  end.

(** [GMix.get_cen()] *)
Definition get_cen (self : list gauss2d) : result (R * R) :=
  match _get_cen self with
  | inr (r, c, _) => inr (r, c)
  | inl e => inl e
  end.

(** [_convolve_fill(self, obj_gmix, psf_gmix)]; the loop-carried local is
    [iself]. *)
Definition _convolve_fill (obj_gmix psf_gmix : list gauss2d)
  : M (list gauss2d) unit :=
  let* (psf_rowcen, psf_colcen, psf_psum) := lift (_get_cen psf_gmix) in
  let* psf_ipsum := lift (fdiv 1 psf_psum) in
  let* _ :=
    foldM (fun iself obj =>
      foldM (fun iself psf =>
        let p_ := p obj * p psf * psf_ipsum in
        let row_ := row obj + (row psf - psf_rowcen) in
        let col_ := col obj + (col psf - psf_colcen) in
        let irr_ := irr obj + irr psf in
        let irc_ := irc obj + irc psf in
        let icc_ := icc obj + icc psf in
        let* _ := _gauss2d_set iself p_ row_ col_ irr_ irc_ icc_ in
        ret (S iself))
        psf_gmix iself)
      obj_gmix 0%nat in
  ret tt.

(** [convolve_fill(self, gmix, psf)] *)
Definition convolve_fill (gmix psf : list gauss2d) : M (list gauss2d) unit :=
  fun self =>
    let ng := (length gmix * length psf)%nat in
    if decide (ng <> length self) then (inl GMixFatalError, self)
    else _convolve_fill gmix psf self.

(** [GMix.convolve(psf)]: a fresh mixture is allocated, filled, and
    returned; nothing is returned when the fill raises. *)
Definition convolve (self psf : list gauss2d) : result (list gauss2d) :=
  let ng := (length self * length psf)%nat in
  let gmix := GMix_new ng in
  match convolve_fill self psf gmix with
  | (inl e, _) => inl e
  | (inr _, gmix') => inr gmix'
  end.

(** *** Moments, centre and flux of a mixture *)

(** [_gauss2d_verify(self)] *)
Definition _gauss2d_verify (self : list gauss2d) : result unit :=
  (foldM (S := unit)
     (fun (_ : unit) g =>
        if Rle_dec (det g) 0 then raise GMixRangeError else ret tt)
     self tt tt).1.

(** [self[i].row += row_shift; self[i].col += col_shift] *)
Definition shift_cen (row_shift col_shift : R) (g : gauss2d) : gauss2d :=
  {| p := p g; row := row g + row_shift; col := col g + col_shift;
     irr := irr g; irc := irc g; icc := icc g;
     det := det g; drr := drr g; drc := drc g; dcc := dcc g;
     norm := norm g; pnorm := pnorm g |}.

(** [_set_cen(self, row, col)]; the loop touches element [i] only at its
    [i]-th turn, so it is a map over the array. *)
Definition _set_cen (row_ col_ : R) : M (list gauss2d) unit :=
  fun self =>
    match _get_cen self with
    | inl e => (inl e, self)
    | inr (row_cur, col_cur, _) =>
        let row_shift := row_ - row_cur in
        let col_shift := col_ - col_cur in
        (inr tt, shift_cen row_shift col_shift <$> self)
    end.

(** [GMix.set_cen(row, col)] *)
Definition set_cen (row_ col_ : R) : M (list gauss2d) unit :=
  _set_cen row_ col_.

(** [_get_T(self)]: returns [(T, psum)]. *)
Definition _get_T (self : list gauss2d) : result (R * R) :=
  let '(T, psum) :=
    fold_left (fun '(T, psum) g =>
                 let p_ := p g in
                 (T + (irr g + icc g) * p_, psum + p_))
              self (0, 0) in
  match fdiv T psum with
  | inr T => inr (T, psum)
  | inl e => inl e
  end.

(** [GMix.get_T()] *)
Definition get_T (self : list gauss2d) : result R :=
  match _get_T self with
  | inr (T, _) => inr T
  | inl e => inl e
  end.

(** [_get_e1e2T(self)] *)
Definition _get_e1e2T (self : list gauss2d) : result (R * R * R) :=
  let e1 := -9999 in
  let e2 := -9999 in
  let '(irr_, irc_, icc_, psum) :=
    fold_left (fun '(irr_, irc_, icc_, psum) g =>
                 let p_ := p g in
                 (irr_ + p_ * irr g, irc_ + p_ * irc g, icc_ + p_ * icc g,
                  psum + p_))
              self (0, 0, 0, 0) in
  match fdiv 1 psum with
  | inl e => inl e
  | inr ipsum =>
      let irr_ := irr_ * ipsum in
      let irc_ := irc_ * ipsum in
      let icc_ := icc_ * ipsum in
      let T := irr_ + icc_ in
      if Rgt_dec T 0 then
        match fdiv (icc_ - irr_) T, fdiv (2 * irc_) T with
        | inr e1, inr e2 => inr (e1, e2, T)
        | inl e, _ | _, inl e => inl e
        end
      else inr (e1, e2, T)
  end.

(** [GMix.get_e1e2T()] *)
Definition get_e1e2T (self : list gauss2d) : result (R * R * R) :=
  _get_e1e2T self.

(** [_get_wmomsum(self)] *)
Definition _get_wmomsum (self : list gauss2d) : R :=
  fold_left (fun wmom g => wmom + p g * (irr g + icc g)) self 0.

(** [GMix.get_psum()]: [self._data['p'].sum()] *)
Definition get_psum (self : list gauss2d) : R :=
  fold_left (fun acc g => acc + p g) self 0.

(** [self._data['p'] *= rat] followed by
    [self._data['pnorm'] = self._data['p']*self._data['norm']], on one
    element. *)
Definition scale_p (rat : R) (g : gauss2d) : gauss2d :=
  {| p := p g * rat; row := row g; col := col g;
     irr := irr g; irc := irc g; icc := icc g;
     det := det g; drr := drr g; drc := drc g; dcc := dcc g;
     norm := norm g; pnorm := p g * rat * norm g |}.

(** [GMix.set_psum(psum)].  When the current sum [psum0] is zero, numpy's
    division yields [inf] or [nan] amplitudes, which the real-valued
    records cannot hold: the call has no value here ([None]). *)
Definition set_psum (psum : R) (self : list gauss2d)
  : option (list gauss2d) :=
  let psum0 := get_psum self in
  if Req_dec_T psum0 0 then None
  else
    let rat := psum / psum0 in
    Some (scale_p rat <$> self).

(** *** The simple models *)

Section fill_simple.

(** [shape.g1g2_to_e1e2] belongs to a module outside the sources; it
    returns [(e1, e2)] or raises. *)
Variable g1g2_to_e1e2 : R -> R -> result (R * R).

(** [_fill_simple(self, pars, fvals, pvals)] *)
Definition _fill_simple (pars fvals pvals : list R)
  : M (list gauss2d) unit :=
  let* row_ := lift (getitem pars 0) in
  let* col_ := lift (getitem pars 1) in
  let* g1 := lift (getitem pars 2) in
  let* g2 := lift (getitem pars 3) in
  let* T := lift (getitem pars 4) in
  let* counts := lift (getitem pars 5) in
  let* (e1, e2) := lift (g1g2_to_e1e2 g1 g2) in
  fun self =>
    let ngauss := length self in
    foldM (fun (_ : unit) (i : nat) =>
             let* fval := lift (getitem fvals i) in
             let T_i := T * fval in
             let* pval := lift (getitem pvals i) in
             let counts_i := counts * pval in
             _gauss2d_set i counts_i row_ col_
               ((T_i / 2) * (1 - e1))
               ((T_i / 2) * e2)
               ((T_i / 2) * (1 + e1)))
          (seq 0 ngauss) tt self.

Definition _gauss_fvals : list R := [1].
Definition _gauss_pvals : list R := [1].

(** [_fill_gauss(self, pars)] *)
Definition _fill_gauss (pars : list R) : M (list gauss2d) unit :=
  _fill_simple pars _gauss_fvals _gauss_pvals.

Definition _exp_fvals : list R :=
  [0.002467115141477932;
   0.018147435573256168;
   0.07944063151366336;
   0.27137669897479122;
   0.79782256866993773;
   2.1623306025075739].
Definition _exp_pvals : list R :=
  [0.00061601229677880041;
   0.0079461395724623237;
   0.053280454055540001;
   0.21797364640726541;
   0.45496740582554868;
   0.26521634184240478].

(** [_fill_exp(self, pars)] *)
Definition _fill_exp (pars : list R) : M (list gauss2d) unit :=
  _fill_simple pars _exp_fvals _exp_pvals.

Definition _dev_fvals : list R :=
  [2.9934935706271918e-07;
   3.4651596338231207e-06;
   2.4807910570562753e-05;
   0.00014307404300535354;
   0.000727531692982395;
   0.003458246439442726;
   0.0160866454407191;
   0.077006776775654429;
   0.41012562102501476;
   2.9812509778548648].
Definition _dev_pvals : list R :=
  [6.5288960012625658e-05;
   0.00044199216814302695;
   0.0020859587871659754;
   0.0075913681418996841;
   0.02260266219257237;
   0.056532254390212859;
   0.11939049233042602;
   0.20969545753234975;
   0.29254151133139222;
   0.28905301416582552].

(** [_fill_dev(self, pars)] *)
Definition _fill_dev (pars : list R) : M (list gauss2d) unit :=
  _fill_simple pars _dev_fvals _dev_pvals.

Definition _turb_fvals : list R :=
  [0.5793612389470884; 1.621860687127999; 7.019347162356363].
Definition _turb_pvals : list R :=
  [0.596510042804182; 0.4034898268889178; 1.303069003078001e-07].

(** [_fill_turb(self, pars)] *)
Definition _fill_turb (pars : list R) : M (list gauss2d) unit :=
  _fill_simple pars _turb_fvals _turb_pvals.

End fill_simple.

(** *** The fast exponential *)

(** Modelled from the spec:[fastmath.make_exp_lookup(minval, maxval)] is not
    among the sources.  The specification describes its result as a table
    over the integer exponents [minval .. maxval] holding [exp(i)] at
    position [i - minval], together with the list of those integers. *)
Definition make_exp_lookup (minval maxval : Z) : list Z * list R :=
  let ivals := seqZ minval (maxval - minval + 1) in
  (ivals, (fun i => exp (IZR i)) <$> ivals).

Definition _exp3_ivals : list Z := (make_exp_lookup (-26) 0).1.
Definition _exp3_lookup : list R := (make_exp_lookup (-26) 0).2.

(** [int64(x)] on a float: the fractional part is dropped, that is, the
    value is rounded toward zero.  (Values outside the 64-bit range do not
    occur for the arguments the kernels pass.) *)
Definition int64 (x : R) : Z :=
  if Rle_dec 0 x then Zfloor x else Zceil x.

(** [expvals[index]] with a signed index. *)
Definition getitemZ (expvals : list R) (index : Z) : result R :=
  if decide (index < 0)%Z then inl IndexError
  else getitem expvals (Z.to_nat index).

(** The third-order exponential written out in [_render_fast3],
    [_render_jacob_fast3], [_loglike_fast3] and [_loglike_jacob_fast3]:
    from [ival = int64(x-0.5)] to [expval *= fexp]. *)
Definition exp3 (i0 : Z) (expvals : list R) (x : R) : result R :=
  let ival := int64 (x - 0.5) in
  let f := x - IZR ival in
  let index := (ival - i0)%Z in
  match getitemZ expvals index with
  | inl e => inl e
  | inr expval =>
      let fexp := (6 + f * (6 + f * (3 + f))) * 0.16666666 in
      inr (expval * fexp)
  end.

(** One Gaussian's contribution at offset [(u, v)] from its centre, the body
    of the innermost loop of the four kernels. *)
Definition gauss_eval_fast3 (i0 : Z) (expvals : list R) (g : gauss2d)
  (u v : R) : result R :=
  let u2 := u * u in
  let v2 := v * v in
  let uv := u * v in
  let chi2 := dcc g * u2 + drr g * v2 - 2 * drc g * uv in
  if Rlt_dec chi2 25 then
    if Rge_dec chi2 0 then
      let x := -0.5 * chi2 in
      match exp3 i0 expvals x with
      | inl e => inl e
      | inr expval => inr (pnorm g * expval)
      end
    else inr 0
  else inr 0.

(** [a[row, col]] on a two-dimensional array. *)
Definition getitem2 (a : list (list R)) (row col : nat) : result R :=
  match a !! row with
  | Some r => getitem r col
  | None => inl IndexError
  end.

(** [_loglike_fast3(self, image, weight, i0, expvals)]; the loop-carried
    locals of the pixel loops are [(loglike, s2n_numer, s2n_denom)], that
    of the loop over the Gaussians is [model_val]. *)
Definition _loglike_fast3 (self : list gauss2d) (image weight : list (list R))
  (i0 : Z) (expvals : list R) : result (R * R * R) :=
  let nrows := length image in
  let ncols := length (default [] (head image)) in
  let loops : M unit (R * R * R) :=
    foldM (fun acc row_ =>
      foldM (fun '(loglike, s2n_numer, s2n_denom) col_ =>
        let* ivar := lift (getitem2 weight row_ col_) in
        if Rle_dec ivar 0 then ret (loglike, s2n_numer, s2n_denom)
        else
          let* model_val :=
            foldM (fun model_val g =>
              let u := INR row_ - row g in
              let v := INR col_ - col g in
              let* term := lift (gauss_eval_fast3 i0 expvals g u v) in
              ret (model_val + term))
              self 0 in
          let* pixval := lift (getitem2 image row_ col_) in
          let diff := model_val - pixval in
          ret (loglike + diff * diff * ivar,
               s2n_numer + pixval * model_val * ivar,
               s2n_denom + model_val * model_val * ivar))
        (seq 0 ncols) acc)
      (seq 0 nrows) (0, 0, 0) in
  match loops tt with
  | (inr (loglike, s2n_numer, s2n_denom), _) =>
      inr (loglike * -0.5, s2n_numer, s2n_denom)
  | (inl e, _) => inl e
  end.

(** [_loglike_jacob_fast3(self, image, weight, j, i0, expvals)]; the
    loop-carried locals of the loop over the columns are
    [(loglike, s2n_numer, s2n_denom, u, v)]: [u] and [v] are stepped at the
    end of the loop body, which a [continue] does not reach. *)
Definition _loglike_jacob_fast3 (self : list gauss2d)
  (image weight : list (list R)) (j : jacobian._jacobian)
  (i0 : Z) (expvals : list R) : result (R * R * R) :=
  let nrows := length image in
  let ncols := length (default [] (head image)) in
  let loops : M unit (R * R * R) :=
    foldM (fun '(loglike, s2n_numer, s2n_denom) row_ =>
      let u := jacobian.dudrow j * (INR row_ - jacobian.row0 j)
               + jacobian.dudcol j * (0 - jacobian.col0 j) in
      let v := jacobian.dvdrow j * (INR row_ - jacobian.row0 j)
               + jacobian.dvdcol j * (0 - jacobian.col0 j) in
      let* (loglike, s2n_numer, s2n_denom, _, _) :=
        foldM (fun '(loglike, s2n_numer, s2n_denom, u, v) col_ =>
          let* ivar := lift (getitem2 weight row_ col_) in
          if Rle_dec ivar 0 then ret (loglike, s2n_numer, s2n_denom, u, v)
          else
            let* model_val :=
              foldM (fun model_val g =>
                let udiff := u - row g in
                let vdiff := v - col g in
                let* term :=
                  lift (gauss_eval_fast3 i0 expvals g udiff vdiff) in
                ret (model_val + term))
                self 0 in
            let* pixval := lift (getitem2 image row_ col_) in
            let diff := model_val - pixval in
            ret (loglike + diff * diff * ivar,
                 s2n_numer + pixval * model_val * ivar,
                 s2n_denom + model_val * model_val * ivar,
                 u + jacobian.dudcol j,
                 v + jacobian.dvdcol j))
          (seq 0 ncols) (loglike, s2n_numer, s2n_denom, u, v) in
      ret (loglike, s2n_numer, s2n_denom))
      (seq 0 nrows) (0, 0, 0) in
  match loops tt with
  | (inr (loglike, s2n_numer, s2n_denom), _) =>
      inr (loglike * -0.5, s2n_numer, s2n_denom)
  | (inl e, _) => inl e
  end.

(** [image[row, col] = x] on a two-dimensional array. *)
Definition setitem2 (row col : nat) (x : R) : M (list (list R)) unit :=
  fun image =>
    match image !! row with
    | Some r =>
        if decide (col < length r)%nat
        then (inr tt, <[row := <[col := x]> r]> image)
        else (inl IndexError, image)
    | None => (inl IndexError, image)
    end.

(** [_render_fast3(self, image, nsub, i0, expvals)]; the image is the
    state.  The loop-carried locals of the two sub-pixel loops are
    [(tval, trow)] and [(tval, tcol)].  ([nsub] is an [int64] whose square
    is taken to fit that type.) *)
Definition _render_fast3 (self : list gauss2d) (nsub : Z) (i0 : Z)
  (expvals : list R) : M (list (list R)) unit :=
  fun image =>
    let nrows := length image in
    let ncols := length (default [] (head image)) in
    (let* stepsize := lift (fdiv 1 (IZR nsub)) in
     let offset := IZR (nsub - 1) * stepsize / 2 in
     let* areafac := lift (fdiv 1 (IZR (nsub * nsub))) in
     foldM (fun (_ : unit) row_ =>
       foldM (fun (_ : unit) col_ =>
         let* model_val := (fun image => (getitem2 image row_ col_, image)) in
         let tval := 0 in
         let trow := INR row_ - offset in
         let* (tval, _) :=
           foldM (fun '(tval, trow) (irowsub : nat) =>
             let tcol := INR col_ - offset in
             let* (tval, _) :=
               foldM (fun '(tval, tcol) (icolsub : nat) =>
                 let* tval :=
                   foldM (fun tval g =>
                     let u := trow - row g in
                     let v := tcol - col g in
                     let* term :=
                       lift (gauss_eval_fast3 i0 expvals g u v) in
                     ret (tval + term))
                     self tval in
                 ret (tval, tcol + stepsize))
                 (seq 0 (Z.to_nat nsub)) (tval, tcol) in
             ret (tval, trow + stepsize))
             (seq 0 (Z.to_nat nsub)) (tval, trow) in
         let tval := tval * areafac in
         let model_val := model_val + tval in
         setitem2 row_ col_ model_val)
         (seq 0 ncols) tt)
       (seq 0 nrows) tt) image.

(** [_render_jacob_fast3(self, image, nsub, j, i0, expvals)]; the
    loop-carried locals of the two sub-pixel loops are [(tval, trow)] and
    [(tval, u, v)]. *)
Definition _render_jacob_fast3 (self : list gauss2d) (nsub : Z)
  (j : jacobian._jacobian) (i0 : Z) (expvals : list R)
  : M (list (list R)) unit :=
  fun image =>
    let nrows := length image in
    let ncols := length (default [] (head image)) in
    let col0 := jacobian.col0 j in
    let row0 := jacobian.row0 j in
    let dudrow := jacobian.dudrow j in
    let dudcol := jacobian.dudcol j in
    let dvdrow := jacobian.dvdrow j in
    let dvdcol := jacobian.dvdcol j in
    (let* stepsize := lift (fdiv 1 (IZR nsub)) in
     let offset := IZR (nsub - 1) * stepsize / 2 in
     let* areafac := lift (fdiv 1 (IZR (nsub * nsub))) in
     let ustepsize := stepsize * dudcol in
     let vstepsize := stepsize * dvdcol in
     foldM (fun (_ : unit) row_ =>
       foldM (fun (_ : unit) col_ =>
         let* model_val := (fun image => (getitem2 image row_ col_, image)) in
         let tval := 0 in
         let trow := INR row_ - offset in
         let lowcol := INR col_ - offset in
         let* (tval, _) :=
           foldM (fun '(tval, trow) (irowsub : nat) =>
             let u := dudrow * (trow - row0) + dudcol * (lowcol - col0) in
             let v := dvdrow * (trow - row0) + dvdcol * (lowcol - col0) in
             let* (tval, _, _) :=
               foldM (fun '(tval, u, v) (icolsub : nat) =>
                 let* tval :=
                   foldM (fun tval g =>
                     let udiff := u - row g in
                     let vdiff := v - col g in
                     let* term :=
                       lift (gauss_eval_fast3 i0 expvals g udiff vdiff) in
                     ret (tval + term))
                     self tval in
                 ret (tval, u + ustepsize, v + vstepsize))
                 (seq 0 (Z.to_nat nsub)) (tval, u, v) in
             ret (tval, trow + stepsize))
             (seq 0 (Z.to_nat nsub)) (tval, trow) in
         let tval := tval * areafac in
         let model_val := model_val + tval in
         setitem2 row_ col_ model_val)
         (seq 0 ncols) tt)
       (seq 0 nrows) tt) image.

(** [GMix.fill_image(image, nsub, jacobian)] *)
Definition fill_image (self : list gauss2d) (nsub : Z)
  (jacobian : option jacobian.Jacobian) : M (list (list R)) unit :=
  match jacobian with
  | Some jacobian =>
      _render_jacob_fast3 self nsub (jacobian._data jacobian)
        (default 0%Z (head _exp3_ivals)) _exp3_lookup
  | None =>
      _render_fast3 self nsub (default 0%Z (head _exp3_ivals)) _exp3_lookup
  end.

(** [GMix.make_image(dims, nsub, jacobian)], with [dims = [nrows, ncols]]:
    [numpy.zeros(dims)] is rendered into and returned. *)
Definition make_image (self : list gauss2d) (nrows ncols : nat) (nsub : Z)
  (jacobian : option jacobian.Jacobian) : result (list (list R)) :=
  let image := replicate nrows (replicate ncols 0) in
  match fill_image self nsub jacobian image with
  | (inl e, _) => inl e
  | (inr _, image) => inr image
  end.

(** [GMix.get_loglike(image, weight, jacobian, get_s2nsums)], with
    [image.size] the number of entries of the array. *)
Definition get_loglike (self : list gauss2d) (image weight : list (list R))
  (jacobian : option jacobian.Jacobian) (get_s2nsums : bool)
  : result (R + R * R * R) :=
  if decide (length (concat image) <> length (concat weight)) then
    inl (ValueError "image and weight must be same shape")
  else
    let res :=
      match jacobian with
      | Some jacobian =>
          _loglike_jacob_fast3 self image weight (jacobian._data jacobian)
            (default 0%Z (head _exp3_ivals)) _exp3_lookup
      | None =>
          _loglike_fast3 self image weight
            (default 0%Z (head _exp3_ivals)) _exp3_lookup
      end in
    match res with
    | inl e => inl e
    | inr (loglike, s2n_numer, s2n_denom) =>
        if get_s2nsums then inr (inr (loglike, s2n_numer, s2n_denom))
        else inr (inl loglike)
    end.

End gmix.

(** ** Floats whose finiteness the code inspects

    Above the Gaussian kernels the code tests [isfinite] and relies on
    numpy's arithmetic, which yields [inf] and [nan] instead of raising.
    There a float is an exact real or one of the three special values;
    rounding and the sign of zero are not modelled. *)

Inductive xfloat : Type :=
| Fin (x : R)
| PInf
| NInf
| NaN.

Module xf.

Definition isfinite (a : xfloat) : bool :=
  match a with Fin _ => true | _ => false end.

Definition neg (a : xfloat) : xfloat :=
  match a with
  | Fin x => Fin (- x)
  | PInf => NInf
  | NInf => PInf
  | NaN => NaN
  end.

Definition add (a b : xfloat) : xfloat :=
  match a, b with
  | NaN, _ | _, NaN => NaN
  | PInf, NInf | NInf, PInf => NaN
  | PInf, _ | _, PInf => PInf
  | NInf, _ | _, NInf => NInf
  | Fin x, Fin y => Fin (x + y)
  end.

Definition sub (a b : xfloat) : xfloat := add a (neg b).

(** The infinity of the sign of [x] times [inf]; [nan] for [x = 0]. *)
Definition signed_inf (x : R) : xfloat :=
  if Rlt_dec 0 x then PInf else if Rlt_dec x 0 then NInf else NaN.

Definition mul (a b : xfloat) : xfloat :=
  match a, b with
  | NaN, _ | _, NaN => NaN
  | Fin x, Fin y => Fin (x * y)
  | PInf, Fin x | Fin x, PInf => signed_inf x
  | NInf, Fin x | Fin x, NInf => signed_inf (- x)
  | PInf, PInf | NInf, NInf => PInf
  | PInf, NInf | NInf, PInf => NInf
  end.

Definition div (a b : xfloat) : xfloat :=
  match a, b with
  | NaN, _ | _, NaN => NaN
  | Fin x, Fin y => if Req_dec_T y 0 then signed_inf x else Fin (x / y)
  | Fin _, PInf | Fin _, NInf => Fin 0
  | PInf, Fin y => if Rlt_dec y 0 then NInf else PInf
  | NInf, Fin y => if Rlt_dec y 0 then PInf else NInf
  | PInf, PInf | PInf, NInf | NInf, PInf | NInf, NInf => NaN
  end.

Definition sqrt (a : xfloat) : xfloat :=
  match a with
  | Fin x => if Rlt_dec x 0 then NaN else Fin (R_sqrt.sqrt x)
  | PInf => PInf
  | NInf | NaN => NaN
  end.

Definition log (a : xfloat) : xfloat :=
  match a with
  | Fin x => if Rlt_dec 0 x then Fin (ln x)
             else if Rlt_dec x 0 then NaN else NInf
  | PInf => PInf
  | NInf | NaN => NaN
  end.

Definition lt (a b : xfloat) : bool :=
  match a, b with
  | NaN, _ | _, NaN => false
  | Fin x, Fin y => if Rlt_dec x y then true else false
  | NInf, NInf | PInf, _ | _, NInf => false
  | NInf, _ | _, PInf => true
  end.

Definition le (a b : xfloat) : bool :=
  match a, b with
  | NaN, _ | _, NaN => false
  | Fin x, Fin y => if Rle_dec x y then true else false
  | NInf, _ | _, PInf => true
  | PInf, _ | _, NInf => false
  end.

Definition gt (a b : xfloat) : bool := lt b a.
Definition ge (a b : xfloat) : bool := le b a.

End xf.

(** ** Python values held in result dictionaries *)

Inductive pyval : Type :=
| PyNone
| PyInt (n : Z)
| PyFloat (x : xfloat)
| PyStr (s : string)
| PyArray (v : list xfloat)
| PyMatrix (m : list (list xfloat)).

Module em.

Definition EM_RANGE_ERROR : Z := 2 ^ 0.
Definition EM_MAXITER : Z := 2 ^ 1.

(** [im.min()] and [im.max()] over all the entries of an array; numpy
    raises [ValueError] on an array without entries. *)
Definition array_min (im : list (list R)) : result R :=
  match concat im with
  | [] => inl (ValueError "zero-size array to reduction operation minimum")
  | x :: l => inr (foldl Rmin x l)
  end.

Definition array_max (im : list (list R)) : result R :=
  match concat im with
  | [] => inl (ValueError "zero-size array to reduction operation maximum")
  | x :: l => inr (foldl Rmax x l)
  end.

(** [prep_image(im0)]: returns [(im, sky)]. *)
Definition prep_image (im0 : list (list R))
  : result (list (list R) * R) :=
  let im := im0 in
  match array_min im with
  | inl e => inl e
  | inr im_min =>
      match array_max im with
      | inl e => inl e
      | inr im_max =>
          let sky := 0.001 * (im_max - im_min) in
          let im := map (map (fun x => x + (sky - im_min))) im in
          inr (im, sky)
      end
  end.

(** What [run_em] reads of an [Observation]. *)
Record Observation : Type := mk_Observation {
  image : list (list R);
  obs_jacobian : jacobian.Jacobian
}.

(** [image.sum()] *)
Definition image_sum (im : list (list R)) : R :=
  foldr Rplus 0 (concat im).

(** The attributes of a [GMixEM] the statements below speak about ([run_em]
    also records its arguments and a scratch array of sums).  An attribute
    that is [None] or deleted is [None] here. *)
Record GMixEM : Type := mk_GMixEM {
  _obs : Observation;
  _counts : R;
  _gm : option (list gmix.gauss2d);
  _result : option (gmap string pyval)
}.

(** [GMixEM.__init__(self, obs)] *)
Definition __init__ (obs : Observation) : GMixEM :=
  {| _obs := obs; _counts := image_sum (image obs);
     _gm := None; _result := None |}.

Section run_em.

(** [_gmix.em_run] is a compiled routine outside the sources.  It receives
    the mixture array, the image, the Jacobian's array, a scratch array of
    sums, the sky guess, the counts, the tolerance and the iteration cap;
    it updates the mixture array in place and returns [(numiter, fdiff)],
    or raises. *)
Variable em_run :
  list (list R) -> jacobian._jacobian -> R -> R -> R -> Z ->
  M (list gmix.gauss2d) (Z * xfloat).

(** The [try] block of [run_em]: the value it leaves in [self._gm] and in
    [result]. *)
Definition run_em_try (self : GMixEM) (gmtmp : list gmix.gauss2d)
  (sky_guess : R) (maxiter : Z) (tol : R)
  : result (list gmix.gauss2d * gmap string pyval) :=
  let flags := 0%Z in
  match em_run (image (_obs self)) (jacobian._data (obs_jacobian (_obs self)))
               sky_guess (_counts self) tol maxiter gmtmp with
  | (inl e, _) => inl e
  | (inr (numiter, fdiff), gmtmp') =>
      let pars := gmix.get_full_pars gmtmp' in
      match gmix.GMix_of_pars pars with
      | inl e => inl e
      | inr gm =>
          let flags := if decide (numiter >= maxiter)%Z then EM_MAXITER
                       else flags in
          inr (gm, <["flags" := PyInt flags]>
                     (<["numiter" := PyInt numiter]>
                        (<["fdiff" := PyFloat fdiff]> ∅)))
      end
  end.

(** [GMixEM.run_em(self, gmix_guess, sky_guess, maxiter, tol)]; the object
    after the call, or the exception that escapes. *)
Definition run_em (self : GMixEM) (gmix_guess : list gmix.gauss2d)
  (sky_guess : R) (maxiter : Z) (tol : R) : result GMixEM :=
  let gmtmp := gmix_guess in
  match run_em_try self gmtmp sky_guess maxiter tol with
  | inr (gm, result) =>
      inr {| _obs := _obs self; _counts := _counts self;
             _gm := Some gm; _result := Some result |}
  | inl GMixRangeError =>
      inr {| _obs := _obs self; _counts := _counts self;
             _gm := None;
             _result := Some (<["flags" := PyInt EM_RANGE_ERROR]> ∅) |}
  | inl e => inl e
  end.

(** [get_result] *)
Definition get_result (self : GMixEM) : option (gmap string pyval) :=
  _result self.

End run_em.

End em.

Module fitting.

Definition BAD_VAR : Z := 2 ^ 0.
Definition LOW_ARATE : Z := 2 ^ 1.
Definition LM_SINGULAR_MATRIX : Z := 2 ^ 4.
Definition LM_NEG_COV_EIG : Z := 2 ^ 5.
Definition LM_NEG_COV_DIAG : Z := 2 ^ 6.
Definition EIG_NOTFINITE : Z := 2 ^ 7.
Definition LM_FUNC_NOTFINITE : Z := 2 ^ 8.
Definition LM_DIV_ZERO : Z := 2 ^ 9.
Definition BAD_STATS : Z := 2 ^ 9.

Definition PDEF : xfloat := Fin (-9.999e9).
Definition CDEF : xfloat := Fin 9.999e9.

(** A mixture object of the fitters: its [_data] array and its [_model]. *)
Record GMixObj : Type := mk_GMixObj {
  gm_data : list gmix.gauss2d;
  gm_model : Z
}.

(** What [calc_lnprob] returns, by its two keywords. *)
Inductive lnprob_ret : Type :=
| RetLnProb (ln_prob : xfloat)
| RetLnProbPriors (ln_prob ln_priors : xfloat)
| RetS2nSums (ln_prob s2n_numer s2n_denom : xfloat).

(** [enumerate(l)] *)
Definition enumerate {A : Type} (l : list A) : list (nat * A) :=
  zip (seq 0 (length l)) l.

(** [try: body except ZeroDivisionError: handler] *)
Definition except_zero_division {S A : Type} (body handler : M S A) : M S A :=
  fun s =>
    match body s with
    | (inl ZeroDivisionError, s') => handler s'
    | other => other
    end.

Section FitterBase.

(** [Observation] objects belong to a module outside the sources; of one
    observation the code below reads [obs.psf.gmix._data] and
    [obs.model_image]. *)
Variable Obs : Type.
Variable obs_psf_gmix : Obs -> list gmix.gauss2d.
Variable obs_model_image : Obs -> list (list xfloat).

(** [priors.LOWVAL] and [priors.BIGVAL]. *)
Variables LOWVAL BIGVAL : xfloat.

(** The attributes of a fitter that [calc_lnprob] reads or writes. *)
Record FitterBase : Type := mk_FitterBase {
  nsub : Z;
  nband : nat;
  obs : list (list Obs);
  nu : xfloat;
  margsky : bool;
  dopsf : bool;
  _gmix_all0 : list (list GMixObj);
  _gmix_all : list (list GMixObj)
}.

(** The methods the subclasses override, and the compiled routines. *)
Variable _get_priors : list xfloat -> result xfloat.
Variable _get_band_pars : list xfloat -> nat -> result (list xfloat).
Variable gmix_fill : list xfloat -> Z -> M (list gmix.gauss2d) unit.
Variable convolve_fill :
  list gmix.gauss2d -> list gmix.gauss2d -> M (list gmix.gauss2d) unit.
Variable get_loglike_robust :
  GMixObj -> Obs -> xfloat -> Z -> result (xfloat * xfloat * xfloat).
Variable get_loglike_margsky :
  GMixObj -> Obs -> list (list xfloat) -> Z ->
  result (xfloat * xfloat * xfloat).
Variable get_loglike :
  GMixObj -> Obs -> Z -> result (xfloat * xfloat * xfloat).

(** [all[band][i]] *)
Definition lookup_gm (all : list (list GMixObj)) (band i : nat)
  : result GMixObj :=
  match all !! band with
  | Some gmix_list =>
      match gmix_list !! i with
      | Some gm => inr gm
      | None => inl IndexError
      end
  | None => inl IndexError
  end.

(** The list of lists after [all[band][i]._data] has become [data]. *)
Definition update_gm (all : list (list GMixObj)) (band i : nat)
  (data : list gmix.gauss2d) : list (list GMixObj) :=
  match all !! band with
  | Some gmix_list =>
      match gmix_list !! i with
      | Some gm =>
          <[band := <[i := mk_GMixObj data (gm_model gm)]> gmix_list]> all
      | None => all
      end
  | None => all
  end.

(** Run a routine on [self._gmix_all0[band][i]._data]. *)
Definition on_gm0 (band i : nat)
  (f : GMixObj -> M (list gmix.gauss2d) unit) : M FitterBase unit :=
  fun self =>
    match lookup_gm (_gmix_all0 self) band i with
    | inl e => (inl e, self)
    | inr gm0 =>
        let '(r, data) := f gm0 (gm_data gm0) in
        (r, mk_FitterBase (nsub self) (nband self) (obs self) (nu self)
              (margsky self) (dopsf self)
              (update_gm (_gmix_all0 self) band i data) (_gmix_all self))
    end.

(** Run a routine on [self._gmix_all[band][i]._data]; the routine may read
    [self._gmix_all0[band][i]]. *)
Definition on_gm (band i : nat)
  (f : GMixObj -> GMixObj -> M (list gmix.gauss2d) unit)
  : M FitterBase unit :=
  fun self =>
    match lookup_gm (_gmix_all0 self) band i,
          lookup_gm (_gmix_all self) band i with
    | inl e, _ | _, inl e => (inl e, self)
    | inr gm0, inr gm =>
        let '(r, data) := f gm0 gm (gm_data gm) in
        (r, mk_FitterBase (nsub self) (nband self) (obs self) (nu self)
              (margsky self) (dopsf self)
              (_gmix_all0 self) (update_gm (_gmix_all self) band i data))
    end.

(** [gmix_list0=self._gmix_all0[band]] and [gmix_list=self._gmix_all[band]];
    the two lists are aliases of the lists the fitter holds, which is why
    the loops below go on reading the fitter. *)
Definition band_lists (band : nat) : M FitterBase unit :=
  fun self =>
    match _gmix_all0 self !! band, _gmix_all self !! band with
    | Some _, Some _ => (inr tt, self)
    | _, _ => (inl IndexError, self)
    end.

(** [FitterBase._fill_gmix_all_nopsf(pars)] *)
Definition _fill_gmix_all_nopsf (pars : list xfloat) : M FitterBase unit :=
  fun self =>
    foldM (fun (_ : unit) '(band, obs_list) =>
      let* _ := band_lists band in
      let* band_pars := lift (_get_band_pars pars band) in
      foldM (fun (_ : unit) '(i, _) =>
        except_zero_division
          (let* _ := on_gm0 band i
                       (fun gm0 => gmix_fill band_pars (gm_model gm0)) in
           on_gm band i (fun _ gm => gmix_fill band_pars (gm_model gm)))
          (raise GMixRangeError))
        (enumerate (obs_list : list Obs)) tt)
      (enumerate (obs self)) tt self.

(** [FitterBase._fill_gmix_all(pars)] *)
Definition _fill_gmix_all (pars : list xfloat) : M FitterBase unit :=
  fun self =>
    if negb (dopsf self) then _fill_gmix_all_nopsf pars self
    else
      foldM (fun (_ : unit) '(band, obs_list) =>
        let* _ := band_lists band in
        let* band_pars := lift (_get_band_pars pars band) in
        foldM (fun (_ : unit) '(i, obs) =>
          let psf_gmix := obs_psf_gmix obs in
          let* _ := on_gm0 band i
                      (fun gm0 => gmix_fill band_pars (gm_model gm0)) in
          on_gm band i (fun gm0 _ => convolve_fill (gm_data gm0) psf_gmix))
          (enumerate (obs_list : list Obs)) tt)
        (enumerate (obs self)) tt self.

(** The two nested loops of [calc_lnprob] over bands and over
    [zip(obs_list, gmix_list)]; the loop-carried locals are
    [(ln_prob, s2n_numer, s2n_denom)]. *)
Definition loglike_loops (nsub : Z) (acc : xfloat * xfloat * xfloat)
  : M FitterBase (xfloat * xfloat * xfloat) :=
  fun self =>
    foldM (fun acc band =>
      match obs self !! band, _gmix_all self !! band with
      | Some obs_list, Some gmix_list =>
          foldM (fun '(ln_prob, s2n_numer, s2n_denom) '(obs, gm) =>
            let* res :=
              lift (if xf.gt (nu self) (Fin 2) then
                      get_loglike_robust gm obs (nu self) nsub
                    else if margsky self then
                      get_loglike_margsky gm obs (obs_model_image obs) nsub
                    else
                      get_loglike gm obs nsub) in
            let '(res0, res1, res2) := res in
            ret (xf.add ln_prob res0, xf.add s2n_numer res1,
                 xf.add s2n_denom res2))
            (zip obs_list gmix_list) acc
      | _, _ => raise IndexError
      end)
      (seq 0 (nband self)) acc self.

(** The body of the [try] block of [calc_lnprob] after [ln_priors] has
    been bound; it returns [(ln_prob, s2n_numer, s2n_denom)]. *)
Definition calc_lnprob_body (pars : list xfloat) (nsub : Z)
  (ln_priors s2n_numer s2n_denom : xfloat)
  : M FitterBase (xfloat * xfloat * xfloat) :=
  let ln_prob := Fin 0 in
  let* _ := _fill_gmix_all pars in
  let* (ln_prob, s2n_numer, s2n_denom) :=
    loglike_loops nsub (ln_prob, s2n_numer, s2n_denom) in
  let ln_prob := xf.add ln_prob ln_priors in
  ret (ln_prob, s2n_numer, s2n_denom).

(** The [return] statements of [calc_lnprob]; [ln_priors] is unbound when
    [_get_priors] raised. *)
Definition calc_lnprob_return (get_s2nsums get_priors : bool)
  (ln_prob : xfloat) (ln_priors : option xfloat)
  (s2n_numer s2n_denom : xfloat) : result lnprob_ret :=
  if get_s2nsums then inr (RetS2nSums ln_prob s2n_numer s2n_denom)
  else if get_priors then
    match ln_priors with
    | Some ln_priors => inr (RetLnProbPriors ln_prob ln_priors)
    | None => inl UnboundLocalError
    end
  else inr (RetLnProb ln_prob).

(** [FitterBase.calc_lnprob(pars, get_s2nsums, get_priors)] *)
Definition calc_lnprob (pars : list xfloat) (get_s2nsums get_priors : bool)
  : M FitterBase lnprob_ret :=
  fun self =>
    let nsub := nsub self in
    let s2n_numer := Fin 0 in
    let s2n_denom := Fin 0 in
    match _get_priors pars with
    | inl GMixRangeError =>
        (calc_lnprob_return get_s2nsums get_priors LOWVAL None
           (Fin 0) BIGVAL, self)
    | inl e => (inl e, self)
    | inr ln_priors =>
        match calc_lnprob_body pars nsub ln_priors s2n_numer s2n_denom self
        with
        | (inr (ln_prob, s2n_numer, s2n_denom), self') =>
            (calc_lnprob_return get_s2nsums get_priors ln_prob
               (Some ln_priors) s2n_numer s2n_denom, self')
        | (inl GMixRangeError, self') =>
            (calc_lnprob_return get_s2nsums get_priors LOWVAL
               (Some ln_priors) (Fin 0) BIGVAL, self')
        | (inl e, self') => (inl e, self')
        end
    end.

(** [FitterBase.get_dof()], from [self.get_npix()] and [self.npars]. *)
Definition get_dof (npix npars : Z) : xfloat :=
  let dof := (npix - npars)%Z in
  if decide (dof <= 0)%Z then Fin 1e-6 else Fin (IZR dof).

(** [FitterBase._get_fit_stats(pars)], with [self.npars] and the value of
    [self.get_npix()] (the number of pixels of all the images).  The call
    [calc_lnprob(pars, get_s2nsums=True)] returns three values. *)
Definition _get_fit_stats (npars npix : Z) (pars : list xfloat)
  : M FitterBase (gmap string pyval) :=
  let* r := calc_lnprob pars true false in
  match r with
  | RetS2nSums lnprob s2n_numer s2n_denom =>
      let s2n :=
        if xf.gt s2n_denom (Fin 0)
        then xf.div s2n_numer (xf.sqrt s2n_denom)
        else Fin 0 in
      let dof := get_dof npix npars in
      let eff_npix := Fin (IZR npix) in
      let chi2 := xf.div lnprob (Fin (-0.5)) in
      let chi2per := xf.div chi2 dof in
      let aic := xf.add (xf.mul (Fin (-2)) lnprob) (Fin (IZR (2 * npars))) in
      let bic := xf.add (xf.mul (Fin (-2)) lnprob)
                        (xf.mul (Fin (IZR npars)) (xf.log eff_npix)) in
      ret (<["s2n_w" := PyFloat s2n]>
             (<["lnprob" := PyFloat lnprob]>
                (<["chi2per" := PyFloat chi2per]>
                   (<["dof" := PyFloat dof]>
                      (<["aic" := PyFloat aic]>
                         (<["bic" := PyFloat bic]> ∅))))))
  | _ => raise (ValueError "need more than 1 value to unpack")
  end.

End FitterBase.

(** *** [MaxSimple]: the covariance at the maximum *)

(** [numpy.diag] of a matrix: its diagonal. *)
Definition diag (m : list (list xfloat)) : list xfloat :=
  imap (fun i row => default (Fin 0) (row !! i)) m.

(** [numpy.diag] of a vector: the diagonal matrix. *)
Definition diag_matrix (v : list xfloat) : list (list xfloat) :=
  imap (fun i x => <[i := x]> (replicate (length v) (Fin 0))) v.

(** Unary minus on a matrix. *)
Definition mat_neg (m : list (list xfloat)) : list (list xfloat) :=
  map (map xf.neg) m.

(** [m[2:2+2, 2:2+2]] *)
Definition block22 (m : list (list xfloat)) : list (list xfloat) :=
  map (fun row => take 2 (drop 2 row)) (take 2 (drop 2 m)).

(** [pars[i]] *)
Definition getx (pars : list xfloat) (i : nat) : result xfloat :=
  match pars !! i with
  | Some x => inr x
  | None => inl IndexError
  end.

Section MaxSimple.

(** [covmatrix.calc_hess(self.calc_lnprob, pars, h)] and
    [numpy.linalg.inv], which raises [LinAlgError] on a singular matrix;
    both lie outside the sources. *)
Variable calc_hess : list xfloat -> xfloat -> result (list (list xfloat)).
Variable linalg_inv : list (list xfloat) -> result (list (list xfloat)).

(** [MaxSimple.get_cov(pars, h, m)] *)
Definition get_cov (pars : list xfloat) (h m : xfloat)
  : result (list (list xfloat)) :=
  match getx pars 2, getx pars 3 with
  | inl e, _ | _, inl e => inl e
  | inr g1, inr g2 =>
      let g := xf.sqrt (xf.add (xf.mul g1 g1) (xf.mul g2 g2)) in
      let maxg := xf.sub (Fin 1) (xf.mul m h) in
      let pars :=
        if xf.gt g maxg then
          let fac := xf.div maxg g in
          let g1 := xf.mul g1 fac in
          let g2 := xf.mul g2 fac in
          <[3%nat := g2]> (<[2%nat := g1]> pars)
        else pars in
      match calc_hess pars h with
      | inl e => inl e
      | inr hess =>
          match linalg_inv hess with
          | inr inv => inr (mat_neg inv)
          | inl LinAlgError =>
              let hdiag := diag_matrix (diag hess) in
              match linalg_inv hess with
              | inr inv => inr (mat_neg inv)
              | inl e => inl e
              end
          | inl e => inl e
          end
      end
  end.

(** The [try] block of [calc_cov]: [Some (cov, err)] when it ends with
    [bad = False], [None] when it ends with [bad = True]. *)
Definition calc_cov_try (res : gmap string pyval) (h m : xfloat)
  : result (option (list (list xfloat) * list xfloat)) :=
  match res !! "pars" with
  | None => inl (KeyError "pars")
  | Some (PyArray pars) =>
      match get_cov pars h m with
      | inl LinAlgError => inr None
      | inl e => inl e
      | inr cov =>
          let cdiag := diag cov in
          if forallb (fun x => negb (xf.le x (Fin 0))) cdiag then
            let err := map xf.sqrt cdiag in
            if forallb xf.isfinite err then inr (Some (cov, err))
            else inr None
          else inr None
      end
  | Some _ => inl (ValueError "pars is not an array")
  end.

(** [MaxSimple.calc_cov(h, m)], on the attribute [self._result]. *)
Definition calc_cov (h m : xfloat) : M (option (gmap string pyval)) unit :=
  fun _result =>
    match _result with
    | None =>
        (inl (ValueError
                "No result, you must run_mcmc and calc_result first"),
         _result)
    | Some res =>
        match calc_cov_try res h m with
        | inl e => (inl e, _result)
        | inr None =>
            match res !! "flags" with
            | Some (PyInt flags) =>
                (inr tt,
                 Some (<["flags" := PyInt (Z.lor flags EIG_NOTFINITE)]> res))
            | Some _ => (inl (ValueError "flags is not an integer"), _result)
            | None => (inl (KeyError "flags"), _result)
            end
        | inr (Some (cov, err)) =>
            (inr tt,
             Some (<["g_cov" := PyMatrix (block22 cov)]>
                     (<["pars_err" := PyArray err]>
                        (<["pars_cov" := PyMatrix cov]> res))))
        end
    end.

End MaxSimple.

(** *** The least-squares driver *)

(** [needle in s] on strings. *)
Fixpoint contains (needle s : string) : bool :=
  match s with
  | EmptyString => String.prefix needle EmptyString
  | String c s' => String.prefix needle s || contains needle s'
  end.

(** [_get_def_stuff(npars)] *)
Definition _get_def_stuff (npars : nat)
  : list xfloat * list (list xfloat) * list xfloat :=
  let pars := replicate npars PDEF in
  let cov := replicate npars (replicate npars CDEF) in
  let err := replicate npars CDEF in
  (pars, cov, err).

Section run_leastsq.

(** [numpy.linalg.eig(pcov)], of which the eigenvalues are used; it raises
    [LinAlgError] when the decomposition fails. *)
Variable linalg_eig : list (list xfloat) -> result (list xfloat).

(** [_test_cov(pcov)] *)
Definition _test_cov (pcov : list (list xfloat)) : Z :=
  let flags := 0%Z in
  match linalg_eig pcov with
  | inr e =>
      let flags := if existsb (fun x => xf.lt x (Fin 0)) e
                   then (flags + LM_NEG_COV_EIG)%Z else flags in
      let flags := if existsb (fun x => xf.lt x (Fin 0)) (diag pcov)
                   then (flags + LM_NEG_COV_DIAG)%Z else flags in
      flags
  | inl _ => Z.lor flags EIG_NOTFINITE
  end.

(** What [leastsq(func, guess, full_output=1, **keys)] returns:
    [(pars, pcov0, infodict['nfev'], errmsg, ier)]. *)
Definition lm_tup : Type :=
  (list xfloat * option (list (list xfloat)) * Z * string * Z)%type.

(** The solver, a routine outside the sources, already applied to [func],
    [guess] and the keywords; and [func] itself. *)
Variable leastsq : result lm_tup.
Variable func : list xfloat -> result (list xfloat).

(** [(fdiff[n_prior_pars:]**2).sum()] *)
Definition sum_squares_from (n_prior_pars : nat) (fdiff : list xfloat)
  : xfloat :=
  foldl (fun acc x => xf.add acc (xf.mul x x)) (Fin 0)
        (drop n_prior_pars fdiff).

Definition optional_matrix (m : option (list (list xfloat))) : pyval :=
  match m with
  | Some m => PyMatrix m
  | None => PyNone
  end.

(** The [try] block of [run_leastsq]; [res] is empty until the block's
    last eight statements, none of which raises. *)
Definition run_leastsq_try (npars : nat) (dof : xfloat) (n_prior_pars : nat)
  : result (gmap string pyval) :=
  match leastsq with
  | inl e => inl e
  | inr (pars, pcov0, nfev, errmsg, ier) =>
      if decide (ier = 0)%Z then inl (ValueError errmsg)
      else
        let flags := 0%Z in
        let outcome :
          result (Z * string * list xfloat * pyval * list xfloat) :=
          if decide (ier > 4)%Z then
            let flags := (2 ^ (ier - 5))%Z in
            let '(pars, pcov, perr) := _get_def_stuff npars in
            inr (flags, errmsg, pars, PyMatrix pcov, perr)
          else
            match pcov0 with
            | None =>
                let flags := (flags + LM_SINGULAR_MATRIX)%Z in
                let errmsg := "singular covariance" in
                let '(junk, pcov, perr) := _get_def_stuff npars in
                inr (flags, errmsg, pars, PyMatrix pcov, perr)
            | Some pcov0 =>
                match func pars with
                | inl e => inl e
                | inr fdiff =>
                    let s_sq :=
                      xf.div (sum_squares_from n_prior_pars fdiff) dof in
                    let pcov := map (map (fun x => xf.mul x s_sq)) pcov0 in
                    let cflags := _test_cov pcov in
                    if decide (cflags <> 0)%Z then
                      let flags := (flags + cflags)%Z in
                      let errmsg := "bad covariance matrix" in
                      let '(junk1, junk2, perr) := _get_def_stuff npars in
                      inr (flags, errmsg, pars, PyMatrix pcov, perr)
                    else
                      let perr := map xf.sqrt (diag pcov) in
                      inr (flags, errmsg, pars, PyMatrix pcov, perr)
                end
            end in
        match outcome with
        | inl e => inl e
        | inr (flags, errmsg, pars, pcov, perr) =>
            inr (<["pars_cov" := pcov]>
                   (<["pars_cov0" := optional_matrix pcov0]>
                      (<["pars_err" := PyArray perr]>
                         (<["pars" := PyArray pars]>
                            (<["errmsg" := PyStr errmsg]>
                               (<["ier" := PyInt ier]>
                                  (<["nfev" := PyInt nfev]>
                                     (<["flags" := PyInt flags]> ∅))))))))
        end
  end.

(** The dictionary the two [except] clauses build. *)
Definition failure_res (npars : nat) (flags : Z) (errmsg : string)
  : gmap string pyval :=
  let '(pars, pcov, perr) := _get_def_stuff npars in
  <["errmsg" := PyStr errmsg]>
    (<["flags" := PyInt flags]>
       (<["nfev" := PyInt (-1)]>
          (<["pars_cov" := PyMatrix pcov]>
             (<["pars_cov0" := PyMatrix pcov]>
                (<["pars" := PyArray pars]> ∅))))).

(** [run_leastsq(func, guess, dof, n_prior_pars, **keys)], with
    [npars = guess.size]. *)
Definition run_leastsq (npars : nat) (dof : xfloat) (n_prior_pars : nat)
  : result (gmap string pyval) :=
  match run_leastsq_try npars dof n_prior_pars with
  | inr res => inr res
  | inl (ValueError serr) =>
      if contains "NaNs" serr || contains "infs" serr then
        inr (failure_res npars LM_FUNC_NOTFINITE "not finite")
      else inl (ValueError serr)
  | inl ZeroDivisionError =>
      inr (failure_res npars LM_DIV_ZERO "zero division")
  | inl e => inl e
  end.

End run_leastsq.

(** *** The Metropolis-Hastings sampler [MH] *)

Section MH.

(** A parameter vector of the chain's dimension, and the row
    [numpy.zeros(npars)] of that dimension. *)
Variable Pars : Type.
Variable zeros_row : Pars.

(** The state of the random generator, and of whatever else the callables
    given to [MH] read and write. *)
Variable W : Type.

(** [lnprob_func], [stepper] and [self._random_state.uniform].  They are
    taken to return: an exception one of them raised would leave [run_mcmc]
    at that point, with the arrays as they then are. *)
Variable lnprob_func : Pars -> W -> xfloat * W.
Variable stepper : Pars -> W -> Pars * W.
Variable uniform : W -> xfloat * W.

(** The attributes of an [MH] object.  An attribute that has not been
    assigned yet has an arbitrary value here: every method below assigns
    an attribute before it reads it. *)
Record MH : Type := mk_MH {
  _random_state : W;
  _trials : list Pars;
  _loglike : list xfloat;
  _accepted : list Z;
  _current : nat;
  _oldpars : Pars;
  _oldlike : xfloat;
  _arate : xfloat
}.

(** [a[index] = x] on a numpy array. *)
Definition setitem {A : Type} (a : list A) (index : nat) (x : A)
  : result (list A) :=
  if decide (index < length a)%nat then inr (<[index := x]> a)
  else inl IndexError.

(** [MH._init_data(pars_start, nstep)] *)
Definition _init_data (pars_start : Pars) (nstep : nat) : M MH unit :=
  fun self =>
    let trials := replicate nstep zeros_row in
    let loglike := replicate nstep (Fin 0) in
    let accepted := replicate nstep 0%Z in
    let current := 1%nat in
    let oldpars := pars_start in
    let '(oldlike, w) := lnprob_func pars_start (_random_state self) in
    let self1 := mk_MH w trials loglike accepted current oldpars oldlike
                       (_arate self) in
    match setitem trials 0 pars_start with
    | inl e => (inl e, self1)
    | inr trials =>
        let self2 := mk_MH w trials loglike accepted current oldpars oldlike
                           (_arate self) in
        match setitem loglike 0 oldlike with
        | inl e => (inl e, self2)
        | inr loglike =>
            let self3 := mk_MH w trials loglike accepted current oldpars
                               oldlike (_arate self) in
            match setitem accepted 0 1%Z with
            | inl e => (inl e, self3)
            | inr accepted =>
                (inr tt, mk_MH w trials loglike accepted current oldpars
                               oldlike (_arate self))
            end
        end
    end.

(** [MH._step()] *)
Definition _step : M MH unit :=
  fun self =>
    let index := _current self in
    let oldpars := _oldpars self in
    let oldlike := _oldlike self in
    let '(newpars, w) := stepper oldpars (_random_state self) in
    let '(newlike, w) := lnprob_func newpars w in
    let log_likeratio := xf.sub newlike oldlike in
    let '(randnum, w) := uniform w in
    let log_randnum := xf.log randnum in
    let accept :=
      xf.isfinite newlike
      && (xf.gt newlike oldlike || xf.lt log_randnum log_likeratio) in
    let '(flag, like, row) :=
      if accept then (1%Z, newlike, newpars) else (0%Z, oldlike, oldpars) in
    let self0 := mk_MH w (_trials self) (_loglike self) (_accepted self)
                       index oldpars oldlike (_arate self) in
    match setitem (_accepted self) index flag with
    | inl e => (inl e, self0)
    | inr accepted =>
        match setitem (_loglike self) index like with
        | inl e =>
            (inl e, mk_MH w (_trials self) (_loglike self) accepted index
                          oldpars oldlike (_arate self))
        | inr loglike =>
            match setitem (_trials self) index row with
            | inl e =>
                (inl e, mk_MH w (_trials self) loglike accepted index
                              oldpars oldlike (_arate self))
            | inr trials =>
                (inr tt, mk_MH w trials loglike accepted (S index)
                               row like (_arate self))
            end
        end
    end.

(** [for i in xrange(1, nstep): self._step()] *)
Fixpoint steps (n : nat) : M MH unit :=
  match n with
  | O => ret tt
  | S n' => let* _ := _step in steps n'
  end.

(** [self._accepted.sum()] *)
Definition sumZ (l : list Z) : Z := foldr Z.add 0%Z l.

(** [MH.run_mcmc(pars_start, nstep)]; it returns [self._trials[-1,:]]. *)
Definition run_mcmc (pars_start : Pars) (nstep : nat) : M MH Pars :=
  let* _ := _init_data pars_start nstep in
  let* _ := steps (nstep - 1) in
  fun self =>
    let arate := xf.div (Fin (IZR (sumZ (_accepted self))))
                        (Fin (INR (length (_accepted self)))) in
    let self' := mk_MH (_random_state self) (_trials self) (_loglike self)
                       (_accepted self) (_current self) (_oldpars self)
                       (_oldlike self) arate in
    match last (_trials self) with
    | Some row => (inr row, self')
    | None => (inl IndexError, self')
    end.

(** [get_trials], [get_loglike], [get_accepted], [get_acceptance_rate] *)
Definition get_trials (self : MH) : list Pars := _trials self.
Definition get_loglike (self : MH) : list xfloat := _loglike self.
Definition get_accepted (self : MH) : list Z := _accepted self.
Definition get_acceptance_rate (self : MH) : xfloat := _arate self.

End MH.

(** *** The tempered sampler [MHTemp] *)

Section MHTemp.

Variable Pars : Type.
Variable zeros_row : Pars.
Variable W : Type.
Variable lnprob_func : Pars -> W -> xfloat * W.
Variable stepper : Pars -> W -> Pars * W.
Variable uniform : W -> xfloat * W.

(** An [MHTemp] object: the attributes of the [MH] it extends, and its
    own. *)
Record MHTemp : Type := mk_MHTemp {
  mh : MH Pars W;
  T : R;
  Tinv : xfloat;
  _oldlike_T : xfloat;
  _loglike_T : list xfloat
}.

(** [MHTemp.__init__(lnprob_func, stepper, T, ...)], on the object [self]
    as [MH.__init__] leaves it: [self.T=T; self.Tinv=1.0/self.T], a
    division of Python floats. *)
Definition MHTemp__init__ (self : MHTemp) (T : R) : result MHTemp :=
  if Req_dec_T T 0 then inl ZeroDivisionError
  else inr (mk_MHTemp (mh self) T (Fin (1 / T))
              (_oldlike_T self) (_loglike_T self)).

(** [MHTemp._init_data(pars_start, nstep)] *)
Definition MHTemp_init_data (pars_start : Pars) (nstep : nat)
  : M MHTemp unit :=
  fun self =>
    match _init_data Pars zeros_row W lnprob_func pars_start nstep (mh self)
    with
    | (inl e, mh') =>
        (inl e, mk_MHTemp mh' (T self) (Tinv self)
                  (_oldlike_T self) (_loglike_T self))
    | (inr _, mh') =>
        let oldlike_T := xf.mul (_oldlike Pars W mh') (Tinv self) in
        let loglike_T := _loglike Pars W mh' in
        match setitem loglike_T 0 oldlike_T with
        | inl e =>
            (inl e, mk_MHTemp mh' (T self) (Tinv self)
                      (_oldlike_T self) (_loglike_T self))
        | inr loglike_T =>
            (inr tt, mk_MHTemp mh' (T self) (Tinv self) oldlike_T loglike_T)
        end
    end.

(** [MHTemp._step()] *)
Definition MHTemp_step : M MHTemp unit :=
  fun self =>
    let index := _current Pars W (mh self) in
    let oldpars := _oldpars Pars W (mh self) in
    let oldlike := _oldlike Pars W (mh self) in
    let oldlike_T := _oldlike_T self in
    let '(newpars, w) := stepper oldpars (_random_state Pars W (mh self)) in
    let '(newlike, w) := lnprob_func newpars w in
    let newlike_T := xf.mul newlike (Tinv self) in
    let log_likeratio := xf.sub newlike_T oldlike_T in
    let '(randnum, w) := uniform w in
    let log_randnum := xf.log randnum in
    let accept :=
      xf.isfinite newlike_T
      && (xf.gt newlike_T oldlike_T || xf.lt log_randnum log_likeratio) in
    let '(flag, like, like_T, row) :=
      if accept then (1%Z, newlike, newlike_T, newpars)
      else (0%Z, oldlike, oldlike_T, oldpars) in
    let trials := _trials Pars W (mh self) in
    let loglike := _loglike Pars W (mh self) in
    let accepted := _accepted Pars W (mh self) in
    let arate := _arate Pars W (mh self) in
    let obj := fun accepted loglike loglike_T trials =>
      mk_MHTemp (mk_MH Pars W w trials loglike accepted index oldpars
                   oldlike arate)
        (T self) (Tinv self) oldlike_T loglike_T in
    match setitem accepted index flag with
    | inl e => (inl e, obj accepted loglike (_loglike_T self) trials)
    | inr accepted' =>
        match setitem loglike index like with
        | inl e => (inl e, obj accepted' loglike (_loglike_T self) trials)
        | inr loglike' =>
            match setitem (_loglike_T self) index like_T with
            | inl e =>
                (inl e, obj accepted' loglike' (_loglike_T self) trials)
            | inr loglike_T' =>
                match setitem trials index row with
                | inl e =>
                    (inl e, obj accepted' loglike' loglike_T' trials)
                | inr trials' =>
                    (inr tt,
                     mk_MHTemp (mk_MH Pars W w trials' loglike' accepted'
                                  (S index) row like arate)
                       (T self) (Tinv self) like_T loglike_T')
                end
            end
        end
    end.

(** [for i in xrange(1, nstep): self._step()], on an [MHTemp] *)
Fixpoint MHTemp_steps (n : nat) : M MHTemp unit :=
  match n with
  | O => ret tt
  | S n' => let* _ := MHTemp_step in MHTemp_steps n'
  end.

(** [MH.run_mcmc(pars_start, nstep)] as an [MHTemp] object runs it: the
    method is inherited and reaches the two methods above. *)
Definition MHTemp_run_mcmc (pars_start : Pars) (nstep : nat)
  : M MHTemp Pars :=
  let* _ := MHTemp_init_data pars_start nstep in
  let* _ := MHTemp_steps (nstep - 1) in
  fun self =>
    let m := mh self in
    let arate := xf.div (Fin (IZR (sumZ (_accepted Pars W m))))
                        (Fin (INR (length (_accepted Pars W m)))) in
    let m' := mk_MH Pars W (_random_state Pars W m) (_trials Pars W m)
                (_loglike Pars W m) (_accepted Pars W m) (_current Pars W m)
                (_oldpars Pars W m) (_oldlike Pars W m) arate in
    let self' := mk_MHTemp m' (T self) (Tinv self) (_oldlike_T self)
                   (_loglike_T self) in
    match last (_trials Pars W m) with
    | Some row => (inr row, self')
    | None => (inl IndexError, self')
    end.

(** [get_loglike_T] *)
Definition get_loglike_T (self : MHTemp) : list xfloat := _loglike_T self.

End MHTemp.

End fitting.

(** * Vocabulary of the statements

    Names for what the theorems below speak about: the values the code
    writes, the sums it accumulates, the conditions under which its
    pipelines raise, the invariants of its loops, and the concrete inputs
    at which the theorems are instantiated. *)

(** ** Mixtures *)

(** The record [_gauss2d_set] writes when it does not raise. *)
Definition stored (p row col irr irc icc : R) : gmix.gauss2d :=
  let det := irr * icc - irc * irc in
  gmix.mk_gauss2d p row col irr irc icc det
    (irr * (1 / det)) (irc * (1 / det)) (icc * (1 / det))
    (1 / (2 * PI * sqrt det)) (p * (1 / (2 * PI * sqrt det))).

Definition Rsum (l : list R) : R := foldr Rplus 0 l.

(** Total flux and the first moments of a mixture. *)
Definition psum_of (l : list gmix.gauss2d) : R := Rsum (gmix.p <$> l).
Definition rowsum_of (l : list gmix.gauss2d) : R :=
  Rsum ((fun g => gmix.p g * gmix.row g) <$> l).
Definition colsum_of (l : list gmix.gauss2d) : R :=
  Rsum ((fun g => gmix.p g * gmix.col g) <$> l).

(** The determinant of the summed moments of a pair of components. *)
Definition pair_det (g h : gmix.gauss2d) : R :=
  (gmix.irr g + gmix.irr h) * (gmix.icc g + gmix.icc h)
  - (gmix.irc g + gmix.irc h) * (gmix.irc g + gmix.irc h).

(** The component the convolution writes for the pair [(g, h)], given the
    psf's centroid [(rc, cc)] and inverse total flux [ipsum]. *)
Definition conv_pair (rc cc ipsum : R) (g h : gmix.gauss2d) : gmix.gauss2d :=
  stored (gmix.p g * gmix.p h * ipsum)
         (gmix.row g + (gmix.row h - rc))
         (gmix.col g + (gmix.col h - cc))
         (gmix.irr g + gmix.irr h)
         (gmix.irc g + gmix.irc h)
         (gmix.icc g + gmix.icc h).

Definition conv_list (rc cc ipsum : R) (obj psf : list gmix.gauss2d)
  : list gmix.gauss2d :=
  flat_map (fun g => conv_pair rc cc ipsum g <$> psf) obj.

(** [_get_cen] in terms of the three sums. *)
Definition cen_of_sums (rs cs ps : R) : result (R * R * R) :=
  match fdiv rs ps, fdiv cs ps with
  | inr r, inr c => inr (r, c, ps)
  | inl e, _ | _, inl e => inl e
  end.

(** The two loop bodies of [_convolve_fill], named. *)
Definition conv_inner (rc cc ipsum : R) (obj : gmix.gauss2d)
  : nat -> gmix.gauss2d -> M (list gmix.gauss2d) nat :=
  fun iself psf =>
    let p_ := gmix.p obj * gmix.p psf * ipsum in
    let row_ := gmix.row obj + (gmix.row psf - rc) in
    let col_ := gmix.col obj + (gmix.col psf - cc) in
    let irr_ := gmix.irr obj + gmix.irr psf in
    let irc_ := gmix.irc obj + gmix.irc psf in
    let icc_ := gmix.icc obj + gmix.icc psf in
    let* _ := gmix._gauss2d_set iself p_ row_ col_ irr_ irc_ icc_ in
    ret (S iself).

Definition conv_outer (rc cc ipsum : R) (psf_gmix : list gmix.gauss2d)
  : nat -> gmix.gauss2d -> M (list gmix.gauss2d) nat :=
  fun iself obj => foldM (conv_inner rc cc ipsum obj) psf_gmix iself.

(** A round unit Gaussian at the origin, as [GMix(pars=[1,0,0,1,0,1])]
    holds it. *)
Definition unit_gauss : gmix.gauss2d := stored 1 0 0 1 0 1.

(** The determinant of a component's own moments, recomputed from them. *)
Definition moments_det (g : gmix.gauss2d) : R :=
  gmix.irr g * gmix.icc g - gmix.irc g * gmix.irc g.

(** Positive-definite moments. *)
Definition positive_definite (g : gmix.gauss2d) : Prop :=
  0 < gmix.irr g /\ 0 < moments_det g.

(** The component [GMix(pars=...)] builds from the six parameters of [g]. *)
Definition refresh (g : gmix.gauss2d) : gmix.gauss2d :=
  stored (gmix.p g) (gmix.row g) (gmix.col g)
         (gmix.irr g) (gmix.irc g) (gmix.icc g).

(** The loop body of [_fill_full], named. *)
Definition fill_body (pars : list R) : unit -> nat -> M (list gmix.gauss2d) unit :=
  fun _ i =>
    let beg := (i * 6)%nat in
    let* p := lift (gmix.getitem pars (beg + 0)) in
    let* row := lift (gmix.getitem pars (beg + 1)) in
    let* col := lift (gmix.getitem pars (beg + 2)) in
    let* irr := lift (gmix.getitem pars (beg + 3)) in
    let* irc := lift (gmix.getitem pars (beg + 4)) in
    let* icc := lift (gmix.getitem pars (beg + 5)) in
    gmix._gauss2d_set i p row col irr irc icc.

(** The components a flat parameter array describes, six numbers each. *)
Fixpoint components_of (pars : list R) : list gmix.gauss2d :=
  match pars with
  | p :: row :: col :: irr :: irc :: icc :: rest =>
      stored p row col irr irc icc :: components_of rest
  | _ => []
  end.

(** What [_gauss2d_set] establishes of a component: the derived fields
    agree with the six parameters. *)
Definition well_formed (g : gmix.gauss2d) : Prop :=
  0 < gmix.det g /\
  gmix.det g = moments_det g /\
  gmix.drr g * gmix.det g = gmix.irr g /\
  gmix.drc g * gmix.det g = gmix.irc g /\
  gmix.dcc g * gmix.det g = gmix.icc g /\
  gmix.norm g = 1 / (2 * PI * sqrt (gmix.det g)) /\
  gmix.pnorm g = gmix.p g * gmix.norm g.

(** The flux-weighted sums of the second moments. *)
Definition irrsum_of (l : list gmix.gauss2d) : R :=
  Rsum ((fun g => gmix.p g * gmix.irr g) <$> l).
Definition ircsum_of (l : list gmix.gauss2d) : R :=
  Rsum ((fun g => gmix.p g * gmix.irc g) <$> l).
Definition iccsum_of (l : list gmix.gauss2d) : R :=
  Rsum ((fun g => gmix.p g * gmix.icc g) <$> l).
Definition Tsum_of (l : list gmix.gauss2d) : R :=
  Rsum ((fun g => (gmix.irr g + gmix.icc g) * gmix.p g) <$> l).

(** The component [_fill_simple] writes at a position whose table entries
    are [fval] and [pval]. *)
Definition simple_component (row col T counts e1 e2 fval pval : R)
  : gmix.gauss2d :=
  stored (counts * pval) row col
         ((T * fval / 2) * (1 - e1))
         ((T * fval / 2) * e2)
         ((T * fval / 2) * (1 + e1)).

(** The loop body of [_fill_simple], named. *)
Definition simple_body (row col T counts e1 e2 : R) (fvals pvals : list R)
  : unit -> nat -> M (list gmix.gauss2d) unit :=
  fun _ i =>
    let* fval := lift (gmix.getitem fvals i) in
    let T_i := T * fval in
    let* pval := lift (gmix.getitem pvals i) in
    let counts_i := counts * pval in
    gmix._gauss2d_set i counts_i row col
      ((T_i / 2) * (1 - e1))
      ((T_i / 2) * e2)
      ((T_i / 2) * (1 + e1)).

(** The bodies of the loops over the columns of [_loglike_fast3] and of
    [_loglike_jacob_fast3], named. *)
Definition loglike_cols (self : list gmix.gauss2d)
  (image weight : list (list R)) (i0 : Z) (expvals : list R) (row_ : nat)
  : R * R * R -> nat -> M unit (R * R * R) :=
  fun '(loglike, s2n_numer, s2n_denom) col_ =>
    let* ivar := lift (gmix.getitem2 weight row_ col_) in
    if Rle_dec ivar 0 then ret (loglike, s2n_numer, s2n_denom)
    else
      let* model_val :=
        foldM (fun model_val g =>
          let u := INR row_ - gmix.row g in
          let v := INR col_ - gmix.col g in
          let* term := lift (gmix.gauss_eval_fast3 i0 expvals g u v) in
          ret (model_val + term))
          self 0 in
      let* pixval := lift (gmix.getitem2 image row_ col_) in
      let diff := model_val - pixval in
      ret (loglike + diff * diff * ivar,
           s2n_numer + pixval * model_val * ivar,
           s2n_denom + model_val * model_val * ivar).

Definition loglike_jacob_cols (self : list gmix.gauss2d)
  (image weight : list (list R)) (j : jacobian._jacobian)
  (i0 : Z) (expvals : list R) (row_ : nat)
  : R * R * R * R * R -> nat -> M unit (R * R * R * R * R) :=
  fun '(loglike, s2n_numer, s2n_denom, u, v) col_ =>
    let* ivar := lift (gmix.getitem2 weight row_ col_) in
    if Rle_dec ivar 0 then ret (loglike, s2n_numer, s2n_denom, u, v)
    else
      let* model_val :=
        foldM (fun model_val g =>
          let udiff := u - gmix.row g in
          let vdiff := v - gmix.col g in
          let* term :=
            lift (gmix.gauss_eval_fast3 i0 expvals g udiff vdiff) in
          ret (model_val + term))
          self 0 in
      let* pixval := lift (gmix.getitem2 image row_ col_) in
      let diff := model_val - pixval in
      ret (loglike + diff * diff * ivar,
           s2n_numer + pixval * model_val * ivar,
           s2n_denom + model_val * model_val * ivar,
           u + jacobian.dudcol j,
           v + jacobian.dvdcol j).

(** The result of the loop over the columns without the two coordinates. *)
Definition drop_uv (r : result (R * R * R * R * R) * unit)
  : result (R * R * R) * unit :=
  match r with
  | (inr (loglike, s2n_numer, s2n_denom, _, _), s) =>
      (inr (loglike, s2n_numer, s2n_denom), s)
  | (inl e, s) => (inl e, s)
  end.

(** The value of the mixture at a position [(u, v)], as the innermost loop
    of the kernels accumulates it. *)
Definition model_at (self : list gmix.gauss2d) (i0 : Z) (expvals : list R)
  (u v : R) : result R :=
  (foldM (S := unit)
     (fun model_val g =>
        let* term :=
          lift (gmix.gauss_eval_fast3 i0 expvals g
                  (u - gmix.row g) (v - gmix.col g)) in
        ret (model_val + term))
     self 0 tt).1.

(** The entries [(weight, pixel)] of a row that the kernels use: those of
    positive weight, in their order. *)
Fixpoint unmasked (row : list (R * R)) : list (R * R) :=
  match row with
  | [] => []
  | (w, pix) :: row' =>
      if Rle_dec w 0 then unmasked row' else (w, pix) :: unmasked row'
  end.

(** A row with its unmasked entries moved to its front, and as many masked
    entries (weight [0]) behind them as the row had. *)
Definition pack_row (wrow irow : list R) : list (R * R) :=
  let kept := unmasked (zip wrow irow) in
  kept ++ replicate (length wrow - length kept) (0, 0).

Definition pack_weight (weight image : list (list R)) : list (list R) :=
  zip_with (fun wrow irow => (pack_row wrow irow).*1) weight image.

Definition pack_image (weight image : list (list R)) : list (list R) :=
  zip_with (fun wrow irow => (pack_row wrow irow).*2) weight image.

(** What one turn of the loop over the columns of [_loglike_jacob_fast3]
    does with an entry [(ivar, pixval)], and the loop over a row of
    entries. *)
Definition jacob_entry (self : list gmix.gauss2d) (j : jacobian._jacobian)
  (i0 : Z) (expvals : list R)
  : R * R * R * R * R -> R * R -> result (R * R * R * R * R) :=
  fun '(l, n, d, u, v) '(ivar, pix) =>
    if Rle_dec ivar 0 then inr (l, n, d, u, v)
    else
      match model_at self i0 expvals u v with
      | inl e => inl e
      | inr m =>
          inr (l + (m - pix) * (m - pix) * ivar,
               n + pix * m * ivar,
               d + m * m * ivar,
               u + jacobian.dudcol j,
               v + jacobian.dvdcol j)
      end.

Fixpoint fold_entries {St : Type} (f : St -> R * R -> result St)
  (row : list (R * R)) (st : St) : result St :=
  match row with
  | [] => inr st
  | e :: row' =>
      match f st e with
      | inl x => inl x
      | inr st' => fold_entries f row' st'
      end
  end.

(** ** Rendering *)

(** The value of a mixture at a position with the module's table of the
    fast exponential (the evaluation never fails with that table). *)
Definition mixture_value (self : list gmix.gauss2d) (u v : R) : R :=
  match model_at self (-26) gmix._exp3_lookup u v with
  | inr m => m
  | inl _ => 0
  end.

(** The position at which the rendering kernels evaluate the mixture for a
    point [(row, col)] of the pixel grid: the point itself without a
    Jacobian, its image under the Jacobian otherwise. *)
Definition render_coords (jacobian : option jacobian.Jacobian)
  (row col : R) : R * R :=
  match jacobian with
  | None => (row, col)
  | Some jacobian =>
      let j := jacobian._data jacobian in
      (jacobian.dudrow j * (row - jacobian.row0 j)
       + jacobian.dudcol j * (col - jacobian.col0 j),
       jacobian.dvdrow j * (row - jacobian.row0 j)
       + jacobian.dvdcol j * (col - jacobian.col0 j))
  end.

Definition sum_over (l : list nat) (f : nat -> R) : R :=
  foldr Rplus 0 (f <$> l).

(** The mean of the mixture over the [nsub] by [nsub] grid of points inside
    the pixel [(row_, col_)]: the points are [1/nsub] apart and centred on
    the pixel. *)
Definition subpixel_mean (self : list gmix.gauss2d) (nsub : Z)
  (jacobian : option jacobian.Jacobian) (row_ col_ : nat) : R :=
  let stepsize := 1 / IZR nsub in
  let offset := IZR (nsub - 1) * stepsize / 2 in
  sum_over (seq 0 (Z.to_nat nsub)) (fun i =>
    sum_over (seq 0 (Z.to_nat nsub)) (fun j =>
      let '(u, v) :=
        render_coords jacobian
          (INR row_ - offset + INR i * stepsize)
          (INR col_ - offset + INR j * stepsize) in
      mixture_value self u v))
  * (1 / IZR (nsub * nsub)).

(** An image with [inc row col] added to every pixel. *)
Definition add_to_pixels (inc : nat -> nat -> R) (image : list (list R))
  : list (list R) :=
  imap (fun r rowl => imap (fun c x => x + inc r c) rowl) image.

(** What the rendering kernels do at one pixel, given the value they add
    to it. *)
Definition pixel_step (inc : nat -> nat -> R) (row_ col_ : nat)
  : M (list (list R)) unit :=
  fun image =>
    match gmix.getitem2 image row_ col_ with
    | inl e => (inl e, image)
    | inr model_val => gmix.setitem2 row_ col_ (model_val + inc row_ col_) image
    end.

(** ** The EM fitter *)

(** An [em_run] that performs no update and reports [5] iterations with
    [fdiff = 0]. *)
Definition em_run_idle :
  list (list R) -> jacobian._jacobian -> R -> R -> R -> Z ->
  M (list gmix.gauss2d) (Z * xfloat) :=
  fun _ _ _ _ _ _ gm => (inr (5%Z, Fin 0), gm).

(** ** [calc_lnprob] *)

Section pipeline.

Variable Obs : Type.
Variable obs_psf_gmix : Obs -> list gmix.gauss2d.
Variable obs_model_image : Obs -> list (list xfloat).
Variable _get_priors : list xfloat -> result xfloat.
Variable _get_band_pars : list xfloat -> nat -> result (list xfloat).
Variable gmix_fill : list xfloat -> Z -> M (list gmix.gauss2d) unit.
Variable convolve_fill :
  list gmix.gauss2d -> list gmix.gauss2d -> M (list gmix.gauss2d) unit.
Variable get_loglike_robust :
  fitting.GMixObj -> Obs -> xfloat -> Z -> result (xfloat * xfloat * xfloat).
Variable get_loglike_margsky :
  fitting.GMixObj -> Obs -> list (list xfloat) -> Z ->
  result (xfloat * xfloat * xfloat).
Variable get_loglike :
  fitting.GMixObj -> Obs -> Z -> result (xfloat * xfloat * xfloat).

Local Abbreviation fill_gmix_all :=
  (fitting._fill_gmix_all Obs obs_psf_gmix _get_band_pars gmix_fill
     convolve_fill).
Local Abbreviation loglike_loops :=
  (fitting.loglike_loops Obs obs_model_image get_loglike_robust
     get_loglike_margsky get_loglike).

(** The first exception raised inside the [try] block of [calc_lnprob] is
    a range error: raised by the prior, or, the prior having returned, by
    the fill of the mixtures (which includes the convolution with the psf),
    or, the fill having returned, by a likelihood evaluation. *)
Definition range_error_in_pipeline (pars : list xfloat)
  (self : fitting.FitterBase Obs) : Prop :=
  _get_priors pars = inl GMixRangeError \/
  exists ln_priors : xfloat,
    _get_priors pars = inr ln_priors /\
    ((fill_gmix_all pars self).1 = inl GMixRangeError \/
     exists self1 : fitting.FitterBase Obs,
       fill_gmix_all pars self = (inr tt, self1) /\
       (loglike_loops (fitting.nsub Obs self) (Fin 0, Fin 0, Fin 0) self1).1
       = inl GMixRangeError).

End pipeline.

(** A one-band, one-exposure fitter without psf whose likelihood kernels
    all raise the range error; its prior is absent ([_get_priors] returns
    [0.0]) and its fill routines do nothing. *)
Definition fitter_raising : fitting.FitterBase unit :=
  fitting.mk_FitterBase unit 1 1 [[tt]] (Fin 0) false false
    [[fitting.mk_GMixObj [unit_gauss] 1]]
    [[fitting.mk_GMixObj [unit_gauss] 1]].

(** ** The Metropolis-Hastings chain *)

Section chain_invariant.

Variables Pars W : Type.

(** What holds of the chain's arrays between two steps of a run of [nstep]
    steps started at [pars_start] with log-probability [like0]. *)
Record chain_inv (nstep : nat) (pars_start : Pars) (like0 : xfloat)
  (current : nat) (self : fitting.MH Pars W) : Prop := mk_chain_inv {
  inv_trials : length (fitting._trials Pars W self) = nstep;
  inv_loglike : length (fitting._loglike Pars W self) = nstep;
  inv_accepted : length (fitting._accepted Pars W self) = nstep;
  inv_current : fitting._current Pars W self = current;
  inv_row0 : fitting._trials Pars W self !! 0%nat = Some pars_start;
  inv_like0 : fitting._loglike Pars W self !! 0%nat = Some like0;
  inv_acc0 : fitting._accepted Pars W self !! 0%nat = Some 1%Z;
  inv_flags : Forall (fun a => (0 <= a)%Z) (fitting._accepted Pars W self)
}.

End chain_invariant.

Arguments chain_inv {Pars W}.
Arguments mk_chain_inv {Pars W}.

Section chain_bookkeeping.

Variables Pars W : Type.

(** What the chain's arrays record between two steps, beyond their shape:
    the flags are [0] or [1], the row before [current] is the chain's
    position, a row flagged [0] repeats the row before it, and a row
    flagged [1] after the start has a finite log-probability. *)
Record chain_log (nstep current : nat) (self : fitting.MH Pars W)
  : Prop := mk_chain_log {
  log_trials : length (fitting._trials Pars W self) = nstep;
  log_loglike : length (fitting._loglike Pars W self) = nstep;
  log_accepted : length (fitting._accepted Pars W self) = nstep;
  log_current : fitting._current Pars W self = current;
  log_flags :
    Forall (fun a => a = 0%Z \/ a = 1%Z) (fitting._accepted Pars W self);
  log_oldpars :
    fitting._trials Pars W self !! (current - 1)%nat
    = Some (fitting._oldpars Pars W self);
  log_oldlike :
    fitting._loglike Pars W self !! (current - 1)%nat
    = Some (fitting._oldlike Pars W self);
  log_rejected :
    forall i : nat,
      (1 <= i < current)%nat ->
      fitting._accepted Pars W self !! i = Some 0%Z ->
      fitting._trials Pars W self !! i
      = fitting._trials Pars W self !! (i - 1)%nat /\
      fitting._loglike Pars W self !! i
      = fitting._loglike Pars W self !! (i - 1)%nat;
  log_kept :
    forall (i : nat) (x : xfloat),
      (1 <= i < current)%nat ->
      fitting._accepted Pars W self !! i = Some 1%Z ->
      fitting._loglike Pars W self !! i = Some x ->
      xf.isfinite x = true
}.

(** At [Tinv = 1] the tempered log-probabilities of an [MHTemp] are the
    plain ones. *)
Definition untempered (self : fitting.MHTemp Pars W) : Prop :=
  fitting.Tinv Pars W self = Fin 1 /\
  fitting._loglike_T Pars W self
  = fitting._loglike Pars W (fitting.mh Pars W self) /\
  fitting._oldlike_T Pars W self
  = fitting._oldlike Pars W (fitting.mh Pars W self).

End chain_bookkeeping.

Arguments chain_log {Pars W}.
Arguments mk_chain_log {Pars W}.
Arguments untempered {Pars W}.

(** A chain on the integers: the proposal adds one, the log-probability is
    constantly [0.0], the generator always draws [0.5]. *)
Definition mh_idle : fitting.MH nat unit :=
  fitting.mk_MH nat unit tt [] [] [] 0 0%nat (Fin 0) (Fin 0).

(** ** Covariances and the least-squares driver *)

(** What [get_cov] does once the shear has been bounded: the Hessian at
    [pars], inverted and negated. *)
Definition cov_at
  (calc_hess : list xfloat -> xfloat -> result (list (list xfloat)))
  (linalg_inv : list (list xfloat) -> result (list (list xfloat)))
  (pars : list xfloat) (h : xfloat) : result (list (list xfloat)) :=
  match calc_hess pars h with
  | inl e => inl e
  | inr hess =>
      match linalg_inv hess with
      | inr inv => inr (fitting.mat_neg inv)
      | inl LinAlgError =>
          match linalg_inv hess with
          | inr inv => inr (fitting.mat_neg inv)
          | inl e => inl e
          end
      | inl e => inl e
      end
  end.

(** A stand-in for [numpy.linalg.inv] that is right on diagonal matrices
    (the inverse when no diagonal entry is zero, [LinAlgError] otherwise)
    and raises [LinAlgError] on every other matrix, among them the
    singular matrix used below. *)
Definition is_zero (a : xfloat) : bool :=
  match a with
  | Fin x => if Req_dec_T x 0 then true else false
  | _ => false
  end.

Definition is_diagonal (m : list (list xfloat)) : bool :=
  forallb (fun '(i, row) =>
    forallb (fun '(j, x) => Nat.eqb i j || is_zero x) (fitting.enumerate row))
    (fitting.enumerate m).

Definition inv_diagonal (m : list (list xfloat))
  : result (list (list xfloat)) :=
  if is_diagonal m then
    if existsb is_zero (fitting.diag m) then inl LinAlgError
    else inr (fitting.diag_matrix (map (xf.div (Fin 1)) (fitting.diag m)))
  else inl LinAlgError.

(** The Hessian of a log-probability that falls off along the sum of its
    six parameters only: every entry is [-1]. *)
Definition hess_rank_one : list (list xfloat) :=
  replicate 6 (replicate 6 (Fin (-1))).

Definition pars_round : list xfloat :=
  [Fin 0; Fin 0; Fin 0; Fin 0; Fin 4; Fin 1].

Definition res_nm : gmap string pyval :=
  <["flags" := PyInt 0]> (<["pars" := PyArray pars_round]> ∅).

(** The solver's outcome of the counterexample: status [1], the
    parameters [[1.0]], no covariance. *)
Definition solved_singular : result fitting.lm_tup :=
  inr ([Fin 1], None, 3%Z, "ok", 1%Z).

(** * The statements of the specification *)

(** C1. [_gauss2d_set] raises a range error exactly when
    [det = irr*icc - irc^2 <= 0]; in that case the array is left as it was;
    otherwise (for an index inside the array) it returns and element [i]
    holds the six parameters, [det], [drr = irr/det], [drc = irc/det],
    [dcc = icc/det], [norm = 1/(2 pi sqrt det)] and [pnorm = p * norm]. *)
Theorem gauss2d_set_range_error_iff :
  forall (self : list gmix.gauss2d) (i : nat) (p row col irr irc icc : R),
    let det := irr * icc - irc * irc in
    let out := gmix._gauss2d_set i p row col irr irc icc self in
    (out.1 = inl GMixRangeError <-> det <= 0) /\
    (det <= 0 -> out.2 = self) /\
    (0 < det -> (i < length self)%nat ->
       out.1 = inr tt /\
       out.2 !! i = Some (gmix.mk_gauss2d p row col irr irc icc det
                            (irr / det) (irc / det) (icc / det)
                            (1 / (2 * PI * sqrt det))
                            (p * (1 / (2 * PI * sqrt det)))) /\
       (forall j : nat, j <> i -> out.2 !! j = self !! j)).
Proof.
  intros self i p row col irr irc icc det out.
  subst out. unfold gmix._gauss2d_set. fold det.
  destruct (Rle_dec det 0) as [Hle | Hgt]; cbn.
  - split; [tauto |]. split; [reflexivity | intros; lra].
  - unfold gmix.store.
    split.
    + split; [| intros; lra].
      destruct (decide (i < length self)%nat); cbn; discriminate.
    + split; [intros; lra |].
      intros Hpos Hi.
      destruct (decide (i < length self)%nat) as [_ | Hn]; [| lia]. cbn.
      split; [reflexivity |]. split.
      * rewrite list_lookup_insert_eq by exact Hi.
        f_equal. f_equal; unfold Rdiv; ring.
      * intros j Hj. rewrite list_lookup_insert_ne by congruence. reflexivity.
Qed.

Lemma gauss2d_set_range_error_iff_witness :
  0 < 2 * 2 - 1 * 1 /\ (0 < length [gmix.gauss2d_zero])%nat /\
  (gmix._gauss2d_set 0 1 0 0 2 1 2 [gmix.gauss2d_zero]).1 = inr tt /\
  (gmix._gauss2d_set 0 1 0 0 2 1 2 [gmix.gauss2d_zero]).2 !! 0%nat
  = Some (gmix.mk_gauss2d 1 0 0 2 1 2 (2 * 2 - 1 * 1)
            (2 / (2 * 2 - 1 * 1)) (1 / (2 * 2 - 1 * 1))
            (2 / (2 * 2 - 1 * 1))
            (1 / (2 * PI * sqrt (2 * 2 - 1 * 1)))
            (1 * (1 / (2 * PI * sqrt (2 * 2 - 1 * 1))))).
Proof.
  assert (Hdet : 0 < 2 * 2 - 1 * 1) by lra.
  assert (Hi : (0 < length [gmix.gauss2d_zero])%nat) by (cbn; lia).
  split; [exact Hdet |]. split; [exact Hi |].
  destruct (proj2 (proj2 (gauss2d_set_range_error_iff [gmix.gauss2d_zero]
                            0 1 0 0 2 1 2)) Hdet Hi) as (Hr & Hv & _).
  split; [exact Hr | exact Hv].
Defined.

(** ** The fast exponential (C3) *)

Lemma int64_nonpos (y : R) : y < 0 -> gmix.int64 y = Zceil y.
Proof.
  intros Hy. unfold gmix.int64.
  destruct (Rle_dec 0 y) as [H | H]; [lra | reflexivity].
Qed.

Lemma exp3_lookup_at (k : Z) :
  (0 <= k <= 26)%Z ->
  gmix.getitemZ gmix._exp3_lookup k = inr (exp (IZR (k - 26))).
Proof.
  intros Hk. unfold gmix.getitemZ, gmix.getitem, gmix._exp3_lookup.
  destruct (decide (k < 0)%Z) as [Hneg | _]; [lia |].
  cbn [gmix.make_exp_lookup snd].
  rewrite list_lookup_fmap.
  rewrite (lookup_seqZ_lt (-26) (0 - -26 + 1) (Z.to_nat k)) by lia.
  cbn [fmap option_fmap option_map].
  do 3 f_equal. lia.
Qed.

Lemma exp3_value (x : R) :
  -26.5 < x <= 0 ->
  gmix.exp3 (-26) gmix._exp3_lookup x
  = inr (exp (IZR (Zceil (x - 0.5)))
         * ((6 + (x - IZR (Zceil (x - 0.5)))
                 * (6 + (x - IZR (Zceil (x - 0.5)))
                        * (3 + (x - IZR (Zceil (x - 0.5))))))
            * 0.16666666)).
Proof.
  intros Hx. unfold gmix.exp3. rewrite int64_nonpos by lra.
  pose proof (Zceil_bound (x - 0.5)) as Hb.
  rewrite exp3_lookup_at.
  - do 3 f_equal. f_equal. lia.
  - split.
    + assert (IZR (-27) < IZR (Zceil (x - 0.5))) as Hlt by lra.
      apply lt_IZR in Hlt. lia.
    + assert (IZR (Zceil (x - 0.5)) < IZR 1) as Hlt by lra.
      apply lt_IZR in Hlt. lia.
Qed.

(** Inside the kernels the exponential is only asked for [chi2] in
    [[0, 25)], that is for [x = -0.5*chi2] in [(-12.5, 0]], where the table
    covers it. *)
Lemma gauss_eval_fast3_in_domain (g : gmix.gauss2d) (u v : R) :
  let chi2 := gmix.dcc g * (u * u) + gmix.drr g * (v * v)
              - 2 * gmix.drc g * (u * v) in
  0 <= chi2 < 25 ->
  exists expval : R,
    gmix.exp3 (-26) gmix._exp3_lookup (-0.5 * chi2) = inr expval /\
    gmix.gauss_eval_fast3 (-26) gmix._exp3_lookup g u v
    = inr (gmix.pnorm g * expval).
Proof.
  intros chi2 Hchi. unfold gmix.gauss_eval_fast3. fold chi2.
  destruct (Rlt_dec chi2 25) as [_ | N]; [| lra].
  destruct (Rge_dec chi2 0) as [_ | N]; [| lra].
  rewrite exp3_value by lra.
  eexists. split; reflexivity.
Qed.

(** C3, as the code has it.  For [-26.5 < x <= 0] (the kernels only pass
    [-12.5 < x <= 0]) the bin [ival = int64(x - 0.5)] is [x - 0.5] rounded
    toward zero, which for these arguments is its ceiling, so [x] rounded to
    the nearest integer; [f = x - ival] lies in (-1/2, 1/2]; the table index
    [ival - i0], with [i0 = -26] the first tabulated exponent, is inside the
    table; and the value is
    [table[index] * (6 + f*(6 + f*(3 + f))) * 0.16666666], where
    [table[index] = exp(ival)]. *)
Theorem exp3_nearest_bin :
  forall x : R,
    -26.5 < x <= 0 ->
    let ival := gmix.int64 (x - 0.5) in
    let f := x - IZR ival in
    ival = Zceil (x - 0.5) /\
    -0.5 < f <= 0.5 /\
    gmix._exp3_ivals !! 0%nat = Some (-26)%Z /\
    (0 <= ival - -26 <= 26)%Z /\
    gmix.getitemZ gmix._exp3_lookup (ival - -26) = inr (exp (IZR ival)) /\
    gmix.exp3 (-26) gmix._exp3_lookup x
      = inr (exp (IZR ival) * ((6 + f * (6 + f * (3 + f))) * 0.16666666)).
Proof.
  intros x Hx ival f.
  assert (Hival : ival = Zceil (x - 0.5)).
  { subst ival. apply int64_nonpos. lra. }
  pose proof (Zceil_bound (x - 0.5)) as Hb. rewrite <- Hival in Hb.
  assert (Hrange : (0 <= ival - -26 <= 26)%Z).
  { split.
    - assert (-27 < IZR ival) by lra.
      assert (IZR (-27) < IZR ival) as Hlt by lra.
      apply lt_IZR in Hlt. lia.
    - assert (IZR ival < IZR 1) as Hlt by lra.
      apply lt_IZR in Hlt. lia. }
  assert (Hget : gmix.getitemZ gmix._exp3_lookup (ival - -26)
                 = inr (exp (IZR ival))).
  { rewrite exp3_lookup_at by exact Hrange. do 3 f_equal. lia. }
  split; [exact Hival |].
  split; [subst f; lra |].
  split; [reflexivity |].
  split; [exact Hrange |].
  split; [exact Hget |].
  unfold gmix.exp3. fold ival. rewrite Hget. reflexivity.
Qed.

Lemma exp3_nearest_bin_witness :
  -26.5 < -0.2 <= 0 /\
  gmix.exp3 (-26) gmix._exp3_lookup (-0.2)
    = inr (exp (IZR (gmix.int64 (-0.2 - 0.5)))
           * ((6 + (-0.2 - IZR (gmix.int64 (-0.2 - 0.5)))
                   * (6 + (-0.2 - IZR (gmix.int64 (-0.2 - 0.5)))
                          * (3 + (-0.2 - IZR (gmix.int64 (-0.2 - 0.5))))))
              * 0.16666666)).
Proof.
  assert (H : -26.5 < -0.2 <= 0) by lra.
  split; [exact H |].
  exact (proj2 (proj2 (proj2 (proj2 (proj2 (exp3_nearest_bin (-0.2) H)))))).
Defined.

(** C3 as worded fails.  At [x = -0.2] (that is [chi2 = 0.4]) the code takes
    [ival = int64(-0.7) = 0], not [floor(-0.7) = -1]; [f = x - ival = -0.2]
    is negative, so outside [0,1); and the value returned is
    [table[26] * (6 + f*(6 + f*(3 + f))) * 0.16666666] with [f = -0.2],
    the table entry being that of exponent [0]. *)
Lemma exp3_floor_counterexample :
  gmix.int64 (-0.2 - 0.5) = 0%Z /\
  Zfloor (-0.2 - 0.5) = (-1)%Z /\
  -0.2 - IZR (gmix.int64 (-0.2 - 0.5)) < 0 /\
  gmix.exp3 (-26) gmix._exp3_lookup (-0.2)
    = inr (exp 0 * ((6 + -0.2 * (6 + -0.2 * (3 + -0.2))) * 0.16666666)).
Proof.
  assert (Hi : gmix.int64 (-0.2 - 0.5) = 0%Z).
  { rewrite int64_nonpos by lra. apply Zceil_eq. lra. }
  split; [exact Hi |].
  split; [apply Zfloor_eq; lra |].
  split; [rewrite Hi; lra |].
  unfold gmix.exp3. rewrite Hi.
  rewrite (exp3_lookup_at (0 - -26)) by lia.
  simpl (IZR (0 - -26 - 26)).
  replace (-0.2 - 0) with (-0.2) by lra. reflexivity.
Qed.

(** ** Convolution (C2) *)

Lemma Rsum_cons (x : R) (l : list R) : Rsum (x :: l) = x + Rsum l.
Proof. reflexivity. Qed.

Lemma Rsum_app (l1 l2 : list R) : Rsum (l1 ++ l2) = Rsum l1 + Rsum l2.
Proof.
  induction l1 as [| x l1 IH]; cbn [app].
  - unfold Rsum at 2. cbn. ring.
  - rewrite !Rsum_cons, IH. ring.
Qed.

Lemma gauss2d_set_ok (self : list gmix.gauss2d) (i : nat)
  (p row col irr irc icc : R) :
  0 < irr * icc - irc * irc ->
  (i < length self)%nat ->
  gmix._gauss2d_set i p row col irr irc icc self
  = (inr tt, <[i := stored p row col irr irc icc]> self).
Proof.
  intros Hdet Hi. unfold gmix._gauss2d_set, gmix.store, stored.
  destruct (Rle_dec (irr * icc - irc * irc) 0) as [H | _]; [lra |].
  destruct (decide (i < length self)%nat) as [_ | H]; [reflexivity | lia].
Qed.

Lemma gauss2d_set_raises (self : list gmix.gauss2d) (i : nat)
  (p row col irr irc icc : R) :
  irr * icc - irc * irc <= 0 ->
  gmix._gauss2d_set i p row col irr irc icc self = (inl GMixRangeError, self).
Proof.
  intros Hdet. unfold gmix._gauss2d_set.
  destruct (Rle_dec (irr * icc - irc * irc) 0) as [_ | H]; [reflexivity | lra].
Qed.

Lemma fold_cen_sums (l : list gmix.gauss2d) (a b c : R) :
  fold_left (fun '(row_, col_, psum) g =>
               let p_ := gmix.p g in
               (row_ + p_ * gmix.row g, col_ + p_ * gmix.col g, psum + p_))
            l (a, b, c)
  = (a + rowsum_of l, b + colsum_of l, c + psum_of l).
Proof.
  revert a b c. induction l as [| g l IH]; intros a b c.
  - unfold rowsum_of, colsum_of, psum_of. cbn. f_equal; [f_equal |]; lra.
  - cbn [fold_left]. rewrite IH.
    unfold rowsum_of, colsum_of, psum_of.
    rewrite !fmap_cons, !Rsum_cons.
    f_equal; [f_equal |]; ring.
Qed.

Lemma get_cen_sums (l : list gmix.gauss2d) :
  gmix._get_cen l = cen_of_sums (rowsum_of l) (colsum_of l) (psum_of l).
Proof.
  unfold gmix._get_cen. rewrite fold_cen_sums.
  rewrite !Rplus_0_l. reflexivity.
Qed.

Lemma get_cen_ok (l : list gmix.gauss2d) :
  psum_of l <> 0 ->
  gmix._get_cen l
  = inr (rowsum_of l / psum_of l, colsum_of l / psum_of l, psum_of l).
Proof.
  intros H. rewrite get_cen_sums. unfold cen_of_sums, fdiv.
  destruct (Req_dec_T (psum_of l) 0) as [E | _]; [contradiction | reflexivity].
Qed.

Lemma convolve_fill_loops (obj psf : list gmix.gauss2d) :
  gmix._convolve_fill obj psf
  = (let* (rc, cc, ps) := lift (gmix._get_cen psf) in
     let* ip := lift (fdiv 1 ps) in
     let* _ := foldM (conv_outer rc cc ip psf) obj 0%nat in
     ret tt).
Proof. reflexivity. Qed.

Lemma insert_middle {A : Type} (pre : list A) (m v : A) (rest : list A) :
  <[length pre := v]> (pre ++ m :: rest) = pre ++ v :: rest.
Proof.
  rewrite insert_app_r_alt by lia. rewrite Nat.sub_diag. reflexivity.
Qed.

Lemma conv_inner_loop (rc cc ip : R) (g : gmix.gauss2d)
  (hs : list gmix.gauss2d) :
  forall pre mid post : list gmix.gauss2d,
    length mid = length hs ->
    Forall (fun h => 0 < pair_det g h) hs ->
    foldM (conv_inner rc cc ip g) hs (length pre) (pre ++ mid ++ post)
    = (inr (length pre + length hs)%nat,
       pre ++ (conv_pair rc cc ip g <$> hs) ++ post).
Proof.
  induction hs as [| h hs IH]; intros pre mid post Hlen Hall.
  - destruct mid; [| discriminate]. cbn. unfold ret.
    rewrite Nat.add_0_r. reflexivity.
  - destruct mid as [| m mid]; [discriminate |].
    apply Forall_cons in Hall as [Hh Hall].
    cbn [foldM]. unfold bind at 1, conv_inner at 1. cbv zeta.
    unfold bind at 1.
    rewrite gauss2d_set_ok.
    + unfold ret at 1. cbn [app]. rewrite insert_middle.
      fold (conv_pair rc cc ip g h).
      replace (S (length pre))
        with (length (pre ++ [conv_pair rc cc ip g h]))
        by (rewrite length_app; cbn; lia).
      replace (pre ++ conv_pair rc cc ip g h :: mid ++ post)
        with ((pre ++ [conv_pair rc cc ip g h]) ++ mid ++ post)
        by (rewrite <- app_assoc; reflexivity).
      rewrite IH by (cbn in Hlen; first [lia | assumption]).
      rewrite length_app, <- app_assoc. cbn [length app fmap list_fmap].
      do 2 f_equal. lia.
    + exact Hh.
    + rewrite length_app. cbn. lia.
Qed.

Lemma conv_outer_loop (rc cc ip : R) (hs gs : list gmix.gauss2d) :
  forall pre mid post : list gmix.gauss2d,
    length mid = (length gs * length hs)%nat ->
    Forall (fun g => Forall (fun h => 0 < pair_det g h) hs) gs ->
    foldM (conv_outer rc cc ip hs) gs (length pre) (pre ++ mid ++ post)
    = (inr (length pre + length gs * length hs)%nat,
       pre ++ conv_list rc cc ip gs hs ++ post).
Proof.
  induction gs as [| g gs IH]; intros pre mid post Hlen Hall.
  - destruct mid; [| discriminate]. cbn. unfold ret.
    rewrite Nat.add_0_r. reflexivity.
  - apply Forall_cons in Hall as [Hg Hall].
    cbn [length Nat.mul] in Hlen.
    cbn [foldM]. unfold bind at 1, conv_outer at 1.
    rewrite <- (take_drop (length hs) mid), <- app_assoc.
    rewrite (conv_inner_loop rc cc ip g hs pre _ _)
      by (try exact Hg; rewrite length_take; lia).
    replace (length pre + length hs)%nat
      with (length (pre ++ (conv_pair rc cc ip g <$> hs)))
      by (rewrite length_app, length_fmap; reflexivity).
    rewrite (app_assoc pre).
    rewrite IH by (try exact Hall; rewrite length_drop; lia).
    rewrite length_app, length_fmap, <- app_assoc.
    unfold conv_list. cbn [flat_map length Nat.mul].
    rewrite <- app_assoc.
    do 2 f_equal. lia.
Qed.

Lemma convolve_returns (self psf : list gmix.gauss2d) :
  psum_of psf <> 0 ->
  Forall (fun g => Forall (fun h => 0 < pair_det g h) psf) self ->
  gmix.convolve self psf
  = inr (conv_list (rowsum_of psf / psum_of psf) (colsum_of psf / psum_of psf)
           (1 / psum_of psf) self psf).
Proof.
  intros Hflux Hdet. unfold gmix.convolve, gmix.convolve_fill.
  destruct (decide ((length self * length psf)%nat
                    <> length (gmix.GMix_new (length self * length psf))))
    as [Hne | _].
  { exfalso. apply Hne. unfold gmix.GMix_new. now rewrite length_replicate. }
  rewrite convolve_fill_loops. unfold bind at 1, lift at 1.
  rewrite get_cen_ok by exact Hflux.
  unfold bind at 1, lift at 1, fdiv.
  destruct (Req_dec_T (psum_of psf) 0) as [E | _]; [contradiction |].
  unfold bind at 1.
  pose proof (conv_outer_loop (rowsum_of psf / psum_of psf)
                (colsum_of psf / psum_of psf) (1 / psum_of psf) psf self
                [] (gmix.GMix_new (length self * length psf)) []) as Hloop.
  cbn [app length Nat.add] in Hloop. rewrite !app_nil_r in Hloop.
  rewrite Hloop; [reflexivity | | exact Hdet].
  unfold gmix.GMix_new. now rewrite length_replicate.
Qed.

Lemma conv_list_length (rc cc ip : R) (gs hs : list gmix.gauss2d) :
  length (conv_list rc cc ip gs hs) = (length gs * length hs)%nat.
Proof.
  induction gs as [| g gs IH]; [reflexivity |].
  unfold conv_list in *. cbn [flat_map length Nat.mul].
  rewrite length_app, length_fmap, IH. reflexivity.
Qed.

Lemma conv_list_lookup (rc cc ip : R) (hs : list gmix.gauss2d) :
  forall (gs : list gmix.gauss2d) (i j : nat) (g h : gmix.gauss2d),
    gs !! i = Some g -> hs !! j = Some h ->
    conv_list rc cc ip gs hs !! (i * length hs + j)%nat
    = Some (conv_pair rc cc ip g h).
Proof.
  induction gs as [| g0 gs IH]; intros i j g h Hi Hj; [discriminate |].
  unfold conv_list in *. cbn [flat_map].
  destruct i as [| i].
  - cbn in Hi. injection Hi as ->. cbn [Nat.mul Nat.add].
    rewrite lookup_app_l
      by (rewrite length_fmap; eapply lookup_lt_Some; exact Hj).
    rewrite list_lookup_fmap, Hj. reflexivity.
  - cbn in Hi.
    replace (S i * length hs + j)%nat
      with (length (conv_pair rc cc ip g0 <$> hs) + (i * length hs + j))%nat
      by (rewrite length_fmap; lia).
    rewrite lookup_app_r by lia.
    replace (length (conv_pair rc cc ip g0 <$> hs) + (i * length hs + j)
             - length (conv_pair rc cc ip g0 <$> hs))%nat
      with (i * length hs + j)%nat by lia.
    now apply IH.
Qed.

Lemma conv_row_sums (rc cc ip : R) (g : gmix.gauss2d)
  (hs : list gmix.gauss2d) :
  psum_of (conv_pair rc cc ip g <$> hs) = gmix.p g * ip * psum_of hs /\
  rowsum_of (conv_pair rc cc ip g <$> hs)
    = gmix.p g * ip
      * (gmix.row g * psum_of hs + rowsum_of hs - rc * psum_of hs) /\
  colsum_of (conv_pair rc cc ip g <$> hs)
    = gmix.p g * ip
      * (gmix.col g * psum_of hs + colsum_of hs - cc * psum_of hs).
Proof.
  unfold psum_of, rowsum_of, colsum_of.
  induction hs as [| h hs (IHp & IHr & IHc)].
  - cbn. repeat split; ring.
  - rewrite !fmap_cons, !Rsum_cons, IHp, IHr, IHc.
    cbn [conv_pair stored gmix.p gmix.row gmix.col].
    repeat split; ring.
Qed.

Lemma conv_list_sums (rc cc ip : R) (gs hs : list gmix.gauss2d) :
  psum_of (conv_list rc cc ip gs hs) = ip * psum_of hs * psum_of gs /\
  rowsum_of (conv_list rc cc ip gs hs)
    = ip * (psum_of hs * rowsum_of gs
            + psum_of gs * (rowsum_of hs - rc * psum_of hs)) /\
  colsum_of (conv_list rc cc ip gs hs)
    = ip * (psum_of hs * colsum_of gs
            + psum_of gs * (colsum_of hs - cc * psum_of hs)).
Proof.
  induction gs as [| g gs (IHp & IHr & IHc)].
  - unfold psum_of, rowsum_of, colsum_of. cbn. repeat split; ring.
  - destruct (conv_row_sums rc cc ip g hs) as (Hp & Hr & Hc).
    unfold conv_list in *. cbn [flat_map].
    unfold psum_of, rowsum_of, colsum_of in *.
    rewrite !fmap_app, !Rsum_app, !fmap_cons, !Rsum_cons.
    rewrite IHp, IHr, IHc, Hp, Hr, Hc.
    repeat split; ring.
Qed.

(** Positive-definite moments add up to positive-definite moments. *)
Lemma pair_det_pos (g h : gmix.gauss2d) :
  0 < gmix.irr g -> 0 < gmix.irr g * gmix.icc g - gmix.irc g * gmix.irc g ->
  0 < gmix.irr h -> 0 < gmix.irr h * gmix.icc h - gmix.irc h * gmix.irc h ->
  0 < pair_det g h.
Proof.
  unfold pair_det.
  generalize (gmix.irr g) (gmix.irc g) (gmix.icc g)
             (gmix.irr h) (gmix.irc h) (gmix.icc h).
  intros a b c a' b' c' Ha Hd Ha' Hd'.
  assert (Hsq : 0 <= (a * b' - a' * b) * (a * b' - a' * b))
    by apply (Rle_0_sqr (a * b' - a' * b)).
  assert (H1 : 0 < a * a) by (apply Rmult_lt_0_compat; assumption).
  assert (H2 : 0 < a' * a') by (apply Rmult_lt_0_compat; assumption).
  assert (H3 : 0 < a * a * (a' * c' - b' * b'))
    by (apply Rmult_lt_0_compat; assumption).
  assert (H4 : 0 < a' * a' * (a * c - b * b))
    by (apply Rmult_lt_0_compat; assumption).
  assert (Haa : 0 < a * a') by (apply Rmult_lt_0_compat; assumption).
  assert (Hmix : 0 < a * a' * (a * c' + a' * c - 2 * b * b')).
  { replace (a * a' * (a * c' + a' * c - 2 * b * b'))
      with (a * a * (a' * c' - b' * b') + a' * a' * (a * c - b * b)
            + (a * b' - a' * b) * (a * b' - a' * b)) by ring.
    lra. }
  assert (Hpos : 0 < a * c' + a' * c - 2 * b * b').
  { destruct (Rlt_dec 0 (a * c' + a' * c - 2 * b * b')) as [K | K];
      [exact K | exfalso].
    assert (Hle : a * c' + a' * c - 2 * b * b' <= 0) by lra.
    assert (a * a' * (a * c' + a' * c - 2 * b * b') <= 0).
    { rewrite <- (Rmult_0_r (a * a')). apply Rmult_le_compat_l; lra. }
    lra. }
  replace ((a + a') * (c + c') - (b + b') * (b + b'))
    with ((a * c - b * b) + (a' * c' - b' * b')
          + (a * c' + a' * c - 2 * b * b')) by ring.
  lra.
Qed.

Lemma pair_dets_of_positive_definite (self psf : list gmix.gauss2d) :
  Forall positive_definite self -> Forall positive_definite psf ->
  Forall (fun g => Forall (fun h => 0 < pair_det g h) psf) self.
Proof.
  intros Hs Hp. apply Forall_forall. intros g Hg.
  apply Forall_forall. intros h Hh.
  rewrite Forall_forall in Hs, Hp.
  destruct (Hs g Hg) as [Hg1 Hg2]. destruct (Hp h Hh) as [Hh1 Hh2].
  now apply pair_det_pos.
Qed.

(** C2, as the code has it.  Whenever the psf's total flux is not zero and
    the summed moments of every (object, psf) pair have a positive
    determinant (as they do when every component of both mixtures has
    [irr > 0] besides [det > 0], see [pair_det_pos]), [self.convolve(psf)]
    returns a new mixture of exactly [len(self) * len(psf)] components; the
    component of the pair [(i,j)], at position [i*len(psf) + j], has
    [p = p_i * p_j / sum(p_psf)], [row = row_i + (row_j - cen_row_psf)]
    with [cen_row_psf] the row [_get_cen(psf)] returns (and likewise
    [col]), and [irr], [irc], [icc] the sums of the two components'
    moments; and the flux-weighted centroid of the result is that of
    [self], wherever the psf's centroid lies. *)
Theorem convolve_components_and_centroid :
  forall self psf : list gmix.gauss2d,
    psum_of psf <> 0 ->
    Forall (fun g => Forall (fun h => 0 < pair_det g h) psf) self ->
    exists (out : list gmix.gauss2d) (cen_row_psf cen_col_psf : R),
      gmix.convolve self psf = inr out /\
      length out = (length self * length psf)%nat /\
      gmix._get_cen psf = inr (cen_row_psf, cen_col_psf, psum_of psf) /\
      cen_row_psf = rowsum_of psf / psum_of psf /\
      cen_col_psf = colsum_of psf / psum_of psf /\
      (forall (i j : nat) (g h : gmix.gauss2d),
          self !! i = Some g -> psf !! j = Some h ->
          exists c : gmix.gauss2d,
            out !! (i * length psf + j)%nat = Some c /\
            gmix.p c = gmix.p g * gmix.p h / psum_of psf /\
            gmix.row c = gmix.row g + (gmix.row h - cen_row_psf) /\
            gmix.col c = gmix.col g + (gmix.col h - cen_col_psf) /\
            gmix.irr c = gmix.irr g + gmix.irr h /\
            gmix.irc c = gmix.irc g + gmix.irc h /\
            gmix.icc c = gmix.icc g + gmix.icc h) /\
      gmix.get_cen out = gmix.get_cen self.
Proof.
  intros self psf Hflux Hdet.
  set (rc := rowsum_of psf / psum_of psf).
  set (cc := colsum_of psf / psum_of psf).
  exists (conv_list rc cc (1 / psum_of psf) self psf), rc, cc.
  split; [apply convolve_returns; assumption |].
  split; [apply conv_list_length |].
  split; [apply get_cen_ok; exact Hflux |].
  split; [reflexivity |]. split; [reflexivity |].
  split.
  - intros i j g h Hi Hj.
    exists (conv_pair rc cc (1 / psum_of psf) g h).
    split; [now apply conv_list_lookup |].
    cbn [conv_pair stored gmix.p gmix.row gmix.col gmix.irr gmix.irc gmix.icc].
    repeat split. unfold Rdiv. ring.
  - unfold gmix.get_cen. rewrite !get_cen_sums.
    destruct (conv_list_sums rc cc (1 / psum_of psf) self psf)
      as (Hp & Hr & Hc).
    rewrite Hp, Hr, Hc.
    replace (1 / psum_of psf * psum_of psf * psum_of self)
      with (psum_of self) by (field; exact Hflux).
    replace (1 / psum_of psf
             * (psum_of psf * rowsum_of self
                + psum_of self * (rowsum_of psf - rc * psum_of psf)))
      with (rowsum_of self) by (subst rc; field; exact Hflux).
    replace (1 / psum_of psf
             * (psum_of psf * colsum_of self
                + psum_of self * (colsum_of psf - cc * psum_of psf)))
      with (colsum_of self) by (subst cc; field; exact Hflux).
    reflexivity.
Qed.

Lemma GMix_of_pars_one (p row col irr irc icc : R) :
  0 < irr * icc - irc * irc ->
  gmix.GMix_of_pars [p; row; col; irr; irc; icc]
  = inr [stored p row col irr irc icc].
Proof.
  intros Hdet. unfold gmix.GMix_of_pars. cbn [length].
  case_decide as H; [exfalso; apply H; reflexivity |].
  change (6 / 6)%nat with 1%nat.
  unfold gmix.fill. cbn [gmix.GMix_new replicate length].
  case_decide as H2; [exfalso; apply H2; reflexivity |].
  unfold gmix._fill_full. cbn [length seq foldM].
  unfold bind, lift, ret, gmix.getitem. cbn -[gmix._gauss2d_set].
  rewrite gauss2d_set_ok by (cbn; lia || lra).
  reflexivity.
Qed.

Lemma convolve_components_and_centroid_witness :
  exists out : list gmix.gauss2d,
    gmix.convolve [unit_gauss] [unit_gauss] = inr out /\
    length out = 1%nat /\
    gmix.get_cen out = gmix.get_cen [unit_gauss].
Proof.
  assert (Hflux : psum_of [unit_gauss] <> 0).
  { unfold psum_of, Rsum. cbn. lra. }
  assert (Hdet : Forall (fun g => Forall (fun h => 0 < pair_det g h)
                                    [unit_gauss]) [unit_gauss]).
  { repeat constructor. unfold pair_det. cbn. lra. }
  destruct (convolve_components_and_centroid [unit_gauss] [unit_gauss]
              Hflux Hdet) as (out & rc & cc & Hout & Hlen & _ & _ & _ & _ & Hcen).
  exists out. repeat split; assumption.
Defined.

(** C2 as worded fails: validity ([det > 0] in every component) does not
    make the convolution return.  [GMix(pars=[1,0,0,1,0,1])] and
    [GMix(pars=[1,0,0,-1,0,-1])] are both accepted, each with [det = 1]
    and with total flux [1]; convolving the first with the second sums the
    moments to [0,0,0] and [_gauss2d_set] raises the range error. *)
Lemma convolve_valid_counterexample :
  gmix.GMix_of_pars [1; 0; 0; 1; 0; 1] = inr [unit_gauss] /\
  gmix.GMix_of_pars [1; 0; 0; -1; 0; -1] = inr [stored 1 0 0 (-1) 0 (-1)] /\
  gmix.det unit_gauss = 1 /\
  gmix.det (stored 1 0 0 (-1) 0 (-1)) = 1 /\
  gmix.get_psum [stored 1 0 0 (-1) 0 (-1)] = 1 /\
  gmix.convolve [unit_gauss] [stored 1 0 0 (-1) 0 (-1)]
    = inl GMixRangeError.
Proof.
  split; [apply GMix_of_pars_one; lra |].
  split; [apply GMix_of_pars_one; lra |].
  split; [cbn; lra |].
  split; [cbn; lra |].
  split; [cbn; lra |].
  unfold gmix.convolve, gmix.convolve_fill.
  cbn [length Nat.mul Nat.add gmix.GMix_new replicate].
  case_decide as H; [exfalso; apply H; reflexivity |].
  rewrite convolve_fill_loops. unfold bind at 1, lift at 1.
  rewrite get_cen_ok by (unfold psum_of, Rsum; cbn; lra).
  unfold bind at 1, lift at 1, fdiv.
  destruct (Req_dec_T (psum_of [stored 1 0 0 (-1) 0 (-1)]) 0) as [E | _].
  { exfalso. revert E. unfold psum_of, Rsum. cbn. lra. }
  unfold bind at 1. cbn [foldM]. unfold bind at 1, conv_outer at 1.
  cbn [foldM]. unfold bind at 1, conv_inner at 1. cbv zeta.
  unfold bind at 1.
  rewrite gauss2d_set_raises by (cbn; lra).
  reflexivity.
Qed.

(** ** The Jacobian's origin (C7) *)

(** [set_cen] writes the origin into [_data] and leaves the four partial
    derivatives, [det] and [sdet] as they were; [get_cen], which reads the
    attributes [self.row0] and [self.col0], does not see the change, while
    [copy] does. *)
Lemma set_cen_writes_data_only (j : jacobian.Jacobian) (row0' col0' : R) :
  let j' := jacobian.set_cen j row0' col0' in
  jacobian.get_cen j' = jacobian.get_cen j /\
  jacobian.row0 (jacobian._data j') = row0' /\
  jacobian.col0 (jacobian._data j') = col0' /\
  jacobian.get_cen (jacobian.copy j') = (row0', col0') /\
  jacobian.dudrow (jacobian._data j') = jacobian.dudrow (jacobian._data j) /\
  jacobian.dudcol (jacobian._data j') = jacobian.dudcol (jacobian._data j) /\
  jacobian.dvdrow (jacobian._data j') = jacobian.dvdrow (jacobian._data j) /\
  jacobian.dvdcol (jacobian._data j') = jacobian.dvdcol (jacobian._data j) /\
  jacobian.get_det j' = jacobian.get_det j /\
  jacobian.get_scale j' = jacobian.get_scale j.
Proof. cbn. repeat split; reflexivity. Qed.

(** C7 at a failing input.  After [j = Jacobian(0, 0, 1, 0, 0, 1)] and
    [j.set_cen(1, 2)], [j.get_cen()] still returns [(0, 0)], although
    [j._data] holds the origin [(1, 2)] and [j.copy().get_cen()] returns
    [(1, 2)]; the determinant and the scale are unchanged. *)
Theorem set_cen_then_get_cen_is_stale :
  let j := jacobian.__init__ 0 0 1 0 0 1 in
  let j' := jacobian.set_cen j 1 2 in
  jacobian.get_cen j' = (0, 0) /\
  jacobian.row0 (jacobian._data j') = 1 /\
  jacobian.col0 (jacobian._data j') = 2 /\
  jacobian.get_cen (jacobian.copy j') = (1, 2) /\
  jacobian.get_det j' = jacobian.get_det j /\
  jacobian.get_scale j' = jacobian.get_scale j.
Proof. cbn. repeat split; reflexivity. Qed.

(** ** Rebuilding a mixture from its own parameters *)

Lemma fill_full_loop_body (pars : list R) (self : list gmix.gauss2d) :
  gmix._fill_full pars self
  = (let* _ := foldM (fill_body pars) (seq 0 (length self)) tt in ret tt) self.
Proof. reflexivity. Qed.

Lemma full_pars_length (gs : list gmix.gauss2d) :
  length (gmix.get_full_pars gs) = (length gs * 6)%nat.
Proof.
  induction gs as [| g gs IH]; [reflexivity |].
  unfold gmix.get_full_pars in *. cbn [flat_map length app]. rewrite IH. lia.
Qed.

Lemma full_pars_lookup (gs : list gmix.gauss2d) :
  forall (i k : nat) (g : gmix.gauss2d),
    gs !! i = Some g -> (k < 6)%nat ->
    gmix.get_full_pars gs !! (i * 6 + k)%nat
    = [gmix.p g; gmix.row g; gmix.col g; gmix.irr g; gmix.irc g; gmix.icc g]
        !! k.
Proof.
  induction gs as [| g0 gs IH]; intros i k g Hi Hk; [discriminate |].
  change (gmix.get_full_pars (g0 :: gs))
    with ([gmix.p g0; gmix.row g0; gmix.col g0;
           gmix.irr g0; gmix.irc g0; gmix.icc g0] ++ gmix.get_full_pars gs).
  destruct i as [| i].
  - cbn in Hi. injection Hi as ->. cbn [Nat.mul Nat.add].
    apply lookup_app_l. cbn. lia.
  - cbn in Hi.
    replace (S i * 6 + k)%nat with (6 + (i * 6 + k))%nat by lia.
    rewrite lookup_app_r by (cbn; lia).
    replace (6 + (i * 6 + k)
             - length [gmix.p g0; gmix.row g0; gmix.col g0;
                       gmix.irr g0; gmix.irc g0; gmix.icc g0])%nat
      with (i * 6 + k)%nat by (cbn; lia).
    now apply IH.
Qed.

Lemma fill_body_ok (gs self : list gmix.gauss2d) (i : nat) (g : gmix.gauss2d) :
  gs !! i = Some g -> 0 < moments_det g -> (i < length self)%nat ->
  fill_body (gmix.get_full_pars gs) tt i self
  = (inr tt, <[i := refresh g]> self).
Proof.
  intros Hi Hdet Hlen. unfold fill_body, bind, lift, gmix.getitem. cbv zeta.
  rewrite !(full_pars_lookup gs i _ g Hi) by lia. cbn [lookup list_lookup].
  rewrite gauss2d_set_ok by assumption. reflexivity.
Qed.

Lemma fill_full_loop (gs : list gmix.gauss2d) (n : nat) :
  forall (k : nat) (pre mid post : list gmix.gauss2d),
    length pre = k -> length mid = n ->
    (forall j : nat, (j < n)%nat ->
       exists g, gs !! (k + j)%nat = Some g /\ 0 < moments_det g) ->
    foldM (fill_body (gmix.get_full_pars gs)) (seq k n) tt
      (pre ++ mid ++ post)
    = (inr tt, pre ++ (refresh <$> take n (drop k gs)) ++ post).
Proof.
  induction n as [| n IH]; intros k pre mid post Hpre Hmid Hgs.
  - destruct mid; [| discriminate]. reflexivity.
  - destruct mid as [| m mid]; [discriminate |].
    destruct (Hgs 0%nat ltac:(lia)) as (g & Hg & Hdet).
    rewrite Nat.add_0_r in Hg.
    cbn [seq foldM]. unfold bind at 1.
    rewrite (fill_body_ok gs _ k g Hg Hdet)
      by (rewrite length_app; cbn; lia).
    cbn [app]. rewrite <- Hpre, insert_middle.
    replace (pre ++ refresh g :: mid ++ post)
      with ((pre ++ [refresh g]) ++ mid ++ post)
      by (rewrite <- app_assoc; reflexivity).
    rewrite (IH (S (length pre)) (pre ++ [refresh g]) mid post).
    + rewrite (drop_S gs g (length pre)) by (rewrite Hpre; exact Hg).
      cbn [take fmap list_fmap]. rewrite <- app_assoc. reflexivity.
    + rewrite length_app. cbn. lia.
    + cbn in Hmid. lia.
    + intros j Hj. destruct (Hgs (S j) ltac:(lia)) as (g' & Hg' & Hd').
      exists g'. split; [| exact Hd'].
      rewrite <- Hg'. f_equal. lia.
Qed.

(** A mixture whose components all have moments of positive determinant
    is rebuilt from its own parameters, component by component. *)
Lemma GMix_of_full_pars (gs : list gmix.gauss2d) :
  Forall (fun g => 0 < moments_det g) gs ->
  gmix.GMix_of_pars (gmix.get_full_pars gs) = inr (refresh <$> gs).
Proof.
  intros Hall.
  assert (Hlen : length (gmix.GMix_new (length gs)) = length gs)
    by (unfold gmix.GMix_new; apply length_replicate).
  unfold gmix.GMix_of_pars. rewrite full_pars_length.
  rewrite Nat.Div0.mod_mul, Nat.div_mul by lia.
  case_decide as H; [contradiction |].
  unfold gmix.fill. rewrite full_pars_length, Hlen.
  case_decide as H'; [contradiction |].
  rewrite fill_full_loop_body. unfold bind at 1. rewrite Hlen.
  pose proof (fill_full_loop gs (length gs) 0 [] (gmix.GMix_new (length gs)) [])
    as Hloop.
  cbn [app] in Hloop. rewrite app_nil_r in Hloop.
  rewrite Hloop.
  - unfold ret. rewrite drop_0, firstn_all, app_nil_r. reflexivity.
  - reflexivity.
  - unfold gmix.GMix_new. now rewrite length_replicate.
  - intros j Hj. cbn [Nat.add].
    destruct (lookup_lt_is_Some_2 gs j Hj) as [g Hg].
    exists g. split; [exact Hg |].
    rewrite Forall_forall in Hall. apply Hall.
    eapply list_elem_of_lookup_2. exact Hg.
Qed.

(** ** The result of [GMixEM.run_em] (C6) *)

(** C6.  Let [em_run] leave the mixture array [gmtmp'].  When it returns
    [(numiter, fdiff)] and the mixture rebuilt from the array's parameters
    is accepted, [run_em] stores the result
    [{flags, numiter, fdiff}] with [flags = EM_MAXITER = 2] if
    [numiter >= maxiter] and [flags = 0] otherwise.  When a range error is
    raised, by [em_run] or while the mixture is rebuilt, the result is
    exactly [{flags: EM_RANGE_ERROR}], with [EM_RANGE_ERROR = 1], and no
    mixture is stored. *)
Theorem run_em_result_flags :
  forall (em_run : list (list R) -> jacobian._jacobian -> R -> R -> R -> Z ->
                   M (list gmix.gauss2d) (Z * xfloat))
         (self : em.GMixEM) (gmix_guess : list gmix.gauss2d)
         (sky_guess : R) (maxiter : Z) (tol : R),
    let out := em_run (em.image (em._obs self))
                 (jacobian._data (em.obs_jacobian (em._obs self)))
                 sky_guess (em._counts self) tol maxiter gmix_guess in
    em.EM_MAXITER = 2%Z /\ em.EM_RANGE_ERROR = 1%Z /\
    (forall (numiter : Z) (fdiff : xfloat) (gm : list gmix.gauss2d),
        out.1 = inr (numiter, fdiff) ->
        gmix.GMix_of_pars (gmix.get_full_pars out.2) = inr gm ->
        exists self' : em.GMixEM,
          em.run_em em_run self gmix_guess sky_guess maxiter tol = inr self' /\
          em._gm self' = Some gm /\
          em.get_result self'
          = Some (<["flags" := PyInt (if decide (numiter >= maxiter)%Z
                                      then 2 else 0)]>
                    (<["numiter" := PyInt numiter]>
                       (<["fdiff" := PyFloat fdiff]> ∅)))) /\
    (out.1 = inl GMixRangeError \/
     (exists nf : Z * xfloat,
         out.1 = inr nf /\
         gmix.GMix_of_pars (gmix.get_full_pars out.2) = inl GMixRangeError) ->
     exists self' : em.GMixEM,
       em.run_em em_run self gmix_guess sky_guess maxiter tol = inr self' /\
       em._gm self' = None /\
       em.get_result self' = Some {["flags" := PyInt 1]}).
Proof.
  intros em_run self gmix_guess sky_guess maxiter tol out.
  split; [reflexivity |]. split; [reflexivity |].
  unfold em.run_em, em.run_em_try. fold out.
  destruct out as [[e | [numiter0 fdiff0]] gmtmp'] eqn:Hout; cbn [fst snd].
  - split; [intros ? ? ? [=] |].
    intros [[= ->] | (nf & [=] & _)].
    eexists. split; [reflexivity |]. split; reflexivity.
  - split.
    + intros numiter fdiff gm [= -> ->] Hgm. rewrite Hgm.
      eexists. split; [reflexivity |]. split; [reflexivity |].
      cbn. unfold em.EM_MAXITER. destruct (decide (numiter >= maxiter)%Z);
        reflexivity.
    + intros [[=] | (nf & _ & Hgm)]. rewrite Hgm.
      eexists. split; [reflexivity |]. split; reflexivity.
Qed.

Lemma run_em_result_flags_witness :
  exists self' : em.GMixEM,
    em.run_em em_run_idle
      (em.__init__ (em.mk_Observation [[1]] (jacobian.UnitJacobian 0 0)))
      [unit_gauss] 0 100 0 = inr self' /\
    em._gm self' = Some [unit_gauss] /\
    em.get_result self'
    = Some (<["flags" := PyInt 0]>
              (<["numiter" := PyInt 5]> (<["fdiff" := PyFloat (Fin 0)]> ∅))).
Proof.
  assert (Hgm : gmix.GMix_of_pars (gmix.get_full_pars [unit_gauss])
                = inr [unit_gauss]).
  { rewrite GMix_of_full_pars; [reflexivity |].
    repeat constructor. unfold moments_det. cbn. lra. }
  destruct (run_em_result_flags em_run_idle
              (em.__init__ (em.mk_Observation [[1]]
                              (jacobian.UnitJacobian 0 0)))
              [unit_gauss] 0 100 0) as (_ & _ & Hok & _).
  specialize (Hok 5%Z (Fin 0) [unit_gauss] eq_refl Hgm).
  destruct Hok as (self' & Hrun & Hg & Hres).
  exists self'. split; [exact Hrun |]. split; [exact Hg |].
  rewrite Hres. destruct (decide (5 >= 100)%Z) as [H | _]; [lia | reflexivity].
Defined.

(** ** Range errors inside [calc_lnprob] (C4) *)

Section calc_lnprob_sentinel.

Variable Obs : Type.
Variable obs_psf_gmix : Obs -> list gmix.gauss2d.
Variable obs_model_image : Obs -> list (list xfloat).
Variables LOWVAL BIGVAL : xfloat.
Variable _get_priors : list xfloat -> result xfloat.
Variable _get_band_pars : list xfloat -> nat -> result (list xfloat).
Variable gmix_fill : list xfloat -> Z -> M (list gmix.gauss2d) unit.
Variable convolve_fill :
  list gmix.gauss2d -> list gmix.gauss2d -> M (list gmix.gauss2d) unit.
Variable get_loglike_robust :
  fitting.GMixObj -> Obs -> xfloat -> Z -> result (xfloat * xfloat * xfloat).
Variable get_loglike_margsky :
  fitting.GMixObj -> Obs -> list (list xfloat) -> Z ->
  result (xfloat * xfloat * xfloat).
Variable get_loglike :
  fitting.GMixObj -> Obs -> Z -> result (xfloat * xfloat * xfloat).

Local Abbreviation fill_gmix_all :=
  (fitting._fill_gmix_all Obs obs_psf_gmix _get_band_pars gmix_fill
     convolve_fill).
Local Abbreviation loglike_loops :=
  (fitting.loglike_loops Obs obs_model_image get_loglike_robust
     get_loglike_margsky get_loglike).
Local Abbreviation calc_lnprob :=
  (fitting.calc_lnprob Obs obs_psf_gmix obs_model_image LOWVAL BIGVAL
     _get_priors _get_band_pars gmix_fill convolve_fill get_loglike_robust
     get_loglike_margsky get_loglike).
Local Abbreviation pipeline_raises :=
  (range_error_in_pipeline Obs obs_psf_gmix obs_model_image _get_priors
     _get_band_pars gmix_fill convolve_fill get_loglike_robust
     get_loglike_margsky get_loglike).


End calc_lnprob_sentinel.


(** ** The Metropolis-Hastings chain (C9, C10) *)

Section MH_chain.

Variable Pars : Type.
Variable zeros_row : Pars.
Variable W : Type.
Variable lnprob_func : Pars -> W -> xfloat * W.
Variable stepper : Pars -> W -> Pars * W.
Variable uniform : W -> xfloat * W.

Local Abbreviation MH := (fitting.MH Pars W).
Local Abbreviation _step := (fitting._step Pars W lnprob_func stepper uniform).
Local Abbreviation steps := (fitting.steps Pars W lnprob_func stepper uniform).
Local Abbreviation _init_data :=
  (fitting._init_data Pars zeros_row W lnprob_func).
Local Abbreviation run_mcmc :=
  (fitting.run_mcmc Pars zeros_row W lnprob_func stepper uniform).

Lemma setitem_ok {A : Type} (a : list A) (i : nat) (x : A) :
  (i < length a)%nat -> fitting.setitem a i x = inr (<[i := x]> a).
Proof.
  intros Hi. unfold fitting.setitem.
  destruct (decide (i < length a)%nat); [reflexivity | lia].
Qed.

Lemma init_data_inv (pars_start : Pars) (nstep : nat) (self : MH) :
  (1 <= nstep)%nat ->
  exists self' : MH,
    _init_data pars_start nstep self = (inr tt, self') /\
    chain_inv nstep pars_start
      (lnprob_func pars_start (fitting._random_state Pars W self)).1 1 self'.
Proof.
  intros Hn. unfold fitting._init_data.
  destruct (lnprob_func pars_start (fitting._random_state Pars W self))
    as [oldlike w].
  rewrite !setitem_ok by (rewrite length_replicate; lia).
  eexists. split; [reflexivity |].
  destruct nstep as [| n]; [lia |].
  constructor; cbn [fitting._trials fitting._loglike fitting._accepted
                    fitting._current fst].
  - now rewrite length_insert, length_replicate.
  - now rewrite length_insert, length_replicate.
  - now rewrite length_insert, length_replicate.
  - reflexivity.
  - reflexivity.
  - reflexivity.
  - reflexivity.
  - cbn. constructor; [lia |].
    apply Forall_forall. intros a Ha.
    apply elem_of_replicate in Ha as [-> _]. lia.
Qed.

Lemma step_inv (nstep : nat) (pars_start : Pars) (like0 : xfloat)
  (current : nat) (self : MH) :
  (1 <= current < nstep)%nat ->
  chain_inv nstep pars_start like0 current self ->
  exists self' : MH,
    _step self = (inr tt, self') /\
    chain_inv nstep pars_start like0 (S current) self'.
Proof.
  intros Hc [Ht Hl Ha Hcur H0 Hl0 Ha0 Hf]. unfold fitting._step.
  rewrite Hcur.
  destruct (stepper _ _) as [newpars w1].
  destruct (lnprob_func newpars w1) as [newlike w2].
  destruct (uniform w2) as [randnum w3].
  set (accept := xf.isfinite newlike && _).
  assert (Hflag : exists flag like row,
             (if accept then (1%Z, newlike, newpars)
              else (0%Z, fitting._oldlike Pars W self,
                    fitting._oldpars Pars W self))
             = (flag, like, row) /\ (0 <= flag)%Z).
  { destruct accept; do 3 eexists; (split; [reflexivity | lia]). }
  destruct Hflag as (flag & like & row & -> & Hflag).
  rewrite !setitem_ok by lia.
  eexists. split; [reflexivity |].
  constructor; cbn [fitting._trials fitting._loglike fitting._accepted
                    fitting._current].
  - now rewrite length_insert.
  - now rewrite length_insert.
  - now rewrite length_insert.
  - reflexivity.
  - rewrite list_lookup_insert_ne by lia. exact H0.
  - rewrite list_lookup_insert_ne by lia. exact Hl0.
  - rewrite list_lookup_insert_ne by lia. exact Ha0.
  - apply Forall_insert; assumption.
Qed.

Lemma steps_inv (nstep : nat) (pars_start : Pars) (like0 : xfloat) (n : nat) :
  forall (current : nat) (self : MH),
    (1 <= current)%nat -> (current + n <= nstep)%nat ->
    chain_inv nstep pars_start like0 current self ->
    exists self' : MH,
      steps n self = (inr tt, self') /\
      chain_inv nstep pars_start like0 (current + n) self'.
Proof.
  induction n as [| n IH]; intros current self Hc Hn Hinv.
  - exists self. split; [reflexivity |]. now rewrite Nat.add_0_r.
  - destruct (step_inv nstep pars_start like0 current self) as (s1 & Hs & H1);
      [lia | exact Hinv |].
    destruct (IH (S current) s1) as (s2 & Hs2 & H2); [lia | lia | exact H1 |].
    exists s2. split.
    + cbn [fitting.steps]. unfold bind. rewrite Hs. exact Hs2.
    + replace (current + S n)%nat with (S current + n)%nat by lia. exact H2.
Qed.

Lemma sumZ_ge_1 (l : list Z) :
  Forall (fun a => (0 <= a)%Z) l -> l !! 0%nat = Some 1%Z ->
  (1 <= fitting.sumZ l)%Z.
Proof.
  intros Hf H0. destruct l as [| a l]; [discriminate |].
  cbn in H0. injection H0 as ->.
  apply Forall_cons in Hf as [_ Hf].
  unfold fitting.sumZ. cbn [foldr].
  assert (0 <= foldr Z.add 0 l)%Z; [| lia].
  induction Hf as [| b l Hb Hf IH]; cbn; lia.
Qed.

(** A run of [nstep >= 1] steps returns, whatever the object held before;
    afterwards the three arrays have [nstep] entries, entry [0] is the
    start, and the acceptance rate is the number of accepted steps, at
    least one, over [nstep]. *)
Lemma run_mcmc_shape (pars_start : Pars) (nstep : nat) (self : MH) :
  (1 <= nstep)%nat ->
  exists (row : Pars) (self' : MH),
    run_mcmc pars_start nstep self = (inr row, self') /\
    chain_inv nstep pars_start
      (lnprob_func pars_start (fitting._random_state Pars W self)).1
      nstep self' /\
    last (fitting._trials Pars W self') = Some row /\
    fitting._arate Pars W self'
    = Fin (IZR (fitting.sumZ (fitting._accepted Pars W self')) / INR nstep) /\
    (1 <= fitting.sumZ (fitting._accepted Pars W self'))%Z.
Proof.
  intros Hn.
  destruct (init_data_inv pars_start nstep self Hn) as (s1 & Hinit & H1).
  destruct (steps_inv nstep pars_start _ (nstep - 1) 1%nat s1 ltac:(lia)
              ltac:(lia) H1) as (s2 & Hsteps & H2).
  replace (1 + (nstep - 1))%nat with nstep in H2 by lia.
  unfold fitting.run_mcmc, bind. rewrite Hinit, Hsteps.
  destruct H2 as [Ht Hl Ha Hcur H0 Hl0 Ha0 Hf].
  destruct (last (fitting._trials Pars W s2)) as [row |] eqn:Hlast.
  2:{ apply last_None in Hlast. rewrite Hlast in Ht. cbn in Ht. lia. }
  exists row. eexists. split; [reflexivity |].
  cbn [fitting._trials fitting._loglike fitting._accepted fitting._current
       fitting._arate].
  split; [constructor; assumption |].
  split; [exact Hlast |].
  split.
  - rewrite Ha. unfold xf.div.
    destruct (Req_dec_T (INR nstep) 0) as [E | _]; [| reflexivity].
    exfalso. apply (not_0_INR nstep); [lia | exact E].
  - now apply sumZ_ge_1.
Qed.

(** One step of the chain, in full: the candidate is kept when its
    log-probability is finite and either above the current one or
    [log(U) < new - old]; otherwise the current parameters and
    log-probability are recorded again, with the flag [0]. *)
Lemma step_records (self : MH) :
  (fitting._current Pars W self < length (fitting._trials Pars W self))%nat ->
  (fitting._current Pars W self < length (fitting._loglike Pars W self))%nat ->
  (fitting._current Pars W self < length (fitting._accepted Pars W self))%nat ->
  let index := fitting._current Pars W self in
  let oldpars := fitting._oldpars Pars W self in
  let oldlike := fitting._oldlike Pars W self in
  let new := stepper oldpars (fitting._random_state Pars W self) in
  let like := lnprob_func new.1 new.2 in
  let rand := uniform like.2 in
  let accept :=
    xf.isfinite like.1
    && (xf.gt like.1 oldlike
        || xf.lt (xf.log rand.1) (xf.sub like.1 oldlike)) in
  exists self' : MH,
    _step self = (inr tt, self') /\
    fitting._trials Pars W self' !! index
    = Some (if accept then new.1 else oldpars) /\
    fitting._loglike Pars W self' !! index
    = Some (if accept then like.1 else oldlike) /\
    fitting._accepted Pars W self' !! index
    = Some (if accept then 1%Z else 0%Z) /\
    fitting._oldpars Pars W self' = (if accept then new.1 else oldpars) /\
    fitting._oldlike Pars W self' = (if accept then like.1 else oldlike) /\
    fitting._current Pars W self' = S index.
Proof.
  intros Ht Hl Ha index oldpars oldlike new like rand accept.
  subst accept rand like new oldlike oldpars index.
  unfold fitting._step.
  destruct (stepper _ _) as [newpars w1]. cbn [fst snd].
  destruct (lnprob_func newpars w1) as [newlike w2]. cbn [fst snd].
  destruct (uniform w2) as [randnum w3]. cbn [fst snd].
  destruct (xf.isfinite newlike && _);
    rewrite !setitem_ok by assumption;
    (eexists; split; [reflexivity |]);
    cbn [fitting._trials fitting._loglike fitting._accepted
         fitting._current fitting._oldpars fitting._oldlike];
    rewrite !list_lookup_insert_eq by assumption;
    repeat split; reflexivity.
Qed.

(** C10.  For [nstep >= 1], [run_mcmc(pars_start, nstep)] returns; the
    first trial row is [pars_start], the first log-probability is
    [lnprob_func(pars_start)], the first accepted flag is [1], and the
    acceptance rate is at least [1/nstep], hence positive. *)
Theorem run_mcmc_first_row_and_rate :
  forall (pars_start : Pars) (nstep : nat) (self : MH),
    (1 <= nstep)%nat ->
    exists (row : Pars) (self' : MH) (arate : R),
      run_mcmc pars_start nstep self = (inr row, self') /\
      fitting.get_trials Pars W self' !! 0%nat = Some pars_start /\
      fitting.get_loglike Pars W self' !! 0%nat
      = Some (lnprob_func pars_start (fitting._random_state Pars W self)).1 /\
      fitting.get_accepted Pars W self' !! 0%nat = Some 1%Z /\
      fitting.get_acceptance_rate Pars W self' = Fin arate /\
      1 / INR nstep <= arate /\ 0 < arate.
Proof.
  intros pars_start nstep self Hn.
  destruct (run_mcmc_shape pars_start nstep self Hn)
    as (row & self' & Hrun & Hinv & _ & Hrate & Hsum).
  destruct Hinv as [Ht Hl Ha Hcur H0 Hl0 Ha0 Hf].
  exists row, self', (IZR (fitting.sumZ (fitting._accepted Pars W self'))
                      / INR nstep).
  assert (Hpos : 0 < INR nstep) by (apply lt_0_INR; lia).
  assert (Hs : 1 <= IZR (fitting.sumZ (fitting._accepted Pars W self')))
    by (apply IZR_le in Hsum; exact Hsum).
  assert (Hinv : 0 < / INR nstep) by (apply Rinv_0_lt_compat; exact Hpos).
  repeat split; try assumption.
  - unfold Rdiv. apply Rmult_le_compat_r; lra.
  - unfold Rdiv. apply Rmult_lt_0_compat; lra.
Qed.

(** C9 on the code.  A second [run_mcmc] on the same object starts from
    fresh arrays: after [run_mcmc(p1, n1)] and [run_mcmc(p2, n2)] the trial
    array has [n2] rows, the first of which is [p2]; the [n1] rows of the
    first run are gone. *)
Theorem run_mcmc_twice_keeps_last_run_only :
  forall (p1 p2 : Pars) (n1 n2 : nat) (self : MH),
    (1 <= n1)%nat -> (1 <= n2)%nat ->
    exists (row1 row2 : Pars) (self1 self2 : MH),
      run_mcmc p1 n1 self = (inr row1, self1) /\
      length (fitting.get_trials Pars W self1) = n1 /\
      run_mcmc p2 n2 self1 = (inr row2, self2) /\
      length (fitting.get_trials Pars W self2) = n2 /\
      length (fitting.get_loglike Pars W self2) = n2 /\
      fitting.get_trials Pars W self2 !! 0%nat = Some p2.
Proof.
  intros p1 p2 n1 n2 self H1 H2.
  destruct (run_mcmc_shape p1 n1 self H1) as (row1 & self1 & Hrun1 & Hinv1 & _).
  destruct (run_mcmc_shape p2 n2 self1 H2) as (row2 & self2 & Hrun2 & Hinv2 & _).
  exists row1, row2, self1, self2.
  destruct Hinv1, Hinv2. repeat split; assumption.
Qed.

End MH_chain.

Lemma run_mcmc_first_row_and_rate_witness :
  (1 <= 2)%nat /\
  exists (row : nat) (self' : fitting.MH nat unit) (arate : R),
    fitting.run_mcmc nat 0%nat unit (fun _ w => (Fin 0, w))
      (fun p w => (S p, w)) (fun w => (Fin 0.5, w)) 7%nat 2 mh_idle
    = (inr row, self') /\
    fitting.get_trials nat unit self' !! 0%nat = Some 7%nat /\
    fitting.get_loglike nat unit self' !! 0%nat = Some (Fin 0) /\
    fitting.get_accepted nat unit self' !! 0%nat = Some 1%Z /\
    fitting.get_acceptance_rate nat unit self' = Fin arate /\
    1 / INR 2 <= arate /\ 0 < arate.
Proof.
  assert (H : (1 <= 2)%nat) by lia.
  split; [exact H |].
  exact (run_mcmc_first_row_and_rate nat 0%nat unit (fun _ w => (Fin 0, w))
           (fun p w => (S p, w)) (fun w => (Fin 0.5, w)) 7%nat 2%nat
           mh_idle H).
Defined.

Lemma run_mcmc_twice_keeps_last_run_only_witness :
  (1 <= 2)%nat /\ (1 <= 3)%nat /\
  exists (row1 row2 : nat) (self1 self2 : fitting.MH nat unit),
    fitting.run_mcmc nat 0%nat unit (fun _ w => (Fin 0, w))
      (fun p w => (S p, w)) (fun w => (Fin 0.5, w)) 7%nat 2 mh_idle
    = (inr row1, self1) /\
    length (fitting.get_trials nat unit self1) = 2%nat /\
    fitting.run_mcmc nat 0%nat unit (fun _ w => (Fin 0, w))
      (fun p w => (S p, w)) (fun w => (Fin 0.5, w)) 9%nat 3 self1
    = (inr row2, self2) /\
    length (fitting.get_trials nat unit self2) = 3%nat /\
    length (fitting.get_loglike nat unit self2) = 3%nat /\
    fitting.get_trials nat unit self2 !! 0%nat = Some 9%nat.
Proof.
  assert (H1 : (1 <= 2)%nat) by lia.
  assert (H2 : (1 <= 3)%nat) by lia.
  split; [exact H1 |]. split; [exact H2 |].
  exact (run_mcmc_twice_keeps_last_run_only nat 0%nat unit
           (fun _ w => (Fin 0, w)) (fun p w => (S p, w))
           (fun w => (Fin 0.5, w)) 7%nat 9%nat 2%nat 3%nat mh_idle H1 H2).
Defined.

(** ** The covariance after a Nelder-Mead run (C8) *)

Lemma variance_checks (x : xfloat) :
  negb (xf.le x (Fin 0)) && xf.isfinite (xf.sqrt x) = true
  <-> exists r : R, x = Fin r /\ 0 < r.
Proof.
  split.
  - destruct x as [r | | |]; cbn; try discriminate.
    + destruct (Rle_dec r 0) as [Hle | Hgt]; cbn; [discriminate |].
      intros _. exists r. split; [reflexivity | lra].
  - intros (r & -> & Hr). cbn.
    destruct (Rle_dec r 0) as [Hle | _]; [lra |].
    destruct (Rlt_dec r 0) as [Hlt | _]; [lra | reflexivity].
Qed.

Lemma variances_checks (cdiag : list xfloat) :
  forallb (fun x => negb (xf.le x (Fin 0))) cdiag
  && forallb xf.isfinite (map xf.sqrt cdiag) = true
  <-> Forall (fun x => exists r : R, x = Fin r /\ 0 < r) cdiag.
Proof.
  induction cdiag as [| x l IH]; cbn [forallb map].
  - split; [constructor | reflexivity].
  - rewrite Forall_cons, <- IH, <- variance_checks.
    rewrite !andb_true_iff. tauto.
Qed.

(** What [calc_cov] does with a covariance [get_cov] returned: it is added
    to the result, with its errors and the shape block, exactly when every
    diagonal variance is positive and finite; otherwise the result only
    gains the flag [EIG_NOTFINITE]. *)
Lemma calc_cov_keeps_positive_finite
  (calc_hess : list xfloat -> xfloat -> result (list (list xfloat)))
  (linalg_inv : list (list xfloat) -> result (list (list xfloat)))
  (res : gmap string pyval) (pars : list xfloat) (h m : xfloat)
  (cov : list (list xfloat)) (flags : Z) :
  res !! "pars" = Some (PyArray pars) ->
  res !! "flags" = Some (PyInt flags) ->
  fitting.get_cov calc_hess linalg_inv pars h m = inr cov ->
  (Forall (fun x => exists r : R, x = Fin r /\ 0 < r) (fitting.diag cov) ->
   fitting.calc_cov calc_hess linalg_inv h m (Some res)
   = (inr tt,
      Some (<["g_cov" := PyMatrix (fitting.block22 cov)]>
              (<["pars_err" := PyArray (map xf.sqrt (fitting.diag cov))]>
                 (<["pars_cov" := PyMatrix cov]> res))))) /\
  (~ Forall (fun x => exists r : R, x = Fin r /\ 0 < r) (fitting.diag cov) ->
   fitting.calc_cov calc_hess linalg_inv h m (Some res)
   = (inr tt,
      Some (<["flags" := PyInt (Z.lor flags fitting.EIG_NOTFINITE)]> res))).
Proof.
  intros Hp Hf Hcov.
  unfold fitting.calc_cov, fitting.calc_cov_try. rewrite Hp, Hcov, Hf.
  pose proof (variances_checks (fitting.diag cov)) as Hchk.
  destruct (forallb (fun x => negb (xf.le x (Fin 0))) (fitting.diag cov));
    [destruct (forallb xf.isfinite (map xf.sqrt (fitting.diag cov))) |];
    cbn [andb] in Hchk.
  - split; [reflexivity |]. intros Hn. exfalso. apply Hn, Hchk. reflexivity.
  - split; [| reflexivity]. intros Hall. apply Hchk in Hall. discriminate.
  - split; [| reflexivity]. intros Hall. apply Hchk in Hall. discriminate.
Qed.

(** C8 on the code.  Whenever the Hessian is singular, that is, whenever
    [linalg.inv] raises on every Hessian [calc_hess] returns, [get_cov]
    raises [LinAlgError]: the [except] clause builds the diagonal matrix
    but inverts the Hessian itself a second time, so whether the diagonal
    is invertible plays no part.  [calc_cov] then sets [EIG_NOTFINITE] in
    the flags and adds no covariance to the result. *)
Theorem get_cov_singular_hessian_raises :
  forall (calc_hess : list xfloat -> xfloat -> result (list (list xfloat)))
         (linalg_inv : list (list xfloat) -> result (list (list xfloat)))
         (pars : list xfloat) (h m g1 g2 : xfloat)
         (res : gmap string pyval) (flags : Z),
    pars !! 2%nat = Some g1 ->
    pars !! 3%nat = Some g2 ->
    (forall p : list xfloat,
        exists hess : list (list xfloat),
          calc_hess p h = inr hess /\ linalg_inv hess = inl LinAlgError) ->
    res !! "pars" = Some (PyArray pars) ->
    res !! "flags" = Some (PyInt flags) ->
    fitting.get_cov calc_hess linalg_inv pars h m = inl LinAlgError /\
    fitting.calc_cov calc_hess linalg_inv h m (Some res)
    = (inr tt,
       Some (<["flags" := PyInt (Z.lor flags fitting.EIG_NOTFINITE)]> res)).
Proof.
  intros calc_hess linalg_inv pars h m g1 g2 res flags H2 H3 Hsing Hp Hf.
  assert (Hcov : fitting.get_cov calc_hess linalg_inv pars h m
                 = inl LinAlgError).
  { unfold fitting.get_cov, fitting.getx. rewrite H2, H3.
    match goal with
    | |- context [calc_hess ?p h] =>
        destruct (Hsing p) as (hess & Hc & Hi); rewrite Hc, !Hi
    end.
    reflexivity. }
  split; [exact Hcov |].
  unfold fitting.calc_cov, fitting.calc_cov_try.
  rewrite Hp, Hcov, Hf. reflexivity.
Qed.

Lemma inv_diagonal_hess_rank_one :
  inv_diagonal hess_rank_one = inl LinAlgError.
Proof.
  unfold inv_diagonal, is_diagonal, hess_rank_one. cbn.
  destruct (Req_dec_T (-1) 0) as [E | _]; [lra | reflexivity].
Qed.

Lemma inv_diagonal_of_diag :
  inv_diagonal (fitting.diag_matrix (fitting.diag hess_rank_one))
  = inr (fitting.diag_matrix (replicate 6 (Fin (1 / -1)))).
Proof.
  unfold inv_diagonal, is_diagonal, hess_rank_one. cbn.
  destruct (Req_dec_T 0 0) as [_ | N]; [| contradiction].
  destruct (Req_dec_T (-1) 0) as [E | _]; [lra |].
  cbn. reflexivity.
Qed.

Lemma get_cov_singular_hessian_raises_witness :
  inv_diagonal hess_rank_one = inl LinAlgError /\
  inv_diagonal (fitting.diag_matrix (fitting.diag hess_rank_one))
  = inr (fitting.diag_matrix (replicate 6 (Fin (1 / -1)))) /\
  fitting.get_cov (fun _ _ => inr hess_rank_one) inv_diagonal pars_round
    (Fin 0.001) (Fin 5) = inl LinAlgError /\
  fitting.calc_cov (fun _ _ => inr hess_rank_one) inv_diagonal
    (Fin 0.001) (Fin 5) (Some res_nm)
  = (inr tt, Some (<["flags" := PyInt 128]> res_nm)).
Proof.
  split; [exact inv_diagonal_hess_rank_one |].
  split; [exact inv_diagonal_of_diag |].
  exact (get_cov_singular_hessian_raises (fun _ _ => inr hess_rank_one)
           inv_diagonal pars_round (Fin 0.001) (Fin 5) (Fin 0) (Fin 0)
           res_nm 0 eq_refl eq_refl
           (fun _ => ex_intro _ hess_rank_one
                       (conj eq_refl inv_diagonal_hess_rank_one))
           eq_refl eq_refl).
Defined.

(** ** The least-squares driver (C5) *)

(** C5, as the code has it.  A status code above 4 gives the flag
    [2^(code-5)] and the sentinels in parameters, covariance and errors.
    For codes 1 to 4: a null covariance gives the flag
    [LM_SINGULAR_MATRIX = 16] and the sentinels in covariance and errors,
    the parameters being those the solver returned; otherwise the flags
    are those of the test of the rescaled covariance, [0] (success) when it
    passes, and when it does not pass the errors alone are the sentinel.
    When the solver raises on non-finite values or on a division by zero
    the flag is [LM_FUNC_NOTFINITE] or [LM_DIV_ZERO] and the parameters and
    the covariance are the sentinels.  The sentinels are
    [PDEF = -9.999e9] and [CDEF = 9.999e9]. *)
Theorem run_leastsq_flags_and_sentinels :
  forall (linalg_eig : list (list xfloat) -> result (list xfloat))
         (func : list xfloat -> result (list xfloat))
         (npars : nat) (dof : xfloat) (n_prior_pars : nat),
    let run := fun solved =>
      fitting.run_leastsq linalg_eig solved func npars dof n_prior_pars in
    let sentinel_pars := PyArray (replicate npars fitting.PDEF) in
    let sentinel_cov :=
      PyMatrix (replicate npars (replicate npars fitting.CDEF)) in
    let sentinel_err := PyArray (replicate npars fitting.CDEF) in
    fitting.PDEF = Fin (-9.999e9) /\
    fitting.CDEF = Fin 9.999e9 /\
    fitting.LM_SINGULAR_MATRIX = 16%Z /\
    (forall pars pcov0 nfev errmsg ier,
        (ier > 4)%Z ->
        exists res : gmap string pyval,
          run (inr (pars, pcov0, nfev, errmsg, ier)) = inr res /\
          res !! "flags" = Some (PyInt (2 ^ (ier - 5))) /\
          res !! "pars" = Some sentinel_pars /\
          res !! "pars_cov" = Some sentinel_cov /\
          res !! "pars_err" = Some sentinel_err) /\
    (forall pars nfev errmsg ier,
        (1 <= ier <= 4)%Z ->
        exists res : gmap string pyval,
          run (inr (pars, None, nfev, errmsg, ier)) = inr res /\
          res !! "flags" = Some (PyInt 16) /\
          res !! "pars" = Some (PyArray pars) /\
          res !! "pars_cov" = Some sentinel_cov /\
          res !! "pars_err" = Some sentinel_err) /\
    (forall pars pcov0 nfev errmsg ier fdiff,
        (1 <= ier <= 4)%Z ->
        func pars = inr fdiff ->
        let s_sq :=
          xf.div (fitting.sum_squares_from n_prior_pars fdiff) dof in
        let pcov := map (map (fun x => xf.mul x s_sq)) pcov0 in
        let cflags := fitting._test_cov linalg_eig pcov in
        exists res : gmap string pyval,
          run (inr (pars, Some pcov0, nfev, errmsg, ier)) = inr res /\
          res !! "flags" = Some (PyInt cflags) /\
          res !! "pars" = Some (PyArray pars) /\
          res !! "pars_cov" = Some (PyMatrix pcov) /\
          res !! "pars_err"
          = Some (if decide (cflags = 0)%Z
                  then PyArray (map xf.sqrt (fitting.diag pcov))
                  else sentinel_err)) /\
    (forall serr : string,
        fitting.contains "NaNs" serr || fitting.contains "infs" serr = true ->
        exists res : gmap string pyval,
          run (inl (ValueError serr)) = inr res /\
          res !! "flags" = Some (PyInt fitting.LM_FUNC_NOTFINITE) /\
          res !! "pars" = Some sentinel_pars /\
          res !! "pars_cov" = Some sentinel_cov) /\
    (exists res : gmap string pyval,
        run (inl ZeroDivisionError) = inr res /\
        res !! "flags" = Some (PyInt fitting.LM_DIV_ZERO) /\
        res !! "pars" = Some sentinel_pars /\
        res !! "pars_cov" = Some sentinel_cov).
Proof.
  intros linalg_eig func npars dof n_prior_pars run sentinel_pars
         sentinel_cov sentinel_err.
  subst run sentinel_pars sentinel_cov sentinel_err. cbv beta.
  split; [reflexivity |]. split; [reflexivity |]. split; [reflexivity |].
  split; [| split; [| split; [| split]]].
  - intros pars pcov0 nfev errmsg ier Hier.
    unfold fitting.run_leastsq, fitting.run_leastsq_try.
    destruct (decide (ier = 0)%Z) as [E | _]; [lia |].
    destruct (decide (ier > 4)%Z) as [_ | N]; [| lia].
    cbn [fitting._get_def_stuff].
    eexists. split; [reflexivity |]. repeat split; reflexivity.
  - intros pars nfev errmsg ier Hier.
    unfold fitting.run_leastsq, fitting.run_leastsq_try.
    destruct (decide (ier = 0)%Z) as [E | _]; [lia |].
    destruct (decide (ier > 4)%Z) as [N | _]; [lia |].
    cbn [fitting._get_def_stuff].
    eexists. split; [reflexivity |]. repeat split; reflexivity.
  - intros pars pcov0 nfev errmsg ier fdiff Hier Hfunc s_sq pcov cflags.
    unfold fitting.run_leastsq, fitting.run_leastsq_try.
    destruct (decide (ier = 0)%Z) as [E | _]; [lia |].
    destruct (decide (ier > 4)%Z) as [N | _]; [lia |].
    rewrite Hfunc. fold s_sq. fold pcov. fold cflags.
    destruct (decide (cflags <> 0)%Z) as [Hbad | Hgood].
    + cbn [fitting._get_def_stuff].
      destruct (decide (cflags = 0)%Z) as [E | _]; [contradiction |].
      eexists. split; [reflexivity |].
      repeat split; try reflexivity.
    + destruct (decide (cflags = 0)%Z) as [E | N]; [| lia].
      eexists. split; [reflexivity |].
      repeat split; try reflexivity.
      rewrite E. reflexivity.
  - intros serr Hserr.
    unfold fitting.run_leastsq, fitting.run_leastsq_try. rewrite Hserr.
    eexists. split; [reflexivity |]. repeat split; reflexivity.
  - eexists. split; [reflexivity |]. repeat split; reflexivity.
Qed.

(** C5 as worded fails.  With status [1] and a null covariance the result
    has the flag [LM_SINGULAR_MATRIX], so this is a failure path, and its
    parameters are the solver's [[1.0]], not the sentinel. *)
Lemma run_leastsq_sentinel_counterexample :
  exists res : gmap string pyval,
    fitting.run_leastsq (fun _ => inr []) solved_singular (fun _ => inr [])
      1 (Fin 1) 0 = inr res /\
    res !! "flags" = Some (PyInt fitting.LM_SINGULAR_MATRIX) /\
    res !! "pars" = Some (PyArray [Fin 1]) /\
    [Fin 1] <> replicate 1 fitting.PDEF.
Proof.
  eexists. split; [reflexivity |].
  split; [reflexivity |]. split; [reflexivity |].
  intros H. cbn in H. unfold fitting.PDEF in H.
  assert (E : 1 = -9.999e9) by congruence. lra.
Qed.

Lemma run_leastsq_flags_and_sentinels_witness :
  exists res : gmap string pyval,
    fitting.run_leastsq (fun _ => inr []) (inr ([Fin 1], None, 3%Z, "", 7%Z))
      (fun _ => inr []) 1 (Fin 1) 0 = inr res /\
    res !! "flags" = Some (PyInt (2 ^ (7 - 5))) /\
    res !! "pars" = Some (PyArray (replicate 1 fitting.PDEF)) /\
    res !! "pars_cov"
    = Some (PyMatrix (replicate 1 (replicate 1 fitting.CDEF))) /\
    res !! "pars_err" = Some (PyArray (replicate 1 fitting.CDEF)).
Proof.
  assert (H : (7 > 4)%Z) by lia.
  exact (proj1 (proj2 (proj2 (proj2
           (run_leastsq_flags_and_sentinels (fun _ => inr [])
              (fun _ => inr []) 1 (Fin 1) 0))))
           [Fin 1] None 3%Z "" 7%Z H).
Defined.

(** * Further properties of the code

    Properties of the functions above that the statements of the
    specification leave out: round trips, error paths, invariants and the
    way the operations compose. *)

(** ** Building a mixture from a flat parameter array *)

Lemma foldM_cons {S A B : Type} (body : B -> A -> M S B) (x : A)
  (l : list A) (acc : B) (s : S) :
  foldM body (x :: l) acc s
  = match body acc x s with
    | (inl e, s') => (inl e, s')
    | (inr acc', s') => foldM body l acc' s'
    end.
Proof. reflexivity. Qed.

Lemma foldM_app {S A B : Type} (body : B -> A -> M S B) (l1 l2 : list A) :
  forall (acc : B) (s : S),
    foldM body (l1 ++ l2) acc s
    = match foldM body l1 acc s with
      | (inl e, s') => (inl e, s')
      | (inr acc', s') => foldM body l2 acc' s'
      end.
Proof.
  induction l1 as [| x l1 IH]; intros acc s; [reflexivity |].
  cbn [app foldM]. unfold bind.
  destruct (body acc x s) as [[e | acc'] s']; [reflexivity |]. apply IH.
Qed.

Lemma fill_body_raises (gs self : list gmix.gauss2d) (i : nat)
  (g : gmix.gauss2d) :
  gs !! i = Some g -> moments_det g <= 0 ->
  fill_body (gmix.get_full_pars gs) tt i self = (inl GMixRangeError, self).
Proof.
  intros Hi Hdet. unfold fill_body, bind, lift, gmix.getitem. cbv zeta.
  rewrite !(full_pars_lookup gs i _ g Hi) by lia. cbn [lookup list_lookup].
  rewrite gauss2d_set_raises by assumption. reflexivity.
Qed.

Lemma fill_loop_first_bad (good rest : list gmix.gauss2d) (bad : gmix.gauss2d)
  (self : list gmix.gauss2d) :
  Forall (fun g => 0 < moments_det g) good ->
  moments_det bad <= 0 ->
  length self = length (good ++ bad :: rest) ->
  foldM (fill_body (gmix.get_full_pars (good ++ bad :: rest)))
        (seq 0 (length self)) tt self
  = (inl GMixRangeError, (refresh <$> good) ++ drop (length good) self).
Proof.
  intros Hgood Hbad Hlen.
  set (gs := good ++ bad :: rest) in *.
  assert (Hgs : length gs = (length good + S (length rest))%nat)
    by (subst gs; rewrite length_app; reflexivity).
  rewrite Hlen at 1. rewrite Hgs, seq_app, foldM_app. cbn [Nat.add].
  rewrite <- (take_drop (length good) self) at 1.
  pose proof (fill_full_loop gs (length good) 0 []
                (take (length good) self) (drop (length good) self)) as Hloop.
  cbn [app] in Hloop. rewrite Hloop; clear Hloop.
  - rewrite drop_0. subst gs. rewrite take_app_length.
    cbn [seq foldM]. unfold bind at 1.
    rewrite (fill_body_raises _ _ _ bad).
    + reflexivity.
    + rewrite lookup_app_r by lia. now rewrite Nat.sub_diag.
    + exact Hbad.
  - reflexivity.
  - rewrite length_take. lia.
  - intros j Hj. cbn [Nat.add]. subst gs.
    destruct (lookup_lt_is_Some_2 good j Hj) as [g Hg].
    exists g. split; [now apply lookup_app_l_Some |].
    rewrite Forall_forall in Hgood. apply Hgood.
    eapply list_elem_of_lookup_2. exact Hg.
Qed.

Lemma first_bad_component (gs : list gmix.gauss2d) :
  Forall (fun g => 0 < moments_det g) gs \/
  exists (good rest : list gmix.gauss2d) (bad : gmix.gauss2d),
    gs = good ++ bad :: rest /\
    Forall (fun g => 0 < moments_det g) good /\ moments_det bad <= 0.
Proof.
  induction gs as [| g gs IH]; [left; constructor |].
  destruct (Rlt_dec 0 (moments_det g)) as [Hg | Hg].
  - destruct IH as [IH | (good & rest & bad & -> & Hgood & Hbad)].
    + left. now constructor.
    + right. exists (g :: good), rest, bad. repeat split; [| exact Hbad].
      now constructor.
  - right. exists [], gs, g. repeat split; [constructor | lra].
Qed.

Lemma pars_induction (P : list R -> Prop) :
  P [] ->
  (forall p row col irr irc icc rest,
      P rest -> P (p :: row :: col :: irr :: irc :: icc :: rest)) ->
  forall pars : list R, (length pars `mod` 6 = 0)%nat -> P pars.
Proof.
  intros Hnil Hstep pars Hmod.
  assert (H : exists n, length pars = (n * 6)%nat).
  { exists (length pars / 6)%nat.
    pose proof (Nat.div_mod_eq (length pars) 6). lia. }
  destruct H as [n Hn]. clear Hmod. revert pars Hn.
  induction n as [| n IH]; intros pars Hn.
  - destruct pars; [exact Hnil | discriminate].
  - destruct pars as [| p [| row [| col [| irr [| irc [| icc rest]]]]]];
      try (cbn in Hn; lia).
    apply Hstep, IH. cbn in Hn. lia.
Qed.

Lemma full_pars_components (pars : list R) :
  (length pars `mod` 6 = 0)%nat ->
  gmix.get_full_pars (components_of pars) = pars.
Proof.
  intros H.
  apply (pars_induction
           (fun pars => gmix.get_full_pars (components_of pars) = pars));
    [reflexivity | | exact H].
  intros p row col irr irc icc rest IH.
  cbn [components_of]. unfold gmix.get_full_pars in *.
  cbn [flat_map]. rewrite IH. reflexivity.
Qed.

Lemma components_induction (P : list R -> Prop) :
  (forall pars : list R, (length pars < 6)%nat -> P pars) ->
  (forall p row col irr irc icc rest,
      P rest -> P (p :: row :: col :: irr :: irc :: icc :: rest)) ->
  forall pars : list R, P pars.
Proof.
  intros Hshort Hstep pars.
  assert (H : forall (n : nat) (pars : list R),
             (length pars <= n)%nat -> P pars).
  { clear pars. induction n as [| n IH]; intros pars Hn.
    - apply Hshort. lia.
    - destruct pars as [| p [| row [| col [| irr [| irc [| icc rest]]]]]];
        try (apply Hshort; cbn; lia).
      apply Hstep, IH. cbn in Hn. lia. }
  apply (H (length pars)). lia.
Qed.

Lemma components_short (pars : list R) :
  (length pars < 6)%nat -> components_of pars = [].
Proof.
  intros H.
  destruct pars as [| p [| row [| col [| irr [| irc [| icc rest]]]]]];
    try reflexivity.
  cbn in H. lia.
Qed.

Lemma components_refresh (pars : list R) :
  refresh <$> components_of pars = components_of pars.
Proof.
  induction pars as [pars Hshort | p row col irr irc icc rest IH]
    using components_induction.
  - now rewrite components_short.
  - cbn [components_of fmap list_fmap]. f_equal. exact IH.
Qed.

Lemma components_well_formed (pars : list R) :
  Forall (fun g => 0 < moments_det g) (components_of pars) ->
  Forall well_formed (components_of pars).
Proof.
  induction pars as [pars Hshort | p row col irr irc icc rest IH]
    using components_induction.
  - rewrite components_short by assumption. constructor.
  - cbn [components_of]. intros H. inversion H as [| g l Hg Hl]; subst.
    constructor; [| apply IH; exact Hl].
    unfold moments_det, stored in Hg. cbn in Hg.
    unfold well_formed, moments_det, stored. cbn.
    assert (Hne : irr * icc - irc * irc <> 0) by lra.
    repeat split; try reflexivity; try lra; field; exact Hne.
Qed.

Lemma components_length (pars : list R) :
  length (components_of pars) = (length pars / 6)%nat.
Proof.
  induction pars as [pars Hshort | p row col irr irc icc rest IH]
    using components_induction.
  - rewrite components_short by assumption. now rewrite Nat.div_small.
  - cbn [components_of length]. rewrite IH.
    change (S (S (S (S (S (S (length rest)))))))
      with (6 + length rest)%nat.
    replace (6 + length rest)%nat with (length rest + 1 * 6)%nat by lia.
    rewrite Nat.div_add by lia. lia.
Qed.

Lemma verify_iff (gs : list gmix.gauss2d) :
  gmix._gauss2d_verify gs = inr tt <-> Forall (fun g => 0 < gmix.det g) gs.
Proof.
  unfold gmix._gauss2d_verify.
  induction gs as [| g gs IH].
  - cbn. split; [constructor | reflexivity].
  - cbn [foldM]. unfold bind.
    destruct (Rle_dec (gmix.det g) 0) as [Hle | Hgt]; cbn.
    + split; [discriminate |]. intros H. inversion H; subst. lra.
    + rewrite IH. split.
      * intros H. constructor; [lra | exact H].
      * intros H. now inversion H.
Qed.

Lemma verify_raises_iff (gs : list gmix.gauss2d) :
  gmix._gauss2d_verify gs = inl GMixRangeError
  <-> Exists (fun g => gmix.det g <= 0) gs.
Proof.
  unfold gmix._gauss2d_verify.
  induction gs as [| g gs IH].
  - cbn. split; [discriminate | intros H; inversion H].
  - cbn [foldM]. unfold bind.
    destruct (Rle_dec (gmix.det g) 0) as [Hle | Hgt]; cbn.
    + split; [intros _; now left | reflexivity].
    + rewrite IH. split.
      * intros H. now right.
      * intros H. inversion H; subst; [contradiction | assumption].
Qed.

(** The three outcomes of [GMix(pars=pars)]. *)
Lemma GMix_of_pars_cases (pars : list R) :
  ((length pars `mod` 6 <> 0)%nat /\
   gmix.GMix_of_pars pars = inl GMixFatalError) \/
  ((length pars `mod` 6 = 0)%nat /\
   Forall (fun g => 0 < moments_det g) (components_of pars) /\
   gmix.GMix_of_pars pars = inr (components_of pars)) \/
  ((length pars `mod` 6 = 0)%nat /\
   Exists (fun g => moments_det g <= 0) (components_of pars) /\
   gmix.GMix_of_pars pars = inl GMixRangeError).
Proof.
  destruct (decide (length pars `mod` 6 = 0)%nat) as [Hmod | Hmod].
  - right.
    pose proof (full_pars_components pars Hmod) as Hpars.
    destruct (first_bad_component (components_of pars))
      as [Hall | (good & rest & bad & Hgs & Hgood & Hbad)].
    + left. repeat split; [exact Hmod | exact Hall |].
      rewrite <- Hpars at 1. rewrite GMix_of_full_pars by exact Hall.
      now rewrite components_refresh.
    + right. repeat split; [exact Hmod | |].
      * rewrite Hgs. apply Exists_app. right. now constructor.
      * unfold gmix.GMix_of_pars. case_decide as H; [contradiction |].
        assert (Hlen : length (gmix.GMix_new (length pars / 6))
                       = length (good ++ bad :: rest)).
        { unfold gmix.GMix_new. rewrite length_replicate.
          now rewrite <- Hgs, components_length. }
        unfold gmix.fill. case_decide as H'.
        { exfalso. apply H'. rewrite Hlen, <- Hgs, components_length.
          pose proof (Nat.div_mod_eq (length pars) 6). lia. }
        rewrite fill_full_loop_body. unfold bind at 1.
        rewrite <- Hpars at 1. rewrite Hgs.
        rewrite (fill_loop_first_bad good rest bad) by assumption.
        reflexivity.
  - left. split; [exact Hmod |].
    unfold gmix.GMix_of_pars. now case_decide.
Qed.

Lemma stored_well_formed (p row col irr irc icc : R) :
  0 < irr * icc - irc * irc -> well_formed (stored p row col irr irc icc).
Proof.
  intros Hdet. unfold well_formed, moments_det, stored. cbn.
  assert (Hne : irr * icc - irc * irc <> 0) by lra.
  repeat split; try reflexivity; try lra; field; exact Hne.
Qed.

Lemma well_formed_verify (gs : list gmix.gauss2d) :
  Forall well_formed gs -> gmix._gauss2d_verify gs = inr tt.
Proof.
  intros H. apply verify_iff. eapply Forall_impl; [exact H |].
  intros g Hg. apply Hg.
Qed.

(** X1. Whenever [GMix(pars=pars)] returns a mixture [gm], the round trip
    [gm.get_full_pars()] gives [pars] back, [gm] has [len(pars)/6]
    components, every component carries a positive [det] and derived fields
    ([drr], [drc], [dcc], [norm], [pnorm]) that agree with its six
    parameters, [_gauss2d_verify] accepts it, and building a mixture from
    [gm.get_full_pars()] yields [gm] again. *)
Theorem GMix_of_pars_round_trip :
  forall (pars : list R) (gm : list gmix.gauss2d),
    gmix.GMix_of_pars pars = inr gm ->
    gmix.get_full_pars gm = pars /\
    (length gm * 6 = length pars)%nat /\
    Forall well_formed gm /\
    gmix._gauss2d_verify gm = inr tt /\
    gmix.GMix_of_pars (gmix.get_full_pars gm) = inr gm.
Proof.
  intros pars gm Hgm.
  destruct (GMix_of_pars_cases pars)
    as [(_ & H) | [(Hmod & Hall & H) | (_ & _ & H)]];
    rewrite H in Hgm; try discriminate.
  injection Hgm as <-.
  pose proof (full_pars_components pars Hmod) as Hpars.
  pose proof (components_well_formed pars Hall) as Hwf.
  repeat split.
  - exact Hpars.
  - rewrite components_length.
    pose proof (Nat.div_mod_eq (length pars) 6). lia.
  - exact Hwf.
  - now apply well_formed_verify.
  - now rewrite Hpars.
Qed.

Lemma GMix_of_pars_round_trip_witness :
  gmix.get_full_pars [unit_gauss] = [1; 0; 0; 1; 0; 1] /\
  (length [unit_gauss] * 6 = length [1; 0; 0; 1; 0; 1])%nat /\
  Forall well_formed [unit_gauss] /\
  gmix._gauss2d_verify [unit_gauss] = inr tt /\
  gmix.GMix_of_pars (gmix.get_full_pars [unit_gauss]) = inr [unit_gauss].
Proof.
  apply (GMix_of_pars_round_trip [1; 0; 0; 1; 0; 1] [unit_gauss]).
  apply GMix_of_pars_one. lra.
Defined.

(** X2. [GMix(pars=pars)] fails in exactly two ways: with [GMixFatalError]
    when [len(pars)] is not a multiple of six, and with [GMixRangeError]
    when the length is a multiple of six and some block of six has
    [irr*icc - irc^2 <= 0].  No other exception (in particular no index
    error) leaves the constructor. *)
Theorem GMix_of_pars_errors :
  forall pars : list R,
    (gmix.GMix_of_pars pars = inl GMixFatalError
     <-> (length pars `mod` 6 <> 0)%nat) /\
    (gmix.GMix_of_pars pars = inl GMixRangeError
     <-> (length pars `mod` 6 = 0)%nat /\
         Exists (fun g => moments_det g <= 0) (components_of pars)) /\
    (forall e : exn,
        gmix.GMix_of_pars pars = inl e ->
        e = GMixFatalError \/ e = GMixRangeError).
Proof.
  intros pars.
  destruct (GMix_of_pars_cases pars)
    as [(Hmod & H) | [(Hmod & Hall & H) | (Hmod & Hex & H)]];
    rewrite H.
  - split; [tauto |]. split.
    + split; [discriminate | tauto].
    + intros e [= <-]. now left.
  - split; [split; [discriminate | tauto] |]. split.
    + split; [discriminate |]. intros [_ Hex]. exfalso.
      rewrite Exists_exists in Hex. destruct Hex as (g & Hin & Hle).
      rewrite Forall_forall in Hall. specialize (Hall g Hin). lra.
    + intros e [=].
  - split; [split; [discriminate | tauto] |]. split.
    + tauto.
    + intros e [= <-]. now right.
Qed.

(** X3. [GMix.fill] is not atomic.  When the first block of [pars] with
    [irr*icc - irc^2 <= 0] is block [k], the call raises [GMixRangeError]
    after components [0 .. k-1] have been overwritten with the new
    parameters; components [k] and later keep their old contents. *)
Theorem fill_stops_at_first_bad_component :
  forall (pars : list R) (self good rest : list gmix.gauss2d)
         (bad : gmix.gauss2d),
    length pars = (length self * 6)%nat ->
    components_of pars = good ++ bad :: rest ->
    Forall (fun g => 0 < moments_det g) good ->
    moments_det bad <= 0 ->
    gmix.fill pars self
    = (inl GMixRangeError, good ++ drop (length good) self).
Proof.
  intros pars self good rest bad Hlen Hgs Hgood Hbad.
  assert (Hmod : (length pars `mod` 6 = 0)%nat)
    by (rewrite Hlen; apply Nat.Div0.mod_mul).
  pose proof (full_pars_components pars Hmod) as Hpars.
  assert (Hself : length self = length (good ++ bad :: rest)).
  { rewrite <- Hgs, components_length, Hlen. now rewrite Nat.div_mul. }
  unfold gmix.fill. case_decide as H; [contradiction |].
  rewrite fill_full_loop_body. unfold bind at 1.
  rewrite <- Hpars at 1. rewrite Hgs.
  rewrite (fill_loop_first_bad good rest bad) by assumption.
  f_equal. f_equal.
  assert (Hwf : refresh <$> components_of pars = components_of pars)
    by apply components_refresh.
  rewrite Hgs, fmap_app in Hwf.
  apply app_inj_1 in Hwf; [apply Hwf |].
  now rewrite length_fmap.
Qed.

Lemma fill_stops_at_first_bad_component_witness :
  gmix.fill [1; 0; 0; 1; 0; 1; 1; 0; 0; 0; 0; 0] (gmix.GMix_new 2)
  = (inl GMixRangeError,
     [unit_gauss] ++ drop (length [unit_gauss]) (gmix.GMix_new 2)).
Proof.
  apply (fill_stops_at_first_bad_component
           [1; 0; 0; 1; 0; 1; 1; 0; 0; 0; 0; 0] (gmix.GMix_new 2)
           [unit_gauss] [] (stored 1 0 0 0 0 0)).
  - reflexivity.
  - reflexivity.
  - constructor; [| constructor].
    unfold moments_det, unit_gauss, stored. cbn. lra.
  - unfold moments_det, stored. cbn. lra.
Defined.

(** X4. [_gauss2d_verify] returns exactly when every component has
    [det > 0] and raises [GMixRangeError] otherwise; a mixture made by
    [GMix(ngauss=n)] with [n > 0], whose array is zeroed, is rejected until
    it has been filled. *)
Theorem gauss2d_verify_iff :
  forall gs : list gmix.gauss2d,
    (gmix._gauss2d_verify gs = inr tt
     <-> Forall (fun g => 0 < gmix.det g) gs) /\
    (gmix._gauss2d_verify gs = inl GMixRangeError
     <-> Exists (fun g => gmix.det g <= 0) gs) /\
    (forall n : nat,
        (0 < n)%nat ->
        gmix._gauss2d_verify (gmix.GMix_new n) = inl GMixRangeError).
Proof.
  intros gs. split; [apply verify_iff |]. split.
  - apply verify_raises_iff.
  - intros n Hn. destruct n as [| n]; [lia |].
    unfold gmix._gauss2d_verify, gmix.GMix_new. cbn [replicate foldM].
    unfold bind. cbn [gmix.det gmix.gauss2d_zero].
    destruct (Rle_dec 0 0) as [_ | Hn0]; [reflexivity | lra].
Qed.

(** ** Flux, size and centre of a mixture *)

Lemma fold_psum (l : list gmix.gauss2d) (a : R) :
  fold_left (fun acc g => acc + gmix.p g) l a = a + psum_of l.
Proof.
  revert a. induction l as [| g l IH]; intros a.
  - unfold psum_of. cbn. lra.
  - cbn [fold_left]. rewrite IH. unfold psum_of.
    rewrite !fmap_cons, !Rsum_cons. ring.
Qed.

Lemma get_psum_sum (l : list gmix.gauss2d) : gmix.get_psum l = psum_of l.
Proof. unfold gmix.get_psum. rewrite fold_psum. lra. Qed.

Lemma fold_T_sums (l : list gmix.gauss2d) (a b : R) :
  fold_left (fun '(T, psum) g =>
               let p_ := gmix.p g in
               (T + (gmix.irr g + gmix.icc g) * p_, psum + p_))
            l (a, b)
  = (a + Tsum_of l, b + psum_of l).
Proof.
  revert a b. induction l as [| g l IH]; intros a b.
  - unfold Tsum_of, psum_of. cbn. f_equal; lra.
  - cbn [fold_left]. rewrite IH. unfold Tsum_of, psum_of.
    rewrite !fmap_cons, !Rsum_cons. f_equal; ring.
Qed.

Lemma get_T_ok (l : list gmix.gauss2d) :
  psum_of l <> 0 -> gmix.get_T l = inr (Tsum_of l / psum_of l).
Proof.
  intros H. unfold gmix.get_T, gmix._get_T. rewrite fold_T_sums.
  rewrite !Rplus_0_l. unfold fdiv.
  destruct (Req_dec_T (psum_of l) 0) as [E | _]; [contradiction | reflexivity].
Qed.

Lemma get_cen_of_sums (l : list gmix.gauss2d) :
  psum_of l <> 0 ->
  gmix.get_cen l = inr (rowsum_of l / psum_of l, colsum_of l / psum_of l).
Proof.
  intros H. unfold gmix.get_cen. now rewrite get_cen_ok.
Qed.

Lemma conv_row_Tsum (rc cc ip : R) (g : gmix.gauss2d)
  (hs : list gmix.gauss2d) :
  Tsum_of (conv_pair rc cc ip g <$> hs)
  = gmix.p g * ip
    * ((gmix.irr g + gmix.icc g) * psum_of hs + Tsum_of hs).
Proof.
  unfold Tsum_of, psum_of.
  induction hs as [| h hs IH].
  - cbn. ring.
  - rewrite !fmap_cons, !Rsum_cons, IH.
    cbn [conv_pair stored gmix.p gmix.irr gmix.icc]. ring.
Qed.

Lemma conv_list_Tsum (rc cc ip : R) (gs hs : list gmix.gauss2d) :
  Tsum_of (conv_list rc cc ip gs hs)
  = ip * (Tsum_of gs * psum_of hs + psum_of gs * Tsum_of hs).
Proof.
  induction gs as [| g gs IH].
  - unfold Tsum_of, psum_of. cbn. ring.
  - pose proof (conv_row_Tsum rc cc ip g hs) as Hrow.
    unfold conv_list in *. cbn [flat_map].
    unfold Tsum_of, psum_of in *.
    rewrite !fmap_app, !Rsum_app, !fmap_cons, !Rsum_cons.
    rewrite IH, Hrow. ring.
Qed.

Lemma conv_pair_positive_definite (rc cc ip : R) (g h : gmix.gauss2d) :
  positive_definite g -> positive_definite h ->
  positive_definite (conv_pair rc cc ip g h) /\
  well_formed (conv_pair rc cc ip g h).
Proof.
  intros [Hg1 Hg2] [Hh1 Hh2].
  pose proof (pair_det_pos g h Hg1 Hg2 Hh1 Hh2) as Hdet.
  unfold pair_det in Hdet. split.
  - unfold positive_definite, moments_det, conv_pair, stored. cbn.
    split; lra.
  - apply stored_well_formed. exact Hdet.
Qed.

Lemma conv_list_positive_definite (rc cc ip : R)
  (gs hs : list gmix.gauss2d) :
  Forall positive_definite gs -> Forall positive_definite hs ->
  Forall (fun c => positive_definite c /\ well_formed c)
         (conv_list rc cc ip gs hs).
Proof.
  intros Hgs Hhs. unfold conv_list.
  induction Hgs as [| g gs Hg Hgs IH]; [constructor |].
  cbn [flat_map]. apply Forall_app. split; [| exact IH].
  apply Forall_fmap. eapply Forall_impl; [exact Hhs |].
  intros h Hh. now apply conv_pair_positive_definite.
Qed.

(** X5. Positive-definite mixtures are closed under convolution: when
    every component of [self] and of [psf] has [irr > 0] and
    [irr*icc - irc^2 > 0] and the psf's total flux is not zero,
    [self.convolve(psf)] returns, and every component of the result is
    again positive definite, with derived fields that agree with its
    parameters, so that [_gauss2d_verify] accepts the result. *)
Theorem convolve_positive_definite :
  forall self psf : list gmix.gauss2d,
    psum_of psf <> 0 ->
    Forall positive_definite self ->
    Forall positive_definite psf ->
    exists out : list gmix.gauss2d,
      gmix.convolve self psf = inr out /\
      Forall positive_definite out /\
      Forall well_formed out /\
      gmix._gauss2d_verify out = inr tt.
Proof.
  intros self psf Hflux Hself Hpsf.
  eexists. split.
  - apply convolve_returns; [exact Hflux |].
    now apply pair_dets_of_positive_definite.
  - pose proof (conv_list_positive_definite
                  (rowsum_of psf / psum_of psf) (colsum_of psf / psum_of psf)
                  (1 / psum_of psf) self psf Hself Hpsf) as Hall.
    assert (Hwf : Forall well_formed
                    (conv_list (rowsum_of psf / psum_of psf)
                       (colsum_of psf / psum_of psf) (1 / psum_of psf)
                       self psf))
      by (eapply Forall_impl; [exact Hall | intros c Hc; apply Hc]).
    split; [| split].
    + eapply Forall_impl; [exact Hall | intros c Hc; apply Hc].
    + exact Hwf.
    + now apply well_formed_verify.
Qed.

Lemma unit_gauss_positive_definite : positive_definite unit_gauss.
Proof.
  unfold positive_definite, moments_det, unit_gauss, stored. cbn.
  split; lra.
Qed.

Lemma psum_unit_gauss : psum_of [unit_gauss] = 1.
Proof. unfold psum_of, Rsum. cbn. lra. Qed.

Lemma convolve_positive_definite_witness :
  exists out : list gmix.gauss2d,
    gmix.convolve [unit_gauss] [unit_gauss] = inr out /\
    Forall positive_definite out /\
    Forall well_formed out /\
    gmix._gauss2d_verify out = inr tt.
Proof.
  apply (convolve_positive_definite [unit_gauss] [unit_gauss]).
  - rewrite psum_unit_gauss. lra.
  - constructor; [apply unit_gauss_positive_definite | constructor].
  - constructor; [apply unit_gauss_positive_definite | constructor].
Defined.

(** X6. Convolution keeps the total flux and adds the sizes: when
    [self.convolve(psf)] returns (the object's and the psf's total flux
    being non-zero), the result's [get_psum()] equals [self.get_psum()],
    whatever the psf's flux, and its [get_T()] is
    [self.get_T() + psf.get_T()]. *)
Theorem convolve_flux_and_T :
  forall self psf : list gmix.gauss2d,
    gmix.get_psum self <> 0 ->
    gmix.get_psum psf <> 0 ->
    Forall (fun g => Forall (fun h => 0 < pair_det g h) psf) self ->
    exists (out : list gmix.gauss2d) (T_self T_psf : R),
      gmix.convolve self psf = inr out /\
      gmix.get_psum out = gmix.get_psum self /\
      gmix.get_T self = inr T_self /\
      gmix.get_T psf = inr T_psf /\
      gmix.get_T out = inr (T_self + T_psf).
Proof.
  intros self psf Hself Hpsf Hdet.
  rewrite get_psum_sum in Hself, Hpsf.
  exists (conv_list (rowsum_of psf / psum_of psf)
            (colsum_of psf / psum_of psf) (1 / psum_of psf) self psf),
    (Tsum_of self / psum_of self), (Tsum_of psf / psum_of psf).
  destruct (conv_list_sums (rowsum_of psf / psum_of psf)
              (colsum_of psf / psum_of psf) (1 / psum_of psf) self psf)
    as (Hp & _ & _).
  assert (Hflux : psum_of (conv_list (rowsum_of psf / psum_of psf)
                             (colsum_of psf / psum_of psf)
                             (1 / psum_of psf) self psf) = psum_of self)
    by (rewrite Hp; field; exact Hpsf).
  split; [now apply convolve_returns |].
  split; [now rewrite !get_psum_sum |].
  split; [now apply get_T_ok |].
  split; [now apply get_T_ok |].
  rewrite get_T_ok by (rewrite Hflux; exact Hself).
  rewrite Hflux, conv_list_Tsum. f_equal. field. split; assumption.
Qed.

Lemma convolve_flux_and_T_witness :
  exists (out : list gmix.gauss2d) (T_self T_psf : R),
    gmix.convolve [unit_gauss] [unit_gauss] = inr out /\
    gmix.get_psum out = gmix.get_psum [unit_gauss] /\
    gmix.get_T [unit_gauss] = inr T_self /\
    gmix.get_T [unit_gauss] = inr T_psf /\
    gmix.get_T out = inr (T_self + T_psf).
Proof.
  apply (convolve_flux_and_T [unit_gauss] [unit_gauss]).
  - rewrite get_psum_sum, psum_unit_gauss. lra.
  - rewrite get_psum_sum, psum_unit_gauss. lra.
  - apply pair_dets_of_positive_definite;
      (constructor; [apply unit_gauss_positive_definite | constructor]).
Defined.

Lemma shift_sums (dr dc : R) (l : list gmix.gauss2d) :
  psum_of (gmix.shift_cen dr dc <$> l) = psum_of l /\
  rowsum_of (gmix.shift_cen dr dc <$> l) = rowsum_of l + dr * psum_of l /\
  colsum_of (gmix.shift_cen dr dc <$> l) = colsum_of l + dc * psum_of l /\
  Tsum_of (gmix.shift_cen dr dc <$> l) = Tsum_of l.
Proof.
  unfold psum_of, rowsum_of, colsum_of, Tsum_of.
  induction l as [| g l (IHp & IHr & IHc & IHT)].
  - cbn. repeat split; ring.
  - rewrite !fmap_cons, !Rsum_cons, IHp, IHr, IHc, IHT.
    cbn [gmix.shift_cen gmix.p gmix.row gmix.col gmix.irr gmix.icc].
    repeat split; ring.
Qed.

(** X7. [GMix.set_cen(row, col)] moves the mixture as a whole: on a
    mixture of non-zero total flux whose centre [get_cen()] is [(r0, c0)],
    it adds [(row - r0, col - c0)] to the position of every component and
    changes no other field, after which [get_cen()] returns [(row, col)]
    and flux and size are what they were. *)
Theorem gmix_set_cen_then_get_cen :
  forall (self : list gmix.gauss2d) (row col : R),
    gmix.get_psum self <> 0 ->
    exists r0 c0 : R,
      gmix.get_cen self = inr (r0, c0) /\
      gmix.set_cen row col self
      = (inr tt, gmix.shift_cen (row - r0) (col - c0) <$> self) /\
      gmix.get_cen (gmix.set_cen row col self).2 = inr (row, col) /\
      gmix.get_psum (gmix.set_cen row col self).2 = gmix.get_psum self /\
      gmix.get_T (gmix.set_cen row col self).2 = gmix.get_T self.
Proof.
  intros self row col. rewrite get_psum_sum. intros Hflux.
  exists (rowsum_of self / psum_of self), (colsum_of self / psum_of self).
  assert (Hset : gmix.set_cen row col self
                 = (inr tt,
                    gmix.shift_cen (row - rowsum_of self / psum_of self)
                      (col - colsum_of self / psum_of self) <$> self)).
  { unfold gmix.set_cen, gmix._set_cen.
    now rewrite get_cen_ok by exact Hflux. }
  rewrite Hset. cbn [snd].
  destruct (shift_sums (row - rowsum_of self / psum_of self)
              (col - colsum_of self / psum_of self) self)
    as (Hp & Hr & Hc & HT).
  split; [now apply get_cen_of_sums |]. split; [reflexivity |].
  split; [| split].
  - rewrite get_cen_of_sums by (rewrite Hp; exact Hflux).
    rewrite Hp, Hr, Hc. f_equal. f_equal; field; exact Hflux.
  - now rewrite !get_psum_sum.
  - rewrite !get_T_ok by (try rewrite Hp; exact Hflux).
    now rewrite Hp, HT.
Qed.

Lemma gmix_set_cen_then_get_cen_witness :
  exists r0 c0 : R,
    gmix.get_cen [unit_gauss] = inr (r0, c0) /\
    gmix.set_cen 1 2 [unit_gauss]
    = (inr tt, gmix.shift_cen (1 - r0) (2 - c0) <$> [unit_gauss]) /\
    gmix.get_cen (gmix.set_cen 1 2 [unit_gauss]).2 = inr (1, 2) /\
    gmix.get_psum (gmix.set_cen 1 2 [unit_gauss]).2
    = gmix.get_psum [unit_gauss] /\
    gmix.get_T (gmix.set_cen 1 2 [unit_gauss]).2 = gmix.get_T [unit_gauss].
Proof.
  apply (gmix_set_cen_then_get_cen [unit_gauss] 1 2).
  rewrite get_psum_sum, psum_unit_gauss. lra.
Defined.

(** ** Ellipticity and total flux *)

Lemma fold_e1e2T_sums (l : list gmix.gauss2d) (a b c d : R) :
  fold_left (fun '(irr_, irc_, icc_, psum) g =>
               let p_ := gmix.p g in
               (irr_ + p_ * gmix.irr g, irc_ + p_ * gmix.irc g,
                icc_ + p_ * gmix.icc g, psum + p_))
            l (a, b, c, d)
  = (a + irrsum_of l, b + ircsum_of l, c + iccsum_of l, d + psum_of l).
Proof.
  revert a b c d. induction l as [| g l IH]; intros a b c d.
  - unfold irrsum_of, ircsum_of, iccsum_of, psum_of. cbn.
    f_equal; [f_equal; [f_equal |] |]; lra.
  - cbn [fold_left]. rewrite IH.
    unfold irrsum_of, ircsum_of, iccsum_of, psum_of.
    rewrite !fmap_cons, !Rsum_cons.
    f_equal; [f_equal; [f_equal |] |]; ring.
Qed.

Lemma Tsum_of_moment_sums (l : list gmix.gauss2d) :
  Tsum_of l = irrsum_of l + iccsum_of l.
Proof.
  unfold Tsum_of, irrsum_of, iccsum_of.
  induction l as [| g l IH]; [cbn; lra |].
  rewrite !fmap_cons, !Rsum_cons, IH. ring.
Qed.

(** Positive-definite moments stay positive definite under sums. *)
Lemma moments_sum_pos (a b c a' b' c' : R) :
  0 < a -> 0 < a * c - b * b -> 0 < a' -> 0 < a' * c' - b' * b' ->
  0 < (a + a') * (c + c') - (b + b') * (b + b').
Proof.
  intros Ha Hd Ha' Hd'.
  exact (pair_det_pos (gmix.mk_gauss2d 0 0 0 a b c 0 0 0 0 0 0)
           (gmix.mk_gauss2d 0 0 0 a' b' c' 0 0 0 0 0 0) Ha Hd Ha' Hd').
Qed.

Lemma weighted_moments_positive (l : list gmix.gauss2d) :
  l <> [] ->
  Forall (fun g => 0 < gmix.p g) l ->
  Forall positive_definite l ->
  0 < psum_of l /\ 0 < irrsum_of l /\
  0 < irrsum_of l * iccsum_of l - ircsum_of l * ircsum_of l.
Proof.
  intros Hne Hp Hpd.
  induction l as [| g l IH]; [contradiction |].
  inversion Hp as [| ? ? Hpg Hpl]; subst.
  inversion Hpd as [| ? ? [Hirr Hdet] Hpdl]; subst.
  unfold moments_det in Hdet.
  unfold psum_of, irrsum_of, ircsum_of, iccsum_of in *.
  rewrite !fmap_cons, !Rsum_cons.
  assert (Ha : 0 < gmix.p g * gmix.irr g) by now apply Rmult_lt_0_compat.
  assert (Hd : 0 < gmix.p g * gmix.irr g * (gmix.p g * gmix.icc g)
                   - gmix.p g * gmix.irc g * (gmix.p g * gmix.irc g)).
  { replace (gmix.p g * gmix.irr g * (gmix.p g * gmix.icc g)
             - gmix.p g * gmix.irc g * (gmix.p g * gmix.irc g))
      with (gmix.p g * gmix.p g
            * (gmix.irr g * gmix.icc g - gmix.irc g * gmix.irc g)) by ring.
    apply Rmult_lt_0_compat; [now apply Rmult_lt_0_compat | exact Hdet]. }
  destruct l as [| h l].
  - cbn. rewrite !Rplus_0_r. repeat split; assumption.
  - destruct (IH ltac:(discriminate) Hpl Hpdl) as (IHp & IHa & IHd).
    repeat split.
    + lra.
    + lra.
    + now apply moments_sum_pos.
Qed.

(** X8. For a non-empty mixture whose amplitudes are all positive and
    whose components are all positive definite, [get_e1e2T()] returns
    [(e1, e2, T)] with [T > 0] and [e1^2 + e2^2 < 1] (never the sentinel
    [-9999]), and its [T] is the one [get_T()] returns. *)
Theorem get_e1e2T_bounded :
  forall self : list gmix.gauss2d,
    self <> [] ->
    Forall (fun g => 0 < gmix.p g) self ->
    Forall positive_definite self ->
    exists e1 e2 T : R,
      gmix.get_e1e2T self = inr (e1, e2, T) /\
      0 < T /\
      e1 * e1 + e2 * e2 < 1 /\
      gmix.get_T self = inr T.
Proof.
  intros self Hne Hp Hpd.
  destruct (weighted_moments_positive self Hne Hp Hpd) as (Hps & Ha & Hd).
  set (ps := psum_of self) in *.
  set (A := irrsum_of self) in *.
  set (B := ircsum_of self) in *.
  set (C := iccsum_of self) in *.
  assert (HC : 0 < C).
  { destruct (Rlt_dec 0 C) as [H | H]; [exact H | exfalso].
    assert (A * C <= 0) by (apply Rnot_lt_le in H; nra).
    pose proof (Rle_0_sqr B) as HB. unfold Rsqr in HB. lra. }
  assert (Hips : 0 < 1 / ps) by (apply Rdiv_lt_0_compat; lra).
  set (T := A * (1 / ps) + C * (1 / ps)).
  assert (HT : 0 < T).
  { unfold T. apply Rplus_lt_0_compat; now apply Rmult_lt_0_compat. }
  exists ((C * (1 / ps) - A * (1 / ps)) / T), (2 * (B * (1 / ps)) / T), T.
  assert (Hval : gmix.get_e1e2T self
                 = inr ((C * (1 / ps) - A * (1 / ps)) / T,
                        2 * (B * (1 / ps)) / T, T)).
  { unfold gmix.get_e1e2T, gmix._get_e1e2T.
    rewrite fold_e1e2T_sums, !Rplus_0_l.
    fold ps A B C. unfold fdiv at 1.
    destruct (Req_dec_T ps 0) as [E | _]; [lra |].
    cbv zeta. fold T.
    destruct (Rgt_dec T 0) as [_ | Hn]; [| unfold Rgt in Hn; lra].
    unfold fdiv.
    destruct (Req_dec_T T 0) as [E | _]; [lra | reflexivity]. }
  split; [exact Hval |]. split; [exact HT |]. split.
  - assert (HT0 : T <> 0) by lra.
    assert (Hps0 : ps <> 0) by lra.
    replace ((C * (1 / ps) - A * (1 / ps)) / T
             * ((C * (1 / ps) - A * (1 / ps)) / T)
             + 2 * (B * (1 / ps)) / T * (2 * (B * (1 / ps)) / T))
      with (1 - 4 * (A * C - B * B) * (1 / ps) * (1 / ps) / (T * T))
      by (unfold T; field; split; [lra |];
          replace (A * (1 / ps) + C * (1 / ps)) with T by reflexivity;
          lra).
    assert (0 < 4 * (A * C - B * B) * (1 / ps) * (1 / ps) / (T * T)).
    { apply Rdiv_lt_0_compat.
      - repeat apply Rmult_lt_0_compat; lra.
      - now apply Rmult_lt_0_compat. }
    lra.
  - rewrite get_T_ok by (fold ps; lra). fold ps. f_equal.
    rewrite Tsum_of_moment_sums. fold A C. unfold T. field. lra.
Qed.

Lemma get_e1e2T_bounded_witness :
  exists e1 e2 T : R,
    gmix.get_e1e2T [unit_gauss] = inr (e1, e2, T) /\
    0 < T /\
    e1 * e1 + e2 * e2 < 1 /\
    gmix.get_T [unit_gauss] = inr T.
Proof.
  apply (get_e1e2T_bounded [unit_gauss]).
  - discriminate.
  - constructor; [| constructor]. unfold unit_gauss, stored. cbn. lra.
  - constructor; [apply unit_gauss_positive_definite | constructor].
Defined.

Lemma scale_sums (rat : R) (l : list gmix.gauss2d) :
  psum_of (gmix.scale_p rat <$> l) = rat * psum_of l /\
  rowsum_of (gmix.scale_p rat <$> l) = rat * rowsum_of l /\
  colsum_of (gmix.scale_p rat <$> l) = rat * colsum_of l /\
  Tsum_of (gmix.scale_p rat <$> l) = rat * Tsum_of l.
Proof.
  unfold psum_of, rowsum_of, colsum_of, Tsum_of.
  induction l as [| g l (IHp & IHr & IHc & IHT)].
  - cbn. repeat split; ring.
  - rewrite !fmap_cons, !Rsum_cons, IHp, IHr, IHc, IHT.
    cbn [gmix.scale_p gmix.p gmix.row gmix.col gmix.irr gmix.icc].
    repeat split; ring.
Qed.

(** X9. [GMix.set_psum(psum)] on a mixture of non-zero total flux rescales
    every amplitude by the same factor [psum/psum0], so that [get_psum()]
    then returns [psum]; it keeps [pnorm = p*norm] in every component and,
    for [psum] not zero, leaves [get_cen()] and [get_T()] as they were. *)
Theorem set_psum_then_get_psum :
  forall (self : list gmix.gauss2d) (psum : R),
    gmix.get_psum self <> 0 ->
    exists self' : list gmix.gauss2d,
      gmix.set_psum psum self = Some self' /\
      self' = gmix.scale_p (psum / gmix.get_psum self) <$> self /\
      gmix.get_psum self' = psum /\
      Forall (fun g => gmix.pnorm g = gmix.p g * gmix.norm g) self' /\
      (psum <> 0 ->
       gmix.get_cen self' = gmix.get_cen self /\
       gmix.get_T self' = gmix.get_T self).
Proof.
  intros self psum Hflux.
  exists (gmix.scale_p (psum / gmix.get_psum self) <$> self).
  split.
  { unfold gmix.set_psum.
    destruct (Req_dec_T (gmix.get_psum self) 0) as [E | _];
      [contradiction | reflexivity]. }
  split; [reflexivity |].
  rewrite (get_psum_sum self) in *.
  destruct (scale_sums (psum / psum_of self) self) as (Hp & Hr & Hc & HT).
  split; [| split].
  - rewrite get_psum_sum, Hp. field. exact Hflux.
  - apply Forall_fmap, Forall_forall. intros g _. reflexivity.
  - intros Hpsum.
    assert (Hrat : psum / psum_of self <> 0).
    { unfold Rdiv. apply Rmult_integral_contrapositive_currified;
        [exact Hpsum | now apply Rinv_neq_0_compat]. }
    assert (Hnew : psum_of (gmix.scale_p (psum / psum_of self) <$> self) <> 0).
    { rewrite Hp. now apply Rmult_integral_contrapositive_currified. }
    split.
    + rewrite (get_cen_of_sums _ Hnew), (get_cen_of_sums _ Hflux).
      rewrite Hp, Hr, Hc. f_equal. f_equal; field; split; assumption.
    + rewrite (get_T_ok _ Hnew), (get_T_ok _ Hflux).
      rewrite Hp, HT. f_equal. field. split; assumption.
Qed.

Lemma set_psum_then_get_psum_witness :
  exists self' : list gmix.gauss2d,
    gmix.set_psum 3 [unit_gauss] = Some self' /\
    self' = gmix.scale_p (3 / gmix.get_psum [unit_gauss]) <$> [unit_gauss] /\
    gmix.get_psum self' = 3 /\
    Forall (fun g => gmix.pnorm g = gmix.p g * gmix.norm g) self' /\
    (3 <> 0 ->
     gmix.get_cen self' = gmix.get_cen [unit_gauss] /\
     gmix.get_T self' = gmix.get_T [unit_gauss]).
Proof.
  apply (set_psum_then_get_psum [unit_gauss] 3).
  rewrite get_psum_sum, psum_unit_gauss. lra.
Defined.

(** ** The simple models *)

Lemma fill_simple_loop_body (g1g2_to_e1e2 : R -> R -> result (R * R))
  (row col g1 g2 T counts e1 e2 : R) (fvals pvals : list R)
  (self : list gmix.gauss2d) :
  g1g2_to_e1e2 g1 g2 = inr (e1, e2) ->
  gmix._fill_simple g1g2_to_e1e2 [row; col; g1; g2; T; counts] fvals pvals
    self
  = foldM (simple_body row col T counts e1 e2 fvals pvals)
      (seq 0 (length self)) tt self.
Proof.
  intros He. unfold gmix._fill_simple, bind, lift, gmix.getitem.
  cbn [lookup list_lookup]. rewrite He. reflexivity.
Qed.

Lemma simple_det (T e1 e2 fval : R) :
  (T * fval / 2) * (1 - e1) * ((T * fval / 2) * (1 + e1))
  - (T * fval / 2) * e2 * ((T * fval / 2) * e2)
  = (T * fval / 2) * (T * fval / 2) * (1 - (e1 * e1 + e2 * e2)).
Proof. field. Qed.

Lemma simple_det_pos (T e1 e2 fval : R) :
  0 < fval -> T <> 0 -> e1 * e1 + e2 * e2 < 1 ->
  0 < (T * fval / 2) * (1 - e1) * ((T * fval / 2) * (1 + e1))
      - (T * fval / 2) * e2 * ((T * fval / 2) * e2).
Proof.
  intros Hf HT He. rewrite simple_det.
  apply Rmult_lt_0_compat; [| lra].
  assert (Hne : T * fval / 2 <> 0).
  { unfold Rdiv. repeat apply Rmult_integral_contrapositive_currified;
      lra. }
  pose proof (Rsqr_pos_lt _ Hne) as H. unfold Rsqr in H. exact H.
Qed.

Lemma simple_det_nonpos (T e1 e2 fval : R) :
  T = 0 \/ 1 <= e1 * e1 + e2 * e2 ->
  (T * fval / 2) * (1 - e1) * ((T * fval / 2) * (1 + e1))
  - (T * fval / 2) * e2 * ((T * fval / 2) * e2) <= 0.
Proof.
  intros H. rewrite simple_det. destruct H as [-> | H].
  - replace (0 * fval / 2) with 0 by field. lra.
  - pose proof (Rle_0_sqr (T * fval / 2)) as Hsq. unfold Rsqr in Hsq.
    replace (T * fval / 2 * (T * fval / 2) * (1 - (e1 * e1 + e2 * e2)))
      with (- (T * fval / 2 * (T * fval / 2)
               * ((e1 * e1 + e2 * e2) - 1))) by ring.
    assert (0 <= T * fval / 2 * (T * fval / 2)
                 * ((e1 * e1 + e2 * e2) - 1))
      by (apply Rmult_le_pos; lra).
    lra.
Qed.

Lemma simple_loop (row col T counts e1 e2 : R) (fvals pvals : list R)
  (n : nat) :
  T <> 0 -> e1 * e1 + e2 * e2 < 1 -> Forall (fun f => 0 < f) fvals ->
  forall (k : nat) (pre mid post : list gmix.gauss2d),
    length pre = k -> length mid = n ->
    (k + n <= length fvals)%nat -> (k + n <= length pvals)%nat ->
    foldM (simple_body row col T counts e1 e2 fvals pvals) (seq k n) tt
      (pre ++ mid ++ post)
    = (inr tt,
       pre ++ zip_with (simple_component row col T counts e1 e2)
                (take n (drop k fvals)) (take n (drop k pvals)) ++ post).
Proof.
  intros HT He Hf.
  induction n as [| n IH]; intros k pre mid post Hpre Hmid Hkf Hkp.
  - destruct mid; [| discriminate]. reflexivity.
  - destruct mid as [| m mid]; [discriminate |].
    destruct (lookup_lt_is_Some_2 fvals k ltac:(lia)) as [f Hfk].
    destruct (lookup_lt_is_Some_2 pvals k ltac:(lia)) as [pv Hpk].
    assert (Hfpos : 0 < f).
    { rewrite Forall_forall in Hf. apply Hf.
      eapply list_elem_of_lookup_2. exact Hfk. }
    cbn [seq foldM]. unfold bind at 1.
    unfold simple_body at 1, bind, lift, gmix.getitem.
    rewrite Hfk, Hpk. cbv zeta.
    rewrite gauss2d_set_ok;
      [| now apply simple_det_pos | rewrite length_app; cbn; lia].
    cbn [app]. rewrite <- Hpre, insert_middle.
    fold (simple_component row col T counts e1 e2 f pv).
    replace (pre ++ simple_component row col T counts e1 e2 f pv
                 :: mid ++ post)
      with ((pre ++ [simple_component row col T counts e1 e2 f pv])
              ++ mid ++ post)
      by (rewrite <- app_assoc; reflexivity).
    rewrite (IH (S (length pre))
               (pre ++ [simple_component row col T counts e1 e2 f pv])
               mid post).
    + rewrite (drop_S fvals f (length pre)) by (rewrite Hpre; exact Hfk).
      rewrite (drop_S pvals pv (length pre)) by (rewrite Hpre; exact Hpk).
      cbn [take zip_with]. rewrite <- app_assoc. reflexivity.
    + rewrite length_app. cbn. lia.
    + cbn in Hmid. lia.
    + lia.
    + lia.
Qed.

(** X10. [_fill_simple] with a table [fvals] of positive entries (as all
    four model tables are) and parameters [[row, col, g1, g2, T, counts]]
    whose shear converts to [(e1, e2)]: the fill of a non-empty mixture
    returns exactly when [T <> 0] and [e1^2 + e2^2 < 1], and raises
    [GMixRangeError] otherwise.  A negative [T] is therefore accepted.  After
    a fill that returned, component [i] sits at [(row, col)], has amplitude
    [counts*pvals[i]] and moments [T*fvals[i]/2*(1-e1)], [T*fvals[i]/2*e2],
    [T*fvals[i]/2*(1+e1)], so that [irr + icc = T*fvals[i]]. *)
Theorem fill_simple_succeeds_iff :
  forall (g1g2_to_e1e2 : R -> R -> result (R * R))
         (row col g1 g2 T counts e1 e2 : R) (fvals pvals : list R)
         (self : list gmix.gauss2d),
    g1g2_to_e1e2 g1 g2 = inr (e1, e2) ->
    Forall (fun f => 0 < f) fvals ->
    (0 < length self <= length fvals)%nat ->
    (length self <= length pvals)%nat ->
    let out :=
      gmix._fill_simple g1g2_to_e1e2 [row; col; g1; g2; T; counts]
        fvals pvals self in
    (out.1 = inr tt <-> T <> 0 /\ e1 * e1 + e2 * e2 < 1) /\
    (out.1 = inr tt \/ out.1 = inl GMixRangeError) /\
    (out.1 = inr tt ->
     out.2 = zip_with (simple_component row col T counts e1 e2)
               (take (length self) fvals) (take (length self) pvals) /\
     Forall (fun g => gmix.row g = row /\ gmix.col g = col) out.2 /\
     Forall2 (fun g f => gmix.irr g + gmix.icc g = T * f)
             out.2 (take (length self) fvals)).
Proof.
  intros g1g2 row col g1 g2 T counts e1 e2 fvals pvals self Hshape Hf
         Hlenf Hlenp out.
  subst out. rewrite (fill_simple_loop_body g1g2 row col g1 g2 T counts e1 e2)
    by exact Hshape.
  destruct (Req_dec_T T 0) as [HT | HT];
    [| destruct (Rlt_dec (e1 * e1 + e2 * e2) 1) as [He | He]].
  - (* T = 0: the first component is refused *)
    assert (Hbad : (foldM (simple_body row col T counts e1 e2 fvals pvals)
                      (seq 0 (length self)) tt self).1
                   = inl GMixRangeError).
    { destruct self as [| s0 self]; [cbn in Hlenf; lia |].
      destruct (lookup_lt_is_Some_2 fvals 0 ltac:(cbn in Hlenf; lia))
        as [f Hf0].
      destruct (lookup_lt_is_Some_2 pvals 0 ltac:(cbn in Hlenp; lia))
        as [pv Hp0].
      cbn [length seq foldM]. unfold bind at 1.
      unfold simple_body at 1, bind, lift, gmix.getitem.
      rewrite Hf0, Hp0. cbv zeta.
      rewrite gauss2d_set_raises; [reflexivity |].
      apply simple_det_nonpos. now left. }
    rewrite Hbad. split; [split; [discriminate | tauto] |].
    split; [now right | discriminate].
  - (* the fill returns *)
    pose proof (simple_loop row col T counts e1 e2 fvals pvals (length self)
                  HT He Hf 0 [] self [] eq_refl eq_refl
                  ltac:(cbn; lia) ltac:(cbn; lia)) as Hloop.
    cbn [app] in Hloop. rewrite !app_nil_r, !drop_0 in Hloop.
    rewrite Hloop. cbn [fst snd].
    split; [split; [intros _; split; assumption | reflexivity] |].
    split; [now left |]. intros _. split; [reflexivity |].
    split.
    + apply Forall_forall. intros g Hin.
      apply list_elem_of_lookup in Hin. destruct Hin as [i Hi].
      apply lookup_zip_with_Some in Hi.
      destruct Hi as (f & pv & -> & _ & _). split; reflexivity.
    + apply Forall2_same_length_lookup_2.
      * rewrite length_zip_with, !length_take. lia.
      * intros i g f Hi Hfi.
        apply lookup_zip_with_Some in Hi.
        destruct Hi as (f' & pv & -> & Hf' & _).
        rewrite Hfi in Hf'. injection Hf' as <-.
        unfold simple_component, stored. cbn. field.
  - (* the ellipticity is out of range: the first component is refused *)
    assert (Hbad : (foldM (simple_body row col T counts e1 e2 fvals pvals)
                      (seq 0 (length self)) tt self).1
                   = inl GMixRangeError).
    { destruct self as [| s0 self]; [cbn in Hlenf; lia |].
      destruct (lookup_lt_is_Some_2 fvals 0 ltac:(cbn in Hlenf; lia))
        as [f Hf0].
      destruct (lookup_lt_is_Some_2 pvals 0 ltac:(cbn in Hlenp; lia))
        as [pv Hp0].
      cbn [length seq foldM]. unfold bind at 1.
      unfold simple_body at 1, bind, lift, gmix.getitem.
      rewrite Hf0, Hp0. cbv zeta.
      rewrite gauss2d_set_raises; [reflexivity |].
      apply simple_det_nonpos. right. lra. }
    rewrite Hbad. split; [split; [discriminate | tauto] |].
    split; [now right | discriminate].
Qed.

Lemma fill_simple_succeeds_iff_witness :
  let out :=
    gmix._fill_exp (fun _ _ => inr (0, 0)) [0; 0; 0; 0; 4; 1]
      (gmix.GMix_new 6) in
  (out.1 = inr tt <-> 4 <> 0 /\ 0 * 0 + 0 * 0 < 1) /\
  (out.1 = inr tt \/ out.1 = inl GMixRangeError) /\
  (out.1 = inr tt ->
   out.2 = zip_with (simple_component 0 0 4 1 0 0)
             (take 6 gmix._exp_fvals) (take 6 gmix._exp_pvals) /\
   Forall (fun g => gmix.row g = 0 /\ gmix.col g = 0) out.2 /\
   Forall2 (fun g f => gmix.irr g + gmix.icc g = 4 * f)
           out.2 (take 6 gmix._exp_fvals)).
Proof.
  apply (fill_simple_succeeds_iff (fun _ _ => inr (0, 0)) 0 0 0 0 4 1 0 0
           gmix._exp_fvals gmix._exp_pvals (gmix.GMix_new 6)).
  - reflexivity.
  - unfold gmix._exp_fvals. repeat constructor; lra.
  - cbn. lia.
  - cbn. lia.
Defined.

(** ** The likelihood kernels *)

Lemma gauss_eval_total (g : gmix.gauss2d) (u v : R) :
  exists t : R,
    gmix.gauss_eval_fast3 (-26) gmix._exp3_lookup g u v = inr t.
Proof.
  pose proof (gauss_eval_fast3_in_domain g u v) as Hdom.
  cbv zeta in Hdom.
  unfold gmix.gauss_eval_fast3 in *.
  set (chi2 := gmix.dcc g * (u * u) + gmix.drr g * (v * v)
               - 2 * gmix.drc g * (u * v)) in *.
  destruct (Rlt_dec chi2 25) as [Hlt | _]; [| now exists 0].
  destruct (Rge_dec chi2 0) as [Hge | _]; [| now exists 0].
  destruct (Hdom ltac:(lra)) as (expval & _ & Hval).
  eexists. exact Hval.
Qed.

Lemma model_loop_total (self : list gmix.gauss2d) (f : gmix.gauss2d -> R * R) :
  forall acc : R,
    exists m : R,
      foldM (S := unit)
        (fun model_val g =>
           let* term :=
             lift (gmix.gauss_eval_fast3 (-26) gmix._exp3_lookup g
                     (f g).1 (f g).2) in
           ret (model_val + term))
        self acc tt
      = (inr m, tt).
Proof.
  induction self as [| g self IH]; intros acc; [now exists acc |].
  cbn [foldM]. unfold bind at 1, bind at 1, lift at 1.
  destruct (gauss_eval_total g (f g).1 (f g).2) as [t ->].
  unfold ret at 1. apply IH.
Qed.

Lemma getitem2_ok (a : list (list R)) (ncols row col : nat) :
  Forall (fun r => length r = ncols) a ->
  (row < length a)%nat -> (col < ncols)%nat ->
  exists x : R, gmix.getitem2 a row col = inr x.
Proof.
  intros Hrect Hrow Hcol. unfold gmix.getitem2, gmix.getitem.
  destruct (lookup_lt_is_Some_2 a row Hrow) as [r Hr]. rewrite Hr.
  assert (Hlen : length r = ncols).
  { rewrite Forall_forall in Hrect. apply Hrect.
    eapply list_elem_of_lookup_2. exact Hr. }
  destruct (lookup_lt_is_Some_2 r col ltac:(lia)) as [x Hx].
  rewrite Hx. now exists x.
Qed.

(** The loop over the columns of [_loglike_fast3], on a row inside both
    arrays: it returns, and keeps the two sums of squares non-negative. *)
Lemma loglike_cols_total (self : list gmix.gauss2d)
  (image weight : list (list R)) (ncols row_ : nat) (cols : list nat) :
  Forall (fun r => length r = ncols) image ->
  Forall (fun r => length r = ncols) weight ->
  (row_ < length image)%nat -> (row_ < length weight)%nat ->
  Forall (fun c => (c < ncols)%nat) cols ->
  forall loglike s2n_numer s2n_denom : R,
    0 <= loglike -> 0 <= s2n_denom ->
    exists l' n' d' : R,
      foldM (S := unit)
        (fun '(loglike, s2n_numer, s2n_denom) col_ =>
           let* ivar := lift (gmix.getitem2 weight row_ col_) in
           if Rle_dec ivar 0 then ret (loglike, s2n_numer, s2n_denom)
           else
             let* model_val :=
               foldM (fun model_val g =>
                 let u := INR row_ - gmix.row g in
                 let v := INR col_ - gmix.col g in
                 let* term :=
                   lift (gmix.gauss_eval_fast3 (-26) gmix._exp3_lookup
                           g u v) in
                 ret (model_val + term))
                 self 0 in
             let* pixval := lift (gmix.getitem2 image row_ col_) in
             let diff := model_val - pixval in
             ret (loglike + diff * diff * ivar,
                  s2n_numer + pixval * model_val * ivar,
                  s2n_denom + model_val * model_val * ivar))
        cols (loglike, s2n_numer, s2n_denom) tt
      = (inr (l', n', d'), tt) /\ 0 <= l' /\ 0 <= d'.
Proof.
  intros Himg Hwt Hri Hrw Hcols.
  induction Hcols as [| c cols Hc Hcols IH]; intros l n d Hl Hd.
  - exists l, n, d. now repeat split.
  - cbn [foldM]. unfold bind at 1, bind at 1, lift at 1.
    destruct (getitem2_ok weight ncols row_ c Hwt Hrw Hc) as [ivar ->].
    destruct (Rle_dec ivar 0) as [Hmask | Hpos].
    + unfold ret at 1. now apply IH.
    + unfold bind at 1.
      destruct (model_loop_total self
                  (fun g => (INR row_ - gmix.row g, INR c - gmix.col g)) 0)
        as [m Hm].
      cbn [fst snd] in Hm. cbv zeta. rewrite Hm.
      unfold bind at 1, lift at 1.
      destruct (getitem2_ok image ncols row_ c Himg Hri Hc) as [pix ->].
      unfold ret at 1. apply IH.
      * assert (0 <= (m - pix) * (m - pix) * ivar)
          by (apply Rmult_le_pos; [apply Rle_0_sqr | lra]).
        lra.
      * assert (0 <= m * m * ivar)
          by (apply Rmult_le_pos; [apply Rle_0_sqr | lra]).
        lra.
Qed.

Lemma loglike_rows_total (self : list gmix.gauss2d)
  (image weight : list (list R)) (ncols : nat) (rows : list nat) :
  Forall (fun r => length r = ncols) image ->
  Forall (fun r => length r = ncols) weight ->
  Forall (fun r => (r < length image)%nat /\ (r < length weight)%nat) rows ->
  forall loglike s2n_numer s2n_denom : R,
    0 <= loglike -> 0 <= s2n_denom ->
    exists l' n' d' : R,
      foldM (S := unit)
        (fun acc row_ =>
           foldM (fun '(loglike, s2n_numer, s2n_denom) col_ =>
             let* ivar := lift (gmix.getitem2 weight row_ col_) in
             if Rle_dec ivar 0 then ret (loglike, s2n_numer, s2n_denom)
             else
               let* model_val :=
                 foldM (fun model_val g =>
                   let u := INR row_ - gmix.row g in
                   let v := INR col_ - gmix.col g in
                   let* term :=
                     lift (gmix.gauss_eval_fast3 (-26) gmix._exp3_lookup
                             g u v) in
                   ret (model_val + term))
                   self 0 in
               let* pixval := lift (gmix.getitem2 image row_ col_) in
               let diff := model_val - pixval in
               ret (loglike + diff * diff * ivar,
                    s2n_numer + pixval * model_val * ivar,
                    s2n_denom + model_val * model_val * ivar))
             (seq 0 ncols) acc)
        rows (loglike, s2n_numer, s2n_denom) tt
      = (inr (l', n', d'), tt) /\ 0 <= l' /\ 0 <= d'.
Proof.
  intros Himg Hwt Hrows.
  induction Hrows as [| r rows [Hri Hrw] Hrows IH]; intros l n d Hl Hd.
  - exists l, n, d. now repeat split.
  - rewrite foldM_cons. cbv beta.
    destruct (loglike_cols_total self image weight ncols r (seq 0 ncols)
                Himg Hwt Hri Hrw
                ltac:(apply Forall_forall; intros c Hc;
                      apply elem_of_seq in Hc; lia)
                l n d Hl Hd) as (l1 & n1 & d1 & Hrun & Hl1 & Hd1).
    rewrite Hrun. now apply IH.
Qed.

Lemma head_length (a : list (list R)) (ncols : nat) :
  Forall (fun r => length r = ncols) a -> a <> [] ->
  length (default [] (head a)) = ncols.
Proof.
  intros H Hne. destruct a as [| r a]; [contradiction |].
  cbn. now inversion H.
Qed.

Lemma loglike_fast3_total (self : list gmix.gauss2d)
  (image weight : list (list R)) (ncols : nat) :
  Forall (fun r => length r = ncols) image ->
  Forall (fun r => length r = ncols) weight ->
  length weight = length image ->
  exists loglike s2n_numer s2n_denom : R,
    gmix._loglike_fast3 self image weight (-26) gmix._exp3_lookup
    = inr (loglike, s2n_numer, s2n_denom) /\
    loglike <= 0 /\ 0 <= s2n_denom.
Proof.
  intros Himg Hwt Hlen. unfold gmix._loglike_fast3.
  destruct image as [| r0 image].
  { cbn. exists (0 * -0.5), 0, 0. repeat split; lra. }
  rewrite (head_length (r0 :: image) ncols Himg) by discriminate.
  destruct (loglike_rows_total self (r0 :: image) weight ncols
              (seq 0 (length (r0 :: image))) Himg Hwt
              ltac:(apply Forall_forall; intros c Hc;
                    apply elem_of_seq in Hc; lia)
              0 0 0 ltac:(lra) ltac:(lra))
    as (l & n & d & Hrun & Hl & Hd).
  cbv zeta in Hrun |- *. rewrite Hrun.
  exists (l * -0.5), n, d. repeat split; [lra | exact Hd].
Qed.

(** The same for the loop over the columns of [_loglike_jacob_fast3]. *)
Lemma loglike_jacob_cols_total (self : list gmix.gauss2d)
  (image weight : list (list R)) (j : jacobian._jacobian)
  (ncols row_ : nat) (cols : list nat) :
  Forall (fun r => length r = ncols) image ->
  Forall (fun r => length r = ncols) weight ->
  (row_ < length image)%nat -> (row_ < length weight)%nat ->
  Forall (fun c => (c < ncols)%nat) cols ->
  forall loglike s2n_numer s2n_denom u v : R,
    0 <= loglike -> 0 <= s2n_denom ->
    exists l' n' d' u' v' : R,
      foldM (S := unit)
        (fun '(loglike, s2n_numer, s2n_denom, u, v) col_ =>
           let* ivar := lift (gmix.getitem2 weight row_ col_) in
           if Rle_dec ivar 0 then ret (loglike, s2n_numer, s2n_denom, u, v)
           else
             let* model_val :=
               foldM (fun model_val g =>
                 let udiff := u - gmix.row g in
                 let vdiff := v - gmix.col g in
                 let* term :=
                   lift (gmix.gauss_eval_fast3 (-26) gmix._exp3_lookup
                           g udiff vdiff) in
                 ret (model_val + term))
                 self 0 in
             let* pixval := lift (gmix.getitem2 image row_ col_) in
             let diff := model_val - pixval in
             ret (loglike + diff * diff * ivar,
                  s2n_numer + pixval * model_val * ivar,
                  s2n_denom + model_val * model_val * ivar,
                  u + jacobian.dudcol j,
                  v + jacobian.dvdcol j))
        cols (loglike, s2n_numer, s2n_denom, u, v) tt
      = (inr (l', n', d', u', v'), tt) /\ 0 <= l' /\ 0 <= d'.
Proof.
  intros Himg Hwt Hri Hrw Hcols.
  induction Hcols as [| c cols Hc Hcols IH]; intros l n d u v Hl Hd.
  - exists l, n, d, u, v. now repeat split.
  - cbn [foldM]. unfold bind at 1, bind at 1, lift at 1.
    destruct (getitem2_ok weight ncols row_ c Hwt Hrw Hc) as [ivar ->].
    destruct (Rle_dec ivar 0) as [Hmask | Hpos].
    + unfold ret at 1. now apply IH.
    + unfold bind at 1.
      destruct (model_loop_total self
                  (fun g => (u - gmix.row g, v - gmix.col g)) 0)
        as [m Hm].
      cbn [fst snd] in Hm. cbv zeta. rewrite Hm.
      unfold bind at 1, lift at 1.
      destruct (getitem2_ok image ncols row_ c Himg Hri Hc) as [pix ->].
      unfold ret at 1. apply IH.
      * assert (0 <= (m - pix) * (m - pix) * ivar)
          by (apply Rmult_le_pos; [apply Rle_0_sqr | lra]).
        lra.
      * assert (0 <= m * m * ivar)
          by (apply Rmult_le_pos; [apply Rle_0_sqr | lra]).
        lra.
Qed.

Lemma loglike_jacob_fast3_total (self : list gmix.gauss2d)
  (image weight : list (list R)) (j : jacobian._jacobian) (ncols : nat) :
  Forall (fun r => length r = ncols) image ->
  Forall (fun r => length r = ncols) weight ->
  length weight = length image ->
  exists loglike s2n_numer s2n_denom : R,
    gmix._loglike_jacob_fast3 self image weight j (-26) gmix._exp3_lookup
    = inr (loglike, s2n_numer, s2n_denom) /\
    loglike <= 0 /\ 0 <= s2n_denom.
Proof.
  intros Himg Hwt Hlen. unfold gmix._loglike_jacob_fast3.
  destruct image as [| r0 image].
  { cbn. exists (0 * -0.5), 0, 0. repeat split; lra. }
  rewrite (head_length (r0 :: image) ncols Himg) by discriminate.
  assert (Hrows : Forall (fun r => (r < length (r0 :: image))%nat
                                   /\ (r < length weight)%nat)
                         (seq 0 (length (r0 :: image))))
    by (apply Forall_forall; intros c Hc; apply elem_of_seq in Hc; lia).
  assert (Hloop : forall (rows : list nat),
             Forall (fun r => (r < length (r0 :: image))%nat
                              /\ (r < length weight)%nat) rows ->
             forall l n d : R, 0 <= l -> 0 <= d ->
             exists l' n' d' : R,
               foldM (S := unit)
                 (fun '(loglike, s2n_numer, s2n_denom) row_ =>
                    let u := jacobian.dudrow j * (INR row_ - jacobian.row0 j)
                             + jacobian.dudcol j * (0 - jacobian.col0 j) in
                    let v := jacobian.dvdrow j * (INR row_ - jacobian.row0 j)
                             + jacobian.dvdcol j * (0 - jacobian.col0 j) in
                    let* (loglike, s2n_numer, s2n_denom, _, _) :=
                      foldM (fun '(loglike, s2n_numer, s2n_denom, u, v) col_ =>
                        let* ivar :=
                          lift (gmix.getitem2 weight row_ col_) in
                        if Rle_dec ivar 0
                        then ret (loglike, s2n_numer, s2n_denom, u, v)
                        else
                          let* model_val :=
                            foldM (fun model_val g =>
                              let udiff := u - gmix.row g in
                              let vdiff := v - gmix.col g in
                              let* term :=
                                lift (gmix.gauss_eval_fast3 (-26)
                                        gmix._exp3_lookup g udiff vdiff) in
                              ret (model_val + term))
                              self 0 in
                          let* pixval :=
                            lift (gmix.getitem2 (r0 :: image) row_ col_) in
                          let diff := model_val - pixval in
                          ret (loglike + diff * diff * ivar,
                               s2n_numer + pixval * model_val * ivar,
                               s2n_denom + model_val * model_val * ivar,
                               u + jacobian.dudcol j,
                               v + jacobian.dvdcol j))
                        (seq 0 ncols)
                        (loglike, s2n_numer, s2n_denom, u, v) in
                    ret (loglike, s2n_numer, s2n_denom))
                 rows (l, n, d) tt
               = (inr (l', n', d'), tt) /\ 0 <= l' /\ 0 <= d').
  { intros rows Hr.
    induction Hr as [| r rows [Hri Hrw] Hr IH]; intros l n d Hl Hd.
    - exists l, n, d. now repeat split.
    - rewrite foldM_cons. cbv beta zeta. unfold bind at 1.
      destruct (loglike_jacob_cols_total self (r0 :: image) weight j ncols r
                  (seq 0 ncols) Himg Hwt Hri Hrw
                  ltac:(apply Forall_forall; intros c Hc;
                        apply elem_of_seq in Hc; lia)
                  l n d
                  (jacobian.dudrow j * (INR r - jacobian.row0 j)
                   + jacobian.dudcol j * (0 - jacobian.col0 j))
                  (jacobian.dvdrow j * (INR r - jacobian.row0 j)
                   + jacobian.dvdcol j * (0 - jacobian.col0 j))
                  Hl Hd) as (l1 & n1 & d1 & u1 & v1 & Hrun & Hl1 & Hd1).
      cbv zeta in Hrun. rewrite Hrun. unfold ret at 1. now apply IH. }
  destruct (Hloop _ Hrows 0 0 0 ltac:(lra) ltac:(lra))
    as (l & n & d & Hrun & Hl & Hd).
  cbv zeta in Hrun |- *. rewrite Hrun.
  exists (l * -0.5), n, d. repeat split; [lra | exact Hd].
Qed.

(** X11. [GMix.get_loglike] on an image and a weight map of one and the
    same rectangular shape, with or without a Jacobian, for any mixture:
    the call returns (no table lookup of the fast exponential and no pixel
    access falls outside its array), the log-likelihood is never positive,
    and [s2n_denom] is never negative.  With [get_s2nsums=False] the value
    returned is the log-likelihood alone. *)
Theorem get_loglike_returns_nonpositive :
  forall (self : list gmix.gauss2d) (image weight : list (list R))
         (jacobian : option jacobian.Jacobian) (ncols : nat),
    Forall (fun r => length r = ncols) image ->
    Forall (fun r => length r = ncols) weight ->
    length weight = length image ->
    exists loglike s2n_numer s2n_denom : R,
      gmix.get_loglike self image weight jacobian true
      = inr (inr (loglike, s2n_numer, s2n_denom)) /\
      gmix.get_loglike self image weight jacobian false
      = inr (inl loglike) /\
      loglike <= 0 /\ 0 <= s2n_denom.
Proof.
  intros self image weight jac ncols Himg Hwt Hlen.
  assert (Hsize : length (concat image) = length (concat weight)).
  { clear self jac. revert weight Hwt Hlen.
    induction Himg as [| r image Hr Himg IH]; intros weight Hwt Hlen.
    - destruct weight; [reflexivity | discriminate].
    - destruct weight as [| w weight]; [discriminate |].
      inversion Hwt as [| ? ? Hw Hwt']; subst.
      cbn [concat]. rewrite !length_app, Hw.
      f_equal. apply IH; [exact Hwt' |]. cbn in Hlen. lia. }
  unfold gmix.get_loglike.
  case_decide as Hne; [contradiction |].
  change (default 0%Z (head gmix._exp3_ivals)) with (-26)%Z.
  destruct jac as [jac |].
  - destruct (loglike_jacob_fast3_total self image weight
                (jacobian._data jac) ncols Himg Hwt Hlen)
      as (l & n & d & -> & Hl & Hd).
    exists l, n, d. now repeat split.
  - destruct (loglike_fast3_total self image weight ncols Himg Hwt Hlen)
      as (l & n & d & -> & Hl & Hd).
    exists l, n, d. now repeat split.
Qed.

Lemma get_loglike_returns_nonpositive_witness :
  exists loglike s2n_numer s2n_denom : R,
    gmix.get_loglike [unit_gauss] [[1; 0]; [0; 0]] [[1; 1]; [1; 0]]
      (Some (jacobian.UnitJacobian 0 0)) true
    = inr (inr (loglike, s2n_numer, s2n_denom)) /\
    gmix.get_loglike [unit_gauss] [[1; 0]; [0; 0]] [[1; 1]; [1; 0]]
      (Some (jacobian.UnitJacobian 0 0)) false
    = inr (inl loglike) /\
    loglike <= 0 /\ 0 <= s2n_denom.
Proof.
  apply (get_loglike_returns_nonpositive [unit_gauss]
           [[1; 0]; [0; 0]] [[1; 1]; [1; 0]]
           (Some (jacobian.UnitJacobian 0 0)) 2).
  - repeat constructor.
  - repeat constructor.
  - reflexivity.
Defined.

Lemma loglike_fast3_loops (self : list gmix.gauss2d)
  (image weight : list (list R)) (i0 : Z) (expvals : list R) :
  gmix._loglike_fast3 self image weight i0 expvals
  = match foldM (fun acc row_ =>
             foldM (loglike_cols self image weight i0 expvals row_)
               (seq 0 (length (default [] (head image)))) acc)
          (seq 0 (length image)) (0, 0, 0) tt with
    | (inr (loglike, s2n_numer, s2n_denom), _) =>
        inr (loglike * -0.5, s2n_numer, s2n_denom)
    | (inl e, _) => inl e
    end.
Proof. reflexivity. Qed.

Lemma loglike_jacob_fast3_loops (self : list gmix.gauss2d)
  (image weight : list (list R)) (j : jacobian._jacobian)
  (i0 : Z) (expvals : list R) :
  gmix._loglike_jacob_fast3 self image weight j i0 expvals
  = match foldM (fun '(loglike, s2n_numer, s2n_denom) row_ =>
             fun s =>
               drop_uv
                 (foldM (loglike_jacob_cols self image weight j i0 expvals
                           row_)
                    (seq 0 (length (default [] (head image))))
                    (loglike, s2n_numer, s2n_denom,
                     jacobian.dudrow j * (INR row_ - jacobian.row0 j)
                     + jacobian.dudcol j * (0 - jacobian.col0 j),
                     jacobian.dvdrow j * (INR row_ - jacobian.row0 j)
                     + jacobian.dvdcol j * (0 - jacobian.col0 j)) s))
          (seq 0 (length image)) (0, 0, 0) tt with
    | (inr (loglike, s2n_numer, s2n_denom), _) =>
        inr (loglike * -0.5, s2n_numer, s2n_denom)
    | (inl e, _) => inl e
    end.
Proof.
  unfold gmix._loglike_jacob_fast3. cbv zeta.
  assert (Hext : forall (rows : list nat) (acc : R * R * R),
    foldM (S := unit)
      (fun '(loglike, s2n_numer, s2n_denom) row_ =>
         let* (loglike, s2n_numer, s2n_denom, _, _) :=
           foldM (loglike_jacob_cols self image weight j i0 expvals row_)
             (seq 0 (length (default [] (head image))))
             (loglike, s2n_numer, s2n_denom,
              jacobian.dudrow j * (INR row_ - jacobian.row0 j)
              + jacobian.dudcol j * (0 - jacobian.col0 j),
              jacobian.dvdrow j * (INR row_ - jacobian.row0 j)
              + jacobian.dvdcol j * (0 - jacobian.col0 j)) in
         ret (loglike, s2n_numer, s2n_denom))
      rows acc tt
    = foldM (S := unit)
        (fun '(loglike, s2n_numer, s2n_denom) row_ =>
           fun s =>
             drop_uv
               (foldM (loglike_jacob_cols self image weight j i0 expvals
                         row_)
                  (seq 0 (length (default [] (head image))))
                  (loglike, s2n_numer, s2n_denom,
                   jacobian.dudrow j * (INR row_ - jacobian.row0 j)
                   + jacobian.dudcol j * (0 - jacobian.col0 j),
                   jacobian.dvdrow j * (INR row_ - jacobian.row0 j)
                   + jacobian.dvdcol j * (0 - jacobian.col0 j)) s))
        rows acc tt).
  { induction rows as [| r rows IH]; intros [[l n] d]; [reflexivity |].
    rewrite !foldM_cons. cbv beta iota. unfold bind at 1, drop_uv.
    destruct (foldM (loglike_jacob_cols self image weight j i0 expvals r)
                _ _ tt) as [[e | [[[[l' n'] d'] u'] v']] []].
    - reflexivity.
    - unfold ret at 1. apply IH. }
  unfold loglike_jacob_cols in Hext. cbv zeta in Hext.
  rewrite Hext. reflexivity.
Qed.

Lemma getitem2_elem (a : list (list R)) (row col : nat) (x : R) :
  gmix.getitem2 a row col = inr x ->
  exists r : list R, r ∈ a /\ x ∈ r.
Proof.
  unfold gmix.getitem2, gmix.getitem.
  destruct (a !! row) as [r |] eqn:Hr; [| discriminate].
  destruct (r !! col) as [y |] eqn:Hy; [| discriminate].
  intros [= <-]. exists r.
  split; eapply list_elem_of_lookup_2; eassumption.
Qed.

Lemma gauss_eval_shift (i0 : Z) (expvals : list R) (g : gmix.gauss2d)
  (r0 c0 u v u' v' : R) :
  u' = u - r0 -> v' = v - c0 ->
  gmix.gauss_eval_fast3 i0 expvals (gmix.shift_cen r0 c0 g)
    (u - gmix.row (gmix.shift_cen r0 c0 g))
    (v - gmix.col (gmix.shift_cen r0 c0 g))
  = gmix.gauss_eval_fast3 i0 expvals g (u' - gmix.row g) (v' - gmix.col g).
Proof.
  intros -> ->. cbn [gmix.shift_cen gmix.row gmix.col].
  replace (u - (gmix.row g + r0)) with (u - r0 - gmix.row g) by ring.
  replace (v - (gmix.col g + c0)) with (v - c0 - gmix.col g) by ring.
  reflexivity.
Qed.

Lemma model_at_run (self : list gmix.gauss2d) (i0 : Z) (expvals : list R)
  (u v : R) :
  foldM (S := unit)
    (fun model_val g =>
       let* term :=
         lift (gmix.gauss_eval_fast3 i0 expvals g
                 (u - gmix.row g) (v - gmix.col g)) in
       ret (model_val + term))
    self 0 tt
  = (model_at self i0 expvals u v, tt).
Proof.
  unfold model_at. destruct (foldM _ self 0 tt) as [r []]. reflexivity.
Qed.

Lemma loglike_cols_step (self : list gmix.gauss2d)
  (image weight : list (list R)) (i0 : Z) (expvals : list R)
  (row_ col_ : nat) (l n d : R) :
  loglike_cols self image weight i0 expvals row_ (l, n, d) col_ tt
  = match gmix.getitem2 weight row_ col_ with
    | inl e => (inl e, tt)
    | inr ivar =>
        if Rle_dec ivar 0 then (inr (l, n, d), tt)
        else
          match model_at self i0 expvals (INR row_) (INR col_) with
          | inl e => (inl e, tt)
          | inr m =>
              match gmix.getitem2 image row_ col_ with
              | inl e => (inl e, tt)
              | inr pix =>
                  (inr (l + (m - pix) * (m - pix) * ivar,
                        n + pix * m * ivar,
                        d + m * m * ivar), tt)
              end
          end
    end.
Proof.
  unfold loglike_cols. unfold bind at 1, lift at 1.
  destruct (gmix.getitem2 weight row_ col_) as [e | ivar]; [reflexivity |].
  destruct (Rle_dec ivar 0); [reflexivity |].
  unfold bind at 1. cbv zeta.
  rewrite (model_at_run self i0 expvals (INR row_) (INR col_)).
  destruct (model_at self i0 expvals (INR row_) (INR col_)) as [e | m];
    [reflexivity |].
  unfold bind, lift.
  destruct (gmix.getitem2 image row_ col_); reflexivity.
Qed.

Lemma loglike_jacob_cols_step (self : list gmix.gauss2d)
  (image weight : list (list R)) (j : jacobian._jacobian)
  (i0 : Z) (expvals : list R) (row_ col_ : nat) (l n d u v : R) :
  loglike_jacob_cols self image weight j i0 expvals row_ (l, n, d, u, v)
    col_ tt
  = match gmix.getitem2 weight row_ col_ with
    | inl e => (inl e, tt)
    | inr ivar =>
        if Rle_dec ivar 0 then (inr (l, n, d, u, v), tt)
        else
          match model_at self i0 expvals u v with
          | inl e => (inl e, tt)
          | inr m =>
              match gmix.getitem2 image row_ col_ with
              | inl e => (inl e, tt)
              | inr pix =>
                  (inr (l + (m - pix) * (m - pix) * ivar,
                        n + pix * m * ivar,
                        d + m * m * ivar,
                        u + jacobian.dudcol j,
                        v + jacobian.dvdcol j), tt)
              end
          end
    end.
Proof.
  unfold loglike_jacob_cols. unfold bind at 1, lift at 1.
  destruct (gmix.getitem2 weight row_ col_) as [e | ivar]; [reflexivity |].
  destruct (Rle_dec ivar 0); [reflexivity |].
  unfold bind at 1. cbv zeta.
  rewrite (model_at_run self i0 expvals u v).
  destruct (model_at self i0 expvals u v) as [e | m]; [reflexivity |].
  unfold bind, lift.
  destruct (gmix.getitem2 image row_ col_); reflexivity.
Qed.

Lemma model_at_ext (self : list gmix.gauss2d) (i0 : Z) (expvals : list R)
  (u v u' v' : R) :
  u = u' -> v = v' ->
  model_at self i0 expvals u v = model_at self i0 expvals u' v'.
Proof. now intros -> ->. Qed.

Lemma model_loop_shift (self : list gmix.gauss2d) (i0 : Z)
  (expvals : list R) (r0 c0 u v : R) :
  forall acc : R,
    foldM (S := unit)
      (fun model_val g =>
         let* term :=
           lift (gmix.gauss_eval_fast3 i0 expvals g
                   (u - gmix.row g) (v - gmix.col g)) in
         ret (model_val + term))
      (gmix.shift_cen r0 c0 <$> self) acc tt
    = foldM (S := unit)
        (fun model_val g =>
           let* term :=
             lift (gmix.gauss_eval_fast3 i0 expvals g
                     (u - r0 - gmix.row g) (v - c0 - gmix.col g)) in
           ret (model_val + term))
        self acc tt.
Proof.
  induction self as [| g self IH]; intros acc; [reflexivity |].
  rewrite fmap_cons, !foldM_cons. cbv beta.
  rewrite (gauss_eval_shift i0 expvals g r0 c0 u v (u - r0) (v - c0))
    by reflexivity.
  unfold bind, lift.
  destruct (gmix.gauss_eval_fast3 i0 expvals g (u - r0 - gmix.row g)
              (v - c0 - gmix.col g)) as [e | t]; [reflexivity |].
  unfold ret at 1 3. apply IH.
Qed.

Lemma model_at_shift (self : list gmix.gauss2d) (i0 : Z) (expvals : list R)
  (r0 c0 u v : R) :
  model_at (gmix.shift_cen r0 c0 <$> self) i0 expvals u v
  = model_at self i0 expvals (u - r0) (v - c0).
Proof. unfold model_at. now rewrite model_loop_shift. Qed.

(** On a row without masked pixels, the loop over the columns under a unit
    Jacobian centred at [(r0, c0)] does what the pixel-coordinate loop does
    on the mixture moved by [(r0, c0)]. *)
Lemma loglike_cols_unit_jacobian (self : list gmix.gauss2d)
  (image weight : list (list R)) (r0 c0 : R) (i0 : Z) (expvals : list R)
  (row_ : nat) :
  Forall (Forall (fun w => 0 < w)) weight ->
  forall (m k : nat) (l n d u v : R),
    u = INR row_ - r0 -> v = INR k - c0 ->
    drop_uv
      (foldM (loglike_jacob_cols self image weight
                (jacobian._data (jacobian.UnitJacobian r0 c0))
                i0 expvals row_)
         (seq k m) (l, n, d, u, v) tt)
    = foldM (loglike_cols (gmix.shift_cen r0 c0 <$> self) image weight
               i0 expvals row_)
        (seq k m) (l, n, d) tt.
Proof.
  intros Hpos. induction m as [| m IH]; intros k l n d u v Hu Hv;
    [reflexivity |].
  cbn [seq]. rewrite !foldM_cons.
  rewrite loglike_jacob_cols_step, loglike_cols_step.
  destruct (gmix.getitem2 weight row_ k) as [e | ivar] eqn:Hw;
    [reflexivity |].
  destruct (getitem2_elem weight row_ k ivar Hw) as (r & Hr & Hin).
  assert (Hivar : 0 < ivar).
  { rewrite Forall_forall in Hpos. specialize (Hpos r Hr).
    rewrite Forall_forall in Hpos. now apply Hpos. }
  destruct (Rle_dec ivar 0) as [Hle | _]; [lra |].
  rewrite model_at_shift.
  rewrite (model_at_ext self i0 expvals u v (INR row_ - r0) (INR k - c0))
    by assumption.
  destruct (model_at self i0 expvals (INR row_ - r0) (INR k - c0))
    as [e | mval]; [reflexivity |].
  destruct (gmix.getitem2 image row_ k) as [e | pix]; [reflexivity |].
  apply IH.
  - cbn. lra.
  - rewrite S_INR. cbn. lra.
Qed.

(** X12. With a unit Jacobian centred at [(r0, c0)] and a weight map
    without masked pixels (every weight positive), the sky-coordinate
    kernel [_loglike_jacob_fast3] evaluates a mixture exactly as the
    pixel-coordinate kernel [_loglike_fast3] evaluates the same mixture
    moved by [(r0, c0)]: same value, or same exception, for every image,
    table and mixture.  In particular the two kernels agree for
    [UnitJacobian(0, 0)] on a mixture at rest. *)
Theorem loglike_jacob_fast3_unit_jacobian :
  forall (self : list gmix.gauss2d) (image weight : list (list R))
         (r0 c0 : R) (i0 : Z) (expvals : list R),
    Forall (Forall (fun w => 0 < w)) weight ->
    gmix._loglike_jacob_fast3 self image weight
      (jacobian._data (jacobian.UnitJacobian r0 c0)) i0 expvals
    = gmix._loglike_fast3 (gmix.shift_cen r0 c0 <$> self) image weight
        i0 expvals.
Proof.
  intros self image weight r0 c0 i0 expvals Hpos.
  rewrite loglike_jacob_fast3_loops, loglike_fast3_loops.
  assert (Hrows : forall (rows : list nat) (acc : R * R * R),
    foldM (S := unit)
      (fun '(loglike, s2n_numer, s2n_denom) row_ =>
         fun s =>
           drop_uv
             (foldM (loglike_jacob_cols self image weight
                       (jacobian._data (jacobian.UnitJacobian r0 c0))
                       i0 expvals row_)
                (seq 0 (length (default [] (head image))))
                (loglike, s2n_numer, s2n_denom,
                 jacobian.dudrow (jacobian._data (jacobian.UnitJacobian r0 c0))
                 * (INR row_
                    - jacobian.row0
                        (jacobian._data (jacobian.UnitJacobian r0 c0)))
                 + jacobian.dudcol
                     (jacobian._data (jacobian.UnitJacobian r0 c0))
                   * (0 - jacobian.col0
                            (jacobian._data (jacobian.UnitJacobian r0 c0))),
                 jacobian.dvdrow (jacobian._data (jacobian.UnitJacobian r0 c0))
                 * (INR row_
                    - jacobian.row0
                        (jacobian._data (jacobian.UnitJacobian r0 c0)))
                 + jacobian.dvdcol
                     (jacobian._data (jacobian.UnitJacobian r0 c0))
                   * (0 - jacobian.col0
                            (jacobian._data (jacobian.UnitJacobian r0 c0))))
                s))
      rows acc tt
    = foldM (fun acc row_ =>
               foldM (loglike_cols (gmix.shift_cen r0 c0 <$> self) image
                        weight i0 expvals row_)
                 (seq 0 (length (default [] (head image)))) acc)
        rows acc tt).
  { induction rows as [| r rows IH]; intros [[l n] d]; [reflexivity |].
    rewrite !foldM_cons. cbv beta iota.
    rewrite (loglike_cols_unit_jacobian self image weight r0 c0 i0 expvals r
               Hpos).
    - destruct (foldM (loglike_cols _ image weight i0 expvals r) _ _ tt)
        as [[e | acc'] []]; [reflexivity | apply IH].
    - cbn. lra.
    - cbn. lra. }
  rewrite Hrows. reflexivity.
Qed.

Lemma loglike_jacob_fast3_unit_jacobian_witness :
  gmix._loglike_jacob_fast3 [unit_gauss] [[1; 0]; [0; 0]] [[1; 1]; [1; 1]]
    (jacobian._data (jacobian.UnitJacobian 0 0)) (-26) gmix._exp3_lookup
  = gmix._loglike_fast3 (gmix.shift_cen 0 0 <$> [unit_gauss])
      [[1; 0]; [0; 0]] [[1; 1]; [1; 1]] (-26) gmix._exp3_lookup.
Proof.
  apply (loglike_jacob_fast3_unit_jacobian [unit_gauss]
           [[1; 0]; [0; 0]] [[1; 1]; [1; 1]] 0 0 (-26) gmix._exp3_lookup).
  repeat constructor; lra.
Defined.

(** *** Masked pixels under a Jacobian *)

Lemma getitem2_lookup (a : list (list R)) (row col : nat) (r : list R)
  (x : R) :
  a !! row = Some r -> r !! col = Some x -> gmix.getitem2 a row col = inr x.
Proof.
  intros Hr Hx. unfold gmix.getitem2, gmix.getitem. now rewrite Hr, Hx.
Qed.

Lemma jacob_cols_as_entries (self : list gmix.gauss2d)
  (image weight : list (list R)) (j : jacobian._jacobian) (i0 : Z)
  (expvals : list R) (row_ : nat) (wrow irow : list R) :
  weight !! row_ = Some wrow -> image !! row_ = Some irow ->
  length wrow = length irow ->
  forall (m k : nat) (st : R * R * R * R * R),
    (k + m <= length wrow)%nat ->
    foldM (loglike_jacob_cols self image weight j i0 expvals row_)
      (seq k m) st tt
    = (fold_entries (jacob_entry self j i0 expvals)
         (take m (drop k (zip wrow irow))) st, tt).
Proof.
  intros Hw Hi Hlen.
  induction m as [| m IH]; intros k st Hk; [reflexivity |].
  destruct st as [[[[l n] d] u] v].
  destruct (lookup_lt_is_Some_2 wrow k ltac:(lia)) as [w Hwk].
  destruct (lookup_lt_is_Some_2 irow k ltac:(lia)) as [pix Hik].
  assert (Hz : zip wrow irow !! k = Some (w, pix)).
  { apply lookup_zip_with_Some. now exists w, pix. }
  rewrite (drop_S _ _ _ Hz). cbn [take fold_entries seq].
  rewrite foldM_cons, loglike_jacob_cols_step.
  rewrite (getitem2_lookup weight row_ k wrow w Hw Hwk).
  rewrite (getitem2_lookup image row_ k irow pix Hi Hik).
  unfold jacob_entry at 1.
  destruct (Rle_dec w 0); [apply IH; lia |].
  destruct (model_at self i0 expvals u v); [reflexivity |].
  apply IH. lia.
Qed.

Lemma fold_entries_app {St : Type} (f : St -> R * R -> result St)
  (row1 row2 : list (R * R)) :
  forall st : St,
    fold_entries f (row1 ++ row2) st
    = match fold_entries f row1 st with
      | inl x => inl x
      | inr st' => fold_entries f row2 st'
      end.
Proof.
  induction row1 as [| e row1 IH]; intros st; [reflexivity |].
  cbn [app fold_entries]. destruct (f st e); [reflexivity | apply IH].
Qed.

Lemma entries_unmasked (self : list gmix.gauss2d) (j : jacobian._jacobian)
  (i0 : Z) (expvals : list R) (row : list (R * R)) :
  forall st : R * R * R * R * R,
    fold_entries (jacob_entry self j i0 expvals) (unmasked row) st
    = fold_entries (jacob_entry self j i0 expvals) row st.
Proof.
  induction row as [| [w pix] row IH]; intros st; [reflexivity |].
  destruct st as [[[[l n] d] u] v].
  cbn [unmasked fold_entries]. unfold jacob_entry at 2.
  destruct (Rle_dec w 0) as [Hle | Hgt]; [apply IH |].
  cbn [fold_entries]. unfold jacob_entry at 1.
  destruct (Rle_dec w 0) as [Hle | _]; [contradiction |].
  destruct (model_at self i0 expvals u v); [reflexivity | apply IH].
Qed.

Lemma entries_masked_tail (self : list gmix.gauss2d)
  (j : jacobian._jacobian) (i0 : Z) (expvals : list R) (k : nat) :
  forall st : R * R * R * R * R,
    fold_entries (jacob_entry self j i0 expvals) (replicate k (0, 0)) st
    = inr st.
Proof.
  induction k as [| k IH]; intros st; [reflexivity |].
  destruct st as [[[[l n] d] u] v].
  cbn [replicate fold_entries]. unfold jacob_entry at 1.
  destruct (Rle_dec 0 0) as [_ | H]; [apply IH | lra].
Qed.

Lemma entries_pack_row (self : list gmix.gauss2d) (j : jacobian._jacobian)
  (i0 : Z) (expvals : list R) (wrow irow : list R)
  (st : R * R * R * R * R) :
  fold_entries (jacob_entry self j i0 expvals) (pack_row wrow irow) st
  = fold_entries (jacob_entry self j i0 expvals) (zip wrow irow) st.
Proof.
  unfold pack_row. cbv zeta. rewrite fold_entries_app, entries_unmasked.
  destruct (fold_entries _ (zip wrow irow) st); [reflexivity |].
  apply entries_masked_tail.
Qed.

Lemma unmasked_length (row : list (R * R)) :
  (length (unmasked row) <= length row)%nat.
Proof.
  induction row as [| [w pix] row IH]; [reflexivity |].
  cbn [unmasked]. destruct (Rle_dec w 0); cbn; lia.
Qed.

Lemma pack_row_length (wrow irow : list R) :
  length wrow = length irow -> length (pack_row wrow irow) = length wrow.
Proof.
  intros Hlen. unfold pack_row. cbv zeta.
  rewrite length_app, length_replicate.
  pose proof (unmasked_length (zip wrow irow)) as H.
  rewrite length_zip_with in H. lia.
Qed.

Lemma pack_row_zip (wrow irow : list R) :
  zip (pack_row wrow irow).*1 (pack_row wrow irow).*2 = pack_row wrow irow.
Proof. apply zip_fst_snd. Qed.

(** One row: the loop over its columns does the same on the packed
    arrays. *)
Lemma jacob_cols_packed (self : list gmix.gauss2d)
  (image weight : list (list R)) (j : jacobian._jacobian) (i0 : Z)
  (expvals : list R) (ncols row_ : nat) (st : R * R * R * R * R) :
  Forall (fun r => length r = ncols) image ->
  Forall (fun r => length r = ncols) weight ->
  length weight = length image ->
  (row_ < length image)%nat ->
  foldM (loglike_jacob_cols self (pack_image weight image)
           (pack_weight weight image) j i0 expvals row_)
    (seq 0 ncols) st tt
  = foldM (loglike_jacob_cols self image weight j i0 expvals row_)
      (seq 0 ncols) st tt.
Proof.
  intros Himg Hwt Hlen Hrow.
  destruct (lookup_lt_is_Some_2 weight row_ ltac:(lia)) as [wrow Hw].
  destruct (lookup_lt_is_Some_2 image row_ Hrow) as [irow Hi].
  assert (Hwl : length wrow = ncols).
  { rewrite Forall_forall in Hwt. apply Hwt.
    eapply list_elem_of_lookup_2. exact Hw. }
  assert (Hil : length irow = ncols).
  { rewrite Forall_forall in Himg. apply Himg.
    eapply list_elem_of_lookup_2. exact Hi. }
  assert (Hpw : pack_weight weight image !! row_
                = Some (pack_row wrow irow).*1).
  { unfold pack_weight. apply lookup_zip_with_Some. now exists wrow, irow. }
  assert (Hpi : pack_image weight image !! row_
                = Some (pack_row wrow irow).*2).
  { unfold pack_image. apply lookup_zip_with_Some. now exists wrow, irow. }
  assert (Hpl : length (pack_row wrow irow) = ncols)
    by (rewrite pack_row_length; lia).
  rewrite (jacob_cols_as_entries self _ _ j i0 expvals row_ _ _ Hpw Hpi)
    by (rewrite ?length_fmap; lia).
  rewrite (jacob_cols_as_entries self _ _ j i0 expvals row_ _ _ Hw Hi)
    by lia.
  rewrite !drop_0, pack_row_zip.
  rewrite !firstn_all2
    by (rewrite ?length_zip_with; lia).
  now rewrite entries_pack_row.
Qed.

Lemma pack_lengths (weight image : list (list R)) (ncols : nat) :
  Forall (fun r => length r = ncols) image ->
  Forall (fun r => length r = ncols) weight ->
  length weight = length image ->
  length (pack_image weight image) = length image /\
  length (default [] (head (pack_image weight image)))
  = length (default [] (head image)).
Proof.
  intros Himg Hwt Hlen. split.
  - unfold pack_image. rewrite length_zip_with. lia.
  - destruct image as [| irow image], weight as [| wrow weight];
      try discriminate; [reflexivity |].
    unfold pack_image. cbn [zip_with head default].
    inversion Himg; inversion Hwt; subst.
    change (length (pack_row wrow irow).*2 = length irow).
    rewrite length_fmap, pack_row_length; congruence.
Qed.

(** X13. [_loglike_jacob_fast3] cannot tell where in a row the masked
    pixels are.  The coordinates [(u, v)] advance by one column step only
    at a pixel of positive weight (the [continue] taken at a masked pixel
    skips the two increments at the end of the loop body), so the kernel
    returns the same value when, in every row, the unmasked pixels are
    moved together to the front of the row and the masked ones behind
    them: a pixel that follows [k] masked pixels in its row is evaluated at
    the sky position of the pixel [k] columns to its left. *)
Theorem loglike_jacob_fast3_ignores_mask_positions :
  forall (self : list gmix.gauss2d) (image weight : list (list R))
         (j : jacobian._jacobian) (i0 : Z) (expvals : list R) (ncols : nat),
    Forall (fun r => length r = ncols) image ->
    Forall (fun r => length r = ncols) weight ->
    length weight = length image ->
    gmix._loglike_jacob_fast3 self (pack_image weight image)
      (pack_weight weight image) j i0 expvals
    = gmix._loglike_jacob_fast3 self image weight j i0 expvals.
Proof.
  intros self image weight j i0 expvals ncols Himg Hwt Hlen.
  rewrite !loglike_jacob_fast3_loops.
  destruct (pack_lengths weight image ncols Himg Hwt Hlen) as [-> ->].
  destruct image as [| irow0 image]; [reflexivity |].
  rewrite (head_length (irow0 :: image) ncols Himg) by discriminate.
  assert (Hrows : forall (rows : list nat) (acc : R * R * R),
    Forall (fun r => (r < length (irow0 :: image))%nat) rows ->
    foldM (S := unit)
      (fun '(loglike, s2n_numer, s2n_denom) row_ =>
         fun s =>
           drop_uv
             (foldM (loglike_jacob_cols self (pack_image weight (irow0 :: image))
                       (pack_weight weight (irow0 :: image)) j i0 expvals
                       row_)
                (seq 0 ncols)
                (loglike, s2n_numer, s2n_denom,
                 jacobian.dudrow j * (INR row_ - jacobian.row0 j)
                 + jacobian.dudcol j * (0 - jacobian.col0 j),
                 jacobian.dvdrow j * (INR row_ - jacobian.row0 j)
                 + jacobian.dvdcol j * (0 - jacobian.col0 j)) s))
      rows acc tt
    = foldM (S := unit)
        (fun '(loglike, s2n_numer, s2n_denom) row_ =>
           fun s =>
             drop_uv
               (foldM (loglike_jacob_cols self (irow0 :: image) weight j i0
                         expvals row_)
                  (seq 0 ncols)
                  (loglike, s2n_numer, s2n_denom,
                   jacobian.dudrow j * (INR row_ - jacobian.row0 j)
                   + jacobian.dudcol j * (0 - jacobian.col0 j),
                   jacobian.dvdrow j * (INR row_ - jacobian.row0 j)
                   + jacobian.dvdcol j * (0 - jacobian.col0 j)) s))
        rows acc tt).
  { induction rows as [| r rows IH]; intros [[l n] d] Hr; [reflexivity |].
    inversion Hr as [| ? ? Hr0 Hr']; subst.
    rewrite !foldM_cons. cbv beta iota.
    rewrite (jacob_cols_packed self (irow0 :: image) weight j i0 expvals
               ncols r _ Himg Hwt Hlen Hr0).
    destruct (drop_uv _) as [[e | acc'] []]; [reflexivity |].
    now apply IH. }
  rewrite Hrows; [reflexivity |].
  apply Forall_forall. intros r Hr. apply elem_of_seq in Hr. lia.
Qed.

Lemma loglike_jacob_fast3_ignores_mask_positions_witness :
  gmix._loglike_jacob_fast3 [unit_gauss]
    (pack_image [[0; 1]] [[5; 7]]) (pack_weight [[0; 1]] [[5; 7]])
    (jacobian._data (jacobian.UnitJacobian 0 0)) (-26) gmix._exp3_lookup
  = gmix._loglike_jacob_fast3 [unit_gauss] [[5; 7]] [[0; 1]]
      (jacobian._data (jacobian.UnitJacobian 0 0)) (-26) gmix._exp3_lookup.
Proof.
  apply (loglike_jacob_fast3_ignores_mask_positions [unit_gauss]
           [[5; 7]] [[0; 1]] (jacobian._data (jacobian.UnitJacobian 0 0))
           (-26) gmix._exp3_lookup 2).
  - repeat constructor.
  - repeat constructor.
  - reflexivity.
Defined.

(** ** The Jacobian *)

(** X14. A [Jacobian] keeps [get_scale()^2 = get_det() =
    |dudrow*dvdcol - dudcol*dvdrow| >= 0], also after [set_cen]; and
    [copy()] reproduces the data array exactly, also after [set_cen], so
    that copying twice gives what copying once gives. *)
Theorem jacobian_scale_det_copy :
  forall row0 col0 dudrow dudcol dvdrow dvdcol r c : R,
    let j := jacobian.__init__ row0 col0 dudrow dudcol dvdrow dvdcol in
    let j' := jacobian.set_cen j r c in
    jacobian.get_det j' = Rabs (dudrow * dvdcol - dudcol * dvdrow) /\
    0 <= jacobian.get_det j' /\
    0 <= jacobian.get_scale j' /\
    jacobian.get_scale j' * jacobian.get_scale j' = jacobian.get_det j' /\
    jacobian._data (jacobian.copy j) = jacobian._data j /\
    jacobian._data (jacobian.copy j') = jacobian._data j' /\
    jacobian.copy (jacobian.copy j') = jacobian.copy j'.
Proof.
  intros row0 col0 dudrow dudcol dvdrow dvdcol r c j j'.
  pose proof (Rabs_pos (dudrow * dvdcol - dudcol * dvdrow)) as Hpos.
  repeat split; try reflexivity.
  - exact Hpos.
  - apply sqrt_pos.
  - apply sqrt_sqrt. exact Hpos.
Qed.

(** ** Preparing an image for the EM fitter *)

Lemma foldl_Rmin_le (l : list R) :
  forall x : R,
    foldl Rmin x l <= x /\ Forall (fun y => foldl Rmin x l <= y) l /\
    (foldl Rmin x l = x \/ foldl Rmin x l ∈ l).
Proof.
  induction l as [| y l IH]; intros x.
  - cbn. repeat split; [lra | constructor | now left].
  - cbn [foldl]. destruct (IH (Rmin x y)) as (Hle & Hall & Hin).
    pose proof (Rmin_l x y) as Hl. pose proof (Rmin_r x y) as Hr.
    repeat split.
    + lra.
    + constructor; [lra | exact Hall].
    + destruct Hin as [Heq | Hin].
      * rewrite Heq. unfold Rmin. destruct (Rle_dec x y);
          [now left | right; constructor].
      * right. now constructor.
Qed.

Lemma foldl_Rmax_ge (l : list R) :
  forall x : R,
    x <= foldl Rmax x l /\ Forall (fun y => y <= foldl Rmax x l) l.
Proof.
  induction l as [| y l IH]; intros x.
  - cbn. split; [lra | constructor].
  - cbn [foldl]. destruct (IH (Rmax x y)) as (Hle & Hall).
    pose proof (Rmax_l x y) as Hl. pose proof (Rmax_r x y) as Hr.
    split; [lra |]. constructor; [lra | exact Hall].
Qed.

Lemma foldl_Rmin_shift (c : R) (l : list R) :
  forall x : R,
    foldl Rmin (x + c) ((fun y => y + c) <$> l) = foldl Rmin x l + c.
Proof.
  induction l as [| y l IH]; intros x; [reflexivity |].
  cbn [fmap list_fmap foldl]. rewrite <- IH. f_equal.
  unfold Rmin. destruct (Rle_dec (x + c) (y + c)), (Rle_dec x y);
    try reflexivity; lra.
Qed.

Lemma concat_map_map (f : R -> R) (im : list (list R)) :
  concat (map (map f) im) = map f (concat im).
Proof.
  induction im as [| r im IH]; [reflexivity |].
  cbn [map concat]. rewrite map_app, IH. reflexivity.
Qed.

Lemma elem_of_concat (x : R) (ls : list (list R)) :
  x ∈ concat ls <-> exists r : list R, r ∈ ls /\ x ∈ r.
Proof.
  rewrite list_elem_of_In, in_concat. split.
  - intros (r & Hr & Hx). exists r. now rewrite !list_elem_of_In.
  - intros (r & Hr & Hx). exists r. now rewrite <- !list_elem_of_In.
Qed.

(** X15. [prep_image] raises exactly on an image without pixels.  On any
    other image it returns [(im, sky)] with [sky = 0.001*(max - min) >= 0],
    where [im] has the shape of the input and every pixel moved by the same
    constant [sky - min], so that the smallest pixel of [im] is exactly
    [sky] and no pixel is negative.  The pixels are all strictly positive
    exactly when the input is not constant; a constant input gives
    [sky = 0] and an image of zeros. *)
Theorem prep_image_floor :
  forall im0 : list (list R),
    (concat im0 = [] <-> exists e : exn, em.prep_image im0 = inl e) /\
    (concat im0 <> [] ->
     exists (im : list (list R)) (sky im_min im_max : R),
       em.prep_image im0 = inr (im, sky) /\
       em.array_min im0 = inr im_min /\
       em.array_max im0 = inr im_max /\
       sky = 0.001 * (im_max - im_min) /\
       0 <= sky /\
       im = map (map (fun x => x + (sky - im_min))) im0 /\
       em.array_min im = inr sky /\
       Forall (Forall (fun x => sky <= x)) im /\
       (Forall (Forall (fun x => 0 < x)) im <-> im_min < im_max)).
Proof.
  intros im0. unfold em.prep_image, em.array_min, em.array_max. cbv zeta.
  destruct (concat im0) as [| x l] eqn:Hc.
  { split; [| congruence]. split; [eauto | reflexivity]. }
  split.
  { split; [discriminate | intros [e He]; discriminate]. }
  intros _.
  destruct (foldl_Rmin_le l x) as (Hminx & Hminl & Hminin).
  destruct (foldl_Rmax_ge l x) as (Hmaxx & Hmaxl).
  set (lo := foldl Rmin x l) in *. set (hi := foldl Rmax x l) in *.
  set (sky := 0.001 * (hi - lo)).
  assert (Hsky : 0 <= sky) by (unfold sky; lra).
  exists (map (map (fun y => y + (sky - lo))) im0), sky, lo, hi.
  assert (Hcat : concat (map (map (fun y => y + (sky - lo))) im0)
                 = (x + (sky - lo)) :: ((fun y => y + (sky - lo)) <$> l)).
  { rewrite concat_map_map, Hc. reflexivity. }
  assert (Hall : Forall (fun y => sky <= y)
                   (concat (map (map (fun y => y + (sky - lo))) im0))).
  { rewrite Hcat. constructor; [lra |].
    apply Forall_fmap. eapply Forall_impl; [exact Hminl |].
    intros y Hy. cbn. lra. }
  repeat split; try reflexivity.
  - exact Hsky.
  - rewrite Hcat, foldl_Rmin_shift. fold lo. f_equal. ring.
  - apply Forall_forall. intros r Hr. apply Forall_forall. intros y Hy.
    rewrite Forall_forall in Hall. apply Hall.
    apply elem_of_concat. now exists r.
  - intros Hposall.
    destruct (Rlt_dec lo hi) as [Hlt | Hge]; [exact Hlt | exfalso].
    assert (Hs0 : sky = 0)
      by (unfold sky; replace (hi - lo) with 0 by lra; ring).
    assert (Hin : lo + (sky - lo)
                  ∈ concat (map (map (fun y => y + (sky - lo))) im0)).
    { rewrite Hcat. destruct Hminin as [-> | Hin]; [constructor |].
      right. apply (list_elem_of_fmap_2 (fun y => y + (sky - lo))).
      exact Hin. }
    apply elem_of_concat in Hin. destruct Hin as (r & Hr & Hy).
    rewrite Forall_forall in Hposall. specialize (Hposall r Hr).
    rewrite Forall_forall in Hposall. specialize (Hposall _ Hy). lra.
  - intros Hlt. assert (Hs : 0 < sky) by (unfold sky; lra).
    apply Forall_forall. intros r Hr. apply Forall_forall. intros y Hy.
    rewrite Forall_forall in Hall.
    assert (sky <= y); [| lra].
    apply Hall. apply elem_of_concat. now exists r.
Qed.

(** ** The mixture [run_em] stores *)

(** X16. Whatever the compiled [em_run] does, when [run_em] returns, the
    fitter holds a mixture exactly when the flags do not report a range
    error.  A stored mixture carries the parameters [em_run] left in the
    working copy, each component with [det > 0] and derived fields that
    agree with them, so [_gauss2d_verify] accepts it; the flags are then
    [0] or [EM_MAXITER].  When no mixture is stored the result is
    [{'flags': EM_RANGE_ERROR}]. *)
Theorem run_em_stores_valid_mixture :
  forall (em_run : list (list R) -> jacobian._jacobian -> R -> R -> R -> Z ->
                   M (list gmix.gauss2d) (Z * xfloat))
         (self self' : em.GMixEM) (gmix_guess : list gmix.gauss2d)
         (sky_guess : R) (maxiter : Z) (tol : R),
    em.run_em em_run self gmix_guess sky_guess maxiter tol = inr self' ->
    let out := em_run (em.image (em._obs self))
                 (jacobian._data (em.obs_jacobian (em._obs self)))
                 sky_guess (em._counts self) tol maxiter gmix_guess in
    (forall gm : list gmix.gauss2d,
        em._gm self' = Some gm ->
        gmix.get_full_pars gm = gmix.get_full_pars out.2 /\
        Forall well_formed gm /\
        gmix._gauss2d_verify gm = inr tt /\
        exists res : gmap string pyval,
          em.get_result self' = Some res /\
          (res !! "flags" = Some (PyInt 0)
           \/ res !! "flags" = Some (PyInt em.EM_MAXITER))) /\
    (em._gm self' = None ->
     em.get_result self' = Some {["flags" := PyInt em.EM_RANGE_ERROR]}).
Proof.
  intros em_run self self' gmix_guess sky_guess maxiter tol Hrun out.
  unfold em.run_em, em.run_em_try in Hrun. fold out in Hrun.
  destruct out as [[e | [numiter fdiff]] gmtmp'] eqn:Hout.
  - destruct e; try discriminate. injection Hrun as <-.
    split; [intros gm [=] | reflexivity].
  - cbn [snd].
    destruct (GMix_of_pars_cases (gmix.get_full_pars gmtmp'))
      as [(_ & H) | [(Hmod & Hall & H) | (_ & _ & H)]];
      rewrite H in Hrun; try discriminate.
    + injection Hrun as <-. split; [| discriminate].
      intros gm [= <-].
      split; [now apply full_pars_components |].
      split; [now apply components_well_formed |].
      split; [now apply well_formed_verify, components_well_formed |].
      eexists. split; [reflexivity |].
      case_decide; [right | left]; reflexivity.
    + injection Hrun as <-.
      split; [intros gm [=] | reflexivity].
Qed.

Lemma run_em_stores_valid_mixture_witness :
  exists self' : em.GMixEM,
    em.run_em em_run_idle
      (em.__init__ (em.mk_Observation [[1]] (jacobian.UnitJacobian 0 0)))
      [unit_gauss] 0 100 0 = inr self' /\
    em._gm self' = Some [unit_gauss] /\
    Forall well_formed [unit_gauss] /\
    gmix._gauss2d_verify [unit_gauss] = inr tt.
Proof.
  set (self := em.__init__
                 (em.mk_Observation [[1]] (jacobian.UnitJacobian 0 0))).
  set (self' := em.mk_GMixEM (em._obs self) (em._counts self)
                  (Some [unit_gauss])
                  (Some (<["flags" := PyInt 0]>
                           (<["numiter" := PyInt 5]>
                              (<["fdiff" := PyFloat (Fin 0)]> ∅))))).
  assert (Hrun : em.run_em em_run_idle self [unit_gauss] 0 100 0
                 = inr self').
  { unfold em.run_em, em.run_em_try, em_run_idle.
    change (gmix.get_full_pars [unit_gauss]) with [1; 0; 0; 1; 0; 1].
    rewrite GMix_of_pars_one by lra. fold unit_gauss.
    case_decide as Hd; [lia |]. reflexivity. }
  exists self'. split; [exact Hrun |]. split; [reflexivity |].
  destruct (run_em_stores_valid_mixture em_run_idle self self' [unit_gauss]
              0 100 0 Hrun) as [H _].
  destruct (H [unit_gauss] eq_refl) as (_ & H2 & H3 & _).
  split; assumption.
Defined.

(** ** The bookkeeping of the Metropolis-Hastings chain *)

Section MH_bookkeeping.

Variable Pars : Type.
Variable zeros_row : Pars.
Variable W : Type.
Variable lnprob_func : Pars -> W -> xfloat * W.
Variable stepper : Pars -> W -> Pars * W.
Variable uniform : W -> xfloat * W.

Local Abbreviation MH := (fitting.MH Pars W).
Local Abbreviation _step := (fitting._step Pars W lnprob_func stepper uniform).
Local Abbreviation steps := (fitting.steps Pars W lnprob_func stepper uniform).
Local Abbreviation _init_data :=
  (fitting._init_data Pars zeros_row W lnprob_func).
Local Abbreviation run_mcmc :=
  (fitting.run_mcmc Pars zeros_row W lnprob_func stepper uniform).

Lemma init_data_log (pars_start : Pars) (nstep : nat) (self : MH) :
  (1 <= nstep)%nat ->
  exists self' : MH,
    _init_data pars_start nstep self = (inr tt, self') /\
    chain_log nstep 1 self'.
Proof.
  intros Hn. unfold fitting._init_data.
  destruct (lnprob_func pars_start (fitting._random_state Pars W self))
    as [oldlike w].
  rewrite !setitem_ok by (rewrite length_replicate; lia).
  eexists. split; [reflexivity |].
  destruct nstep as [| n]; [lia |].
  constructor; cbn [fitting._trials fitting._loglike fitting._accepted
                    fitting._current fitting._oldpars fitting._oldlike].
  - now rewrite length_insert, length_replicate.
  - now rewrite length_insert, length_replicate.
  - now rewrite length_insert, length_replicate.
  - reflexivity.
  - cbn. constructor; [now right |].
    apply Forall_forall. intros a Ha.
    apply elem_of_replicate in Ha as [-> _]. now left.
  - reflexivity.
  - reflexivity.
  - intros i Hi. lia.
  - intros i x Hi. lia.
Qed.

Lemma step_log (nstep current : nat) (self : MH) :
  (1 <= current < nstep)%nat ->
  chain_log nstep current self ->
  exists self' : MH,
    _step self = (inr tt, self') /\ chain_log nstep (S current) self'.
Proof.
  intros Hc [Ht Hl Ha Hcur Hf Hop Hol Hrej Hkept]. unfold fitting._step.
  rewrite Hcur.
  destruct (stepper _ _) as [newpars w1].
  destruct (lnprob_func newpars w1) as [newlike w2].
  destruct (uniform w2) as [randnum w3].
  set (accept := xf.isfinite newlike && _).
  assert (Hcase : exists flag like row,
             (if accept then (1%Z, newlike, newpars)
              else (0%Z, fitting._oldlike Pars W self,
                    fitting._oldpars Pars W self))
             = (flag, like, row) /\
             (flag = 0%Z \/ flag = 1%Z) /\
             (flag = 0%Z ->
              like = fitting._oldlike Pars W self /\
              row = fitting._oldpars Pars W self) /\
             (flag = 1%Z -> xf.isfinite like = true)).
  { destruct accept eqn:Hacc; do 3 eexists;
      (split; [reflexivity |]).
    - split; [now right |]. split; [discriminate |]. intros _.
      subst accept. now apply andb_true_iff in Hacc as [Hfin _].
    - split; [now left |]. split; [tauto | discriminate]. }
  destruct Hcase as (flag & like & row & -> & Hflag & Hzero & Hone).
  rewrite !setitem_ok by lia.
  eexists. split; [reflexivity |].
  constructor; cbn [fitting._trials fitting._loglike fitting._accepted
                    fitting._current fitting._oldpars fitting._oldlike].
  - now rewrite length_insert.
  - now rewrite length_insert.
  - now rewrite length_insert.
  - reflexivity.
  - apply Forall_insert; assumption.
  - replace (S current - 1)%nat with current by lia.
    apply list_lookup_insert_eq. lia.
  - replace (S current - 1)%nat with current by lia.
    apply list_lookup_insert_eq. lia.
  - intros i Hi Hacc.
    destruct (decide (i = current)) as [-> | Hne].
    + rewrite list_lookup_insert_eq in Hacc by lia.
      injection Hacc as Hflag0. destruct (Hzero Hflag0) as [-> ->].
      rewrite !list_lookup_insert_eq by lia.
      rewrite !list_lookup_insert_ne by lia.
      now rewrite Hop, Hol.
    + rewrite list_lookup_insert_ne in Hacc by lia.
      rewrite !list_lookup_insert_ne by lia.
      apply Hrej; [lia | exact Hacc].
  - intros i x Hi Hacc Hx.
    destruct (decide (i = current)) as [-> | Hne].
    + rewrite list_lookup_insert_eq in Hacc by lia.
      rewrite list_lookup_insert_eq in Hx by lia.
      injection Hacc as Hflag1. injection Hx as <-. now apply Hone.
    + rewrite list_lookup_insert_ne in Hacc by lia.
      rewrite list_lookup_insert_ne in Hx by lia.
      apply (Hkept i x); [lia | exact Hacc | exact Hx].
Qed.

Lemma steps_log (nstep n : nat) :
  forall (current : nat) (self : MH),
    (1 <= current)%nat -> (current + n <= nstep)%nat ->
    chain_log nstep current self ->
    exists self' : MH,
      steps n self = (inr tt, self') /\ chain_log nstep (current + n) self'.
Proof.
  induction n as [| n IH]; intros current self Hc Hn Hinv.
  - exists self. split; [reflexivity |]. now rewrite Nat.add_0_r.
  - destruct (step_log nstep current self) as (s1 & Hs & H1);
      [lia | exact Hinv |].
    destruct (IH (S current) s1) as (s2 & Hs2 & H2); [lia | lia | exact H1 |].
    exists s2. split.
    + cbn [fitting.steps]. unfold bind. rewrite Hs. exact Hs2.
    + replace (current + S n)%nat with (S current + n)%nat by lia. exact H2.
Qed.

Lemma sumZ_le_length (l : list Z) :
  Forall (fun a => a = 0%Z \/ a = 1%Z) l ->
  (fitting.sumZ l <= Z.of_nat (length l))%Z.
Proof.
  intros Hf. unfold fitting.sumZ.
  induction Hf as [| a l Ha Hf IH]; [reflexivity |].
  cbn [foldr length]. lia.
Qed.

Lemma run_mcmc_log (pars_start : Pars) (nstep : nat) (self : MH) :
  (1 <= nstep)%nat ->
  exists (row : Pars) (self' : MH),
    run_mcmc pars_start nstep self = (inr row, self') /\
    chain_log nstep nstep self' /\
    last (fitting._trials Pars W self') = Some row /\
    fitting._arate Pars W self'
    = Fin (IZR (fitting.sumZ (fitting._accepted Pars W self')) / INR nstep).
Proof.
  intros Hn.
  destruct (init_data_log pars_start nstep self Hn) as (s1 & Hinit & H1).
  destruct (steps_log nstep (nstep - 1) 1%nat s1 ltac:(lia) ltac:(lia) H1)
    as (s2 & Hsteps & H2).
  replace (1 + (nstep - 1))%nat with nstep in H2 by lia.
  unfold fitting.run_mcmc, bind. rewrite Hinit, Hsteps.
  destruct H2 as [Ht Hl Ha Hcur Hf Hop Hol Hrej Hkept].
  destruct (last (fitting._trials Pars W s2)) as [row |] eqn:Hlast.
  2:{ apply last_None in Hlast. rewrite Hlast in Ht. cbn in Ht. lia. }
  exists row. eexists. split; [reflexivity |].
  cbn [fitting._trials fitting._loglike fitting._accepted fitting._current
       fitting._arate].
  split; [constructor; assumption |].
  split; [exact Hlast |].
  rewrite Ha. unfold xf.div.
  destruct (Req_dec_T (INR nstep) 0) as [E | _]; [| reflexivity].
  exfalso. apply (not_0_INR nstep); [lia | exact E].
Qed.

(** X17. After [run_mcmc(pars_start, nstep)] with [nstep >= 1]: every
    entry of [get_accepted()] is [0] or [1]; the acceptance rate is a
    finite number that is at most [1]; the row returned is the last row of
    the trials and is the chain's current position [_oldpars], whose
    log-probability [_oldlike] is the last entry of [get_loglike()]. *)
Theorem run_mcmc_rate_and_position :
  forall (pars_start : Pars) (nstep : nat) (self : MH),
    (1 <= nstep)%nat ->
    exists (row : Pars) (self' : MH) (arate : R),
      run_mcmc pars_start nstep self = (inr row, self') /\
      Forall (fun a => a = 0%Z \/ a = 1%Z)
             (fitting.get_accepted Pars W self') /\
      fitting.get_acceptance_rate Pars W self' = Fin arate /\
      arate <= 1 /\
      last (fitting.get_trials Pars W self') = Some row /\
      fitting._oldpars Pars W self' = row /\
      last (fitting.get_loglike Pars W self')
      = Some (fitting._oldlike Pars W self').
Proof.
  intros pars_start nstep self Hn.
  destruct (run_mcmc_log pars_start nstep self Hn)
    as (row & self' & Hrun & [Ht Hl Ha Hcur Hf Hop Hol Hrej Hkept]
        & Hlast & Hrate).
  exists row, self', (IZR (fitting.sumZ (fitting._accepted Pars W self'))
                      / INR nstep).
  unfold fitting.get_accepted, fitting.get_acceptance_rate,
    fitting.get_trials, fitting.get_loglike.
  split; [exact Hrun |]. split; [exact Hf |]. split; [exact Hrate |].
  assert (Hpos : 0 < INR nstep) by (apply lt_0_INR; lia).
  split.
  - apply (Rmult_le_reg_r (INR nstep)); [exact Hpos |].
    unfold Rdiv. rewrite Rmult_assoc, Rinv_l, Rmult_1_r, Rmult_1_l by lra.
    rewrite INR_IZR_INZ. apply IZR_le.
    rewrite <- Ha. now apply sumZ_le_length.
  - split; [exact Hlast |].
    rewrite last_lookup, Ht in Hlast.
    rewrite last_lookup, Hl.
    replace (pred nstep) with (nstep - 1)%nat in * by lia.
    split; [congruence | exact Hol].
Qed.

(** X18. In the arrays a run of [nstep >= 1] steps leaves, every row after
    the first that is flagged as not accepted repeats the parameters and
    the log-probability of the row before it, and every row after the
    first that is flagged as accepted has a finite log-probability: a
    proposal whose log-probability is [-inf], [inf] or [nan] is never
    recorded. *)
Theorem run_mcmc_rejected_rows_repeat :
  forall (pars_start : Pars) (nstep : nat) (self : MH),
    (1 <= nstep)%nat ->
    exists (row : Pars) (self' : MH),
      run_mcmc pars_start nstep self = (inr row, self') /\
      (forall i : nat,
          (1 <= i < nstep)%nat ->
          fitting.get_accepted Pars W self' !! i = Some 0%Z ->
          fitting.get_trials Pars W self' !! i
          = fitting.get_trials Pars W self' !! (i - 1)%nat /\
          fitting.get_loglike Pars W self' !! i
          = fitting.get_loglike Pars W self' !! (i - 1)%nat) /\
      (forall (i : nat) (x : xfloat),
          (1 <= i < nstep)%nat ->
          fitting.get_accepted Pars W self' !! i = Some 1%Z ->
          fitting.get_loglike Pars W self' !! i = Some x ->
          xf.isfinite x = true).
Proof.
  intros pars_start nstep self Hn.
  destruct (run_mcmc_log pars_start nstep self Hn)
    as (row & self' & Hrun & [Ht Hl Ha Hcur Hf Hop Hol Hrej Hkept] & _ & _).
  exists row, self'. split; [exact Hrun |]. split; assumption.
Qed.

(** X19. [run_mcmc(pars_start, 0)] raises [IndexError]: the arrays are
    allocated with no rows and the write of the starting point into row
    [0] fails, after [lnprob_func] has been called once. *)
Theorem run_mcmc_zero_steps_raises :
  forall (pars_start : Pars) (self : MH),
    exists self' : MH,
      run_mcmc pars_start 0 self = (inl IndexError, self') /\
      fitting.get_trials Pars W self' = [] /\
      fitting._random_state Pars W self'
      = (lnprob_func pars_start (fitting._random_state Pars W self)).2.
Proof.
  intros pars_start self.
  unfold fitting.run_mcmc, bind, fitting._init_data.
  destruct (lnprob_func pars_start (fitting._random_state Pars W self))
    as [oldlike w].
  eexists. split; [reflexivity |]. split; reflexivity.
Qed.

End MH_bookkeeping.

Lemma run_mcmc_rate_and_position_witness :
  exists (row : nat) (self' : fitting.MH nat unit) (arate : R),
    fitting.run_mcmc nat 0%nat unit (fun _ w => (Fin 0, w))
      (fun p w => (S p, w)) (fun w => (Fin 0.5, w)) 7%nat 2 mh_idle
    = (inr row, self') /\
    Forall (fun a => a = 0%Z \/ a = 1%Z)
           (fitting.get_accepted nat unit self') /\
    fitting.get_acceptance_rate nat unit self' = Fin arate /\
    arate <= 1 /\
    last (fitting.get_trials nat unit self') = Some row /\
    fitting._oldpars nat unit self' = row /\
    last (fitting.get_loglike nat unit self')
    = Some (fitting._oldlike nat unit self').
Proof.
  apply (run_mcmc_rate_and_position nat 0%nat unit (fun _ w => (Fin 0, w))
           (fun p w => (S p, w)) (fun w => (Fin 0.5, w)) 7%nat 2 mh_idle).
  lia.
Defined.

Lemma run_mcmc_rejected_rows_repeat_witness :
  exists (row : nat) (self' : fitting.MH nat unit),
    fitting.run_mcmc nat 0%nat unit (fun _ w => (Fin 0, w))
      (fun p w => (S p, w)) (fun w => (Fin 0.5, w)) 7%nat 3 mh_idle
    = (inr row, self') /\
    (forall i : nat,
        (1 <= i < 3)%nat ->
        fitting.get_accepted nat unit self' !! i = Some 0%Z ->
        fitting.get_trials nat unit self' !! i
        = fitting.get_trials nat unit self' !! (i - 1)%nat /\
        fitting.get_loglike nat unit self' !! i
        = fitting.get_loglike nat unit self' !! (i - 1)%nat) /\
    (forall (i : nat) (x : xfloat),
        (1 <= i < 3)%nat ->
        fitting.get_accepted nat unit self' !! i = Some 1%Z ->
        fitting.get_loglike nat unit self' !! i = Some x ->
        xf.isfinite x = true).
Proof.
  apply (run_mcmc_rejected_rows_repeat nat 0%nat unit
           (fun _ w => (Fin 0, w)) (fun p w => (S p, w))
           (fun w => (Fin 0.5, w)) 7%nat 3 mh_idle).
  lia.
Defined.

(** ** The tempered chain at temperature one *)

Lemma xf_mul_one (x : xfloat) : xf.mul x (Fin 1) = x.
Proof.
  destruct x as [r | | |]; cbn; try reflexivity.
  - now rewrite Rmult_1_r.
  - unfold xf.signed_inf. destruct (Rlt_dec 0 1); [reflexivity | lra].
  - unfold xf.signed_inf.
    repeat match goal with
           | |- context [Rlt_dec ?a ?b] => destruct (Rlt_dec a b)
           end; try reflexivity; lra.
Qed.

Section MHTemp_at_one.

Variable Pars : Type.
Variable zeros_row : Pars.
Variable W : Type.
Variable lnprob_func : Pars -> W -> xfloat * W.
Variable stepper : Pars -> W -> Pars * W.
Variable uniform : W -> xfloat * W.

Local Abbreviation MH := (fitting.MH Pars W).
Local Abbreviation MHTemp := (fitting.MHTemp Pars W).
Local Abbreviation mh := (fitting.mh Pars W).
Local Abbreviation _step := (fitting._step Pars W lnprob_func stepper uniform).
Local Abbreviation steps := (fitting.steps Pars W lnprob_func stepper uniform).
Local Abbreviation _init_data :=
  (fitting._init_data Pars zeros_row W lnprob_func).
Local Abbreviation run_mcmc :=
  (fitting.run_mcmc Pars zeros_row W lnprob_func stepper uniform).
Local Abbreviation MHTemp_step :=
  (fitting.MHTemp_step Pars W lnprob_func stepper uniform).
Local Abbreviation MHTemp_steps :=
  (fitting.MHTemp_steps Pars W lnprob_func stepper uniform).
Local Abbreviation MHTemp_init_data :=
  (fitting.MHTemp_init_data Pars zeros_row W lnprob_func).
Local Abbreviation MHTemp_run_mcmc :=
  (fitting.MHTemp_run_mcmc Pars zeros_row W lnprob_func stepper uniform).

Lemma MHTemp_init_data_at_one (pars_start : Pars) (nstep : nat)
  (self : MHTemp) :
  (1 <= nstep)%nat ->
  fitting.Tinv Pars W self = Fin 1 ->
  exists (self' : MHTemp),
    MHTemp_init_data pars_start nstep self = (inr tt, self') /\
    _init_data pars_start nstep (mh self) = (inr tt, mh self') /\
    untempered self'.
Proof.
  intros Hn HT.
  destruct (init_data_log Pars zeros_row W lnprob_func pars_start nstep
              (mh self) Hn) as (m' & Hinit & Hlog).
  unfold fitting.MHTemp_init_data. rewrite Hinit, HT. cbv zeta.
  rewrite xf_mul_one.
  rewrite setitem_ok by (rewrite (log_loglike _ _ nstep 1 m' Hlog); lia).
  eexists. split; [reflexivity |]. split; [reflexivity |].
  unfold untempered. cbn [fitting.Tinv fitting._loglike_T fitting._oldlike_T
                          fitting.mh].
  split; [reflexivity |]. split; [| reflexivity].
  apply list_insert_id.
  pose proof (log_oldlike _ _ nstep 1 m' Hlog) as H. exact H.
Qed.

Lemma MHTemp_step_at_one (nstep current : nat) (self : MHTemp) :
  (1 <= current < nstep)%nat ->
  chain_log nstep current (mh self) ->
  untempered self ->
  exists (self' : MHTemp),
    MHTemp_step self = (inr tt, self') /\
    _step (mh self) = (inr tt, mh self') /\
    untempered self'.
Proof.
  intros Hc [Ht Hl Ha Hcur Hf Hop Hol Hrej Hkept] (HT & HlT & HoT).
  unfold fitting.MHTemp_step, fitting._step.
  rewrite Hcur, HT, HoT, HlT.
  destruct (stepper _ _) as [newpars w1].
  destruct (lnprob_func newpars w1) as [newlike w2].
  rewrite xf_mul_one.
  destruct (uniform w2) as [randnum w3].
  set (accept := xf.isfinite newlike && _).
  destruct accept.
  - rewrite !setitem_ok by lia.
    eexists. split; [reflexivity |]. split; [reflexivity |].
    unfold untempered. cbn. auto.
  - rewrite !setitem_ok by lia.
    eexists. split; [reflexivity |]. split; [reflexivity |].
    unfold untempered. cbn. auto.
Qed.

Lemma MHTemp_steps_at_one (nstep n : nat) :
  forall (current : nat) (self : MHTemp),
    (1 <= current)%nat -> (current + n <= nstep)%nat ->
    chain_log nstep current (mh self) ->
    untempered self ->
    exists (self' : MHTemp),
      MHTemp_steps n self = (inr tt, self') /\
      steps n (mh self) = (inr tt, mh self') /\
      untempered self'.
Proof.
  induction n as [| n IH]; intros current self Hc Hn Hlog Hun.
  - exists self. repeat split; try reflexivity; apply Hun.
  - destruct (MHTemp_step_at_one nstep current self ltac:(lia) Hlog Hun)
      as (s1 & Hs & Hb & Hun1).
    destruct (step_log Pars zeros_row W lnprob_func stepper uniform nstep current
                (mh self) ltac:(lia) Hlog) as (m1 & Hm1 & Hlog1).
    rewrite Hb in Hm1. injection Hm1 as <-.
    destruct (IH (S current) s1 ltac:(lia) ltac:(lia) Hlog1 Hun1)
      as (s2 & Hs2 & Hb2 & Hun2).
    exists s2. split; [| split; [| exact Hun2]].
    + cbn [fitting.MHTemp_steps]. unfold bind. rewrite Hs. exact Hs2.
    + cbn [fitting.steps]. unfold bind. rewrite Hb. exact Hb2.
Qed.

Lemma MHTemp_run_at_one (pars_start : Pars) (nstep : nat) (self : MHTemp) :
  (1 <= nstep)%nat ->
  fitting.Tinv Pars W self = Fin 1 ->
  exists (row : Pars) (self' : MHTemp),
    MHTemp_run_mcmc pars_start nstep self = (inr row, self') /\
    run_mcmc pars_start nstep (mh self) = (inr row, mh self') /\
    fitting.get_loglike_T Pars W self'
    = fitting.get_loglike Pars W (mh self').
Proof.
  intros Hn HT.
  destruct (MHTemp_init_data_at_one pars_start nstep self Hn HT)
    as (s1 & Hinit & Hb1 & Hun1).
  destruct (init_data_log Pars zeros_row W lnprob_func pars_start nstep
              (mh self) Hn) as (m1 & Hm1 & Hlog1).
  rewrite Hb1 in Hm1. injection Hm1 as <-.
  destruct (MHTemp_steps_at_one nstep (nstep - 1) 1%nat s1 ltac:(lia)
              ltac:(lia) Hlog1 Hun1) as (s2 & Hsteps & Hb2 & Hun2).
  destruct (steps_log Pars zeros_row W lnprob_func stepper uniform nstep
              (nstep - 1) 1%nat (mh s1) ltac:(lia) ltac:(lia) Hlog1)
    as (m2 & Hm2 & Hlog2).
  rewrite Hb2 in Hm2. injection Hm2 as <-.
  replace (1 + (nstep - 1))%nat with nstep in Hlog2 by lia.
  unfold fitting.MHTemp_run_mcmc, fitting.run_mcmc, bind.
  rewrite Hinit, Hsteps, Hb1, Hb2. cbv zeta.
  destruct (last (fitting._trials Pars W (mh s2))) as [row |] eqn:Hlast.
  2:{ apply last_None in Hlast.
      pose proof (log_trials _ _ nstep nstep (mh s2) Hlog2) as Ht.
      rewrite Hlast in Ht. cbn in Ht. lia. }
  exists row. eexists. split; [reflexivity |]. split; [reflexivity |].
  unfold fitting.get_loglike_T, fitting.get_loglike. cbn. apply Hun2.
Qed.

(** X20. A tempered chain at temperature one is the plain chain.  For an
    [MHTemp] object made with [T = 1] and [nstep >= 1], [run_mcmc] returns
    the row, and leaves the trials, the log-probabilities, the flags, the
    acceptance rate and the generator state, that [MH.run_mcmc] would from
    the same state; and [get_loglike_T()] equals [get_loglike()].  (With
    [T = 0] the constructor raises [ZeroDivisionError].) *)
Theorem MHTemp_at_temperature_one :
  forall (pars_start : Pars) (nstep : nat) (self0 self : MHTemp),
    (1 <= nstep)%nat ->
    fitting.MHTemp__init__ Pars W self0 1 = inr self ->
    fitting.MHTemp__init__ Pars W self0 0 = inl ZeroDivisionError /\
    fitting.mh Pars W self = fitting.mh Pars W self0 /\
    exists (row : Pars) (self' : MHTemp),
      MHTemp_run_mcmc pars_start nstep self = (inr row, self') /\
      run_mcmc pars_start nstep (mh self) = (inr row, mh self') /\
      fitting.get_loglike_T Pars W self'
      = fitting.get_loglike Pars W (mh self').
Proof.
  intros pars_start nstep self0 self Hn Hinit.
  split.
  { unfold fitting.MHTemp__init__.
    destruct (Req_dec_T 0 0) as [_ | H]; [reflexivity | lra]. }
  unfold fitting.MHTemp__init__ in Hinit.
  destruct (Req_dec_T 1 0) as [H | _]; [lra |].
  injection Hinit as <-. split; [reflexivity |].
  apply MHTemp_run_at_one; [exact Hn |].
  cbn [fitting.Tinv]. f_equal. field.
Qed.

End MHTemp_at_one.

Lemma MHTemp_at_temperature_one_witness :
  exists (row : nat) (self' : fitting.MHTemp nat unit),
    fitting.MHTemp_run_mcmc nat 0%nat unit (fun _ w => (Fin 0, w))
      (fun p w => (S p, w)) (fun w => (Fin 0.5, w)) 7%nat 2
      (fitting.mk_MHTemp nat unit mh_idle 1 (Fin (1 / 1)) (Fin 0) [])
    = (inr row, self') /\
    fitting.run_mcmc nat 0%nat unit (fun _ w => (Fin 0, w))
      (fun p w => (S p, w)) (fun w => (Fin 0.5, w)) 7%nat 2 mh_idle
    = (inr row, fitting.mh nat unit self') /\
    fitting.get_loglike_T nat unit self'
    = fitting.get_loglike nat unit (fitting.mh nat unit self').
Proof.
  apply (MHTemp_at_temperature_one nat 0%nat unit (fun _ w => (Fin 0, w))
           (fun p w => (S p, w)) (fun w => (Fin 0.5, w)) 7%nat 2
           (fitting.mk_MHTemp nat unit mh_idle 0 (Fin 0) (Fin 0) [])
           (fitting.mk_MHTemp nat unit mh_idle 1 (Fin (1 / 1)) (Fin 0) [])).
  - lia.
  - unfold fitting.MHTemp__init__.
    destruct (Req_dec_T 1 0) as [H | _]; [lra | reflexivity].
Defined.

(** ** What [flags = 0] means after [run_leastsq] *)

Lemma failure_res_lookup (npars : nat) (flags : Z) (errmsg : string) :
  fitting.failure_res npars flags errmsg !! "flags" = Some (PyInt flags) /\
  fitting.failure_res npars flags errmsg !! "pars_err" = None /\
  fitting.failure_res npars flags errmsg !! "ier" = None.
Proof. repeat split; reflexivity. Qed.

(** X21. Whenever [run_leastsq] returns a dictionary, its ['flags'] entry
    is an integer, and it is [0] exactly when the solver returned a status
    code [ier <= 4] other than [0] together with a covariance, [func]
    could be evaluated at the solution, and the scaled covariance passed
    [_test_cov].  In that case (and only then) ['pars_err'] is
    [sqrt(diag(pars_cov))] and ['pars'] is the solver's solution; with
    non-zero flags ['pars_err'] is either the sentinel array or, on the
    two caught exceptions, not set at all. *)
Theorem run_leastsq_flags_zero_iff :
  forall (linalg_eig : list (list xfloat) -> result (list xfloat))
         (leastsq : result fitting.lm_tup)
         (func : list xfloat -> result (list xfloat))
         (npars : nat) (dof : xfloat) (n_prior_pars : nat)
         (res : gmap string pyval),
    fitting.run_leastsq linalg_eig leastsq func npars dof n_prior_pars
    = inr res ->
    exists flags : Z,
      res !! "flags" = Some (PyInt flags) /\
      (flags = 0%Z <->
       exists pars pcov0 nfev errmsg ier fdiff,
         leastsq = inr (pars, Some pcov0, nfev, errmsg, ier) /\
         ier <> 0%Z /\ (ier <= 4)%Z /\
         func pars = inr fdiff /\
         fitting._test_cov linalg_eig
           (map (map (fun x =>
              xf.mul x (xf.div (fitting.sum_squares_from n_prior_pars fdiff)
                               dof))) pcov0) = 0%Z /\
         res !! "pars" = Some (PyArray pars) /\
         res !! "pars_cov"
         = Some (PyMatrix
                   (map (map (fun x =>
                      xf.mul x
                        (xf.div (fitting.sum_squares_from n_prior_pars fdiff)
                                dof))) pcov0)) /\
         res !! "pars_err"
         = Some (PyArray
                   (map xf.sqrt
                      (fitting.diag
                         (map (map (fun x =>
                            xf.mul x
                              (xf.div
                                 (fitting.sum_squares_from n_prior_pars fdiff)
                                 dof))) pcov0))))) /\
      (flags <> 0%Z ->
       res !! "pars_err" = None \/
       res !! "pars_err" = Some (PyArray (replicate npars fitting.CDEF))).
Proof.
  intros linalg_eig leastsq func npars dof n_prior_pars res Hrun.
  unfold fitting.run_leastsq, fitting.run_leastsq_try in Hrun.
  assert (Hfail : forall (flags : Z) (errmsg : string),
             flags <> 0%Z ->
             (forall pars pcov0 nfev errmsg ier fdiff,
                 leastsq = inr (pars, Some pcov0, nfev, errmsg, ier) ->
                 ier <> 0%Z -> (ier <= 4)%Z -> func pars = inr fdiff ->
                 fitting._test_cov linalg_eig
                   (map (map (fun x =>
                      xf.mul x
                        (xf.div (fitting.sum_squares_from n_prior_pars fdiff)
                                dof))) pcov0) = 0%Z ->
                 False) ->
             res = fitting.failure_res npars flags errmsg ->
             exists flags : Z,
               res !! "flags" = Some (PyInt flags) /\
               (flags = 0%Z <->
                exists pars pcov0 nfev errmsg ier fdiff,
                  leastsq = inr (pars, Some pcov0, nfev, errmsg, ier) /\
                  ier <> 0%Z /\ (ier <= 4)%Z /\
                  func pars = inr fdiff /\
                  fitting._test_cov linalg_eig
                    (map (map (fun x =>
                       xf.mul x
                         (xf.div
                            (fitting.sum_squares_from n_prior_pars fdiff)
                            dof))) pcov0) = 0%Z /\
                  res !! "pars" = Some (PyArray pars) /\
                  res !! "pars_cov"
                  = Some (PyMatrix
                            (map (map (fun x =>
                               xf.mul x
                                 (xf.div
                                    (fitting.sum_squares_from n_prior_pars
                                       fdiff) dof))) pcov0)) /\
                  res !! "pars_err"
                  = Some (PyArray
                            (map xf.sqrt
                               (fitting.diag
                                  (map (map (fun x =>
                                     xf.mul x
                                       (xf.div
                                          (fitting.sum_squares_from
                                             n_prior_pars fdiff) dof)))
                                     pcov0))))) /\
               (flags <> 0%Z ->
                res !! "pars_err" = None \/
                res !! "pars_err"
                = Some (PyArray (replicate npars fitting.CDEF)))).
  { intros flags errmsg Hne Hno ->. exists flags.
    destruct (failure_res_lookup npars flags errmsg) as (Hf & He & _).
    split; [exact Hf |]. split.
    - split; [intros E; contradiction |].
      intros (pars & pcov0 & nfev & em & ier & fdiff & H1 & H2 & H3 & H4
              & H5 & _).
      exfalso. eapply Hno; eassumption.
    - intros _. now left. }
  destruct leastsq as [e | [[[[pars pcov0] nfev] errmsg] ier]].
  - (* the solver raised *)
    destruct e as [| | | msg | | | key | |]; try discriminate.
    + injection Hrun as <-.
      apply (Hfail fitting.LM_DIV_ZERO "zero division");
        [discriminate | intros; discriminate | reflexivity].
    + destruct (fitting.contains "NaNs" msg || fitting.contains "infs" msg);
        [| discriminate].
      injection Hrun as <-.
      apply (Hfail fitting.LM_FUNC_NOTFINITE "not finite");
        [discriminate | intros; discriminate | reflexivity].
  - destruct (decide (ier = 0)%Z) as [E | Hier0].
    { (* status 0: the error message is raised, and perhaps caught *)
      destruct (fitting.contains "NaNs" errmsg
                || fitting.contains "infs" errmsg); [| discriminate].
      injection Hrun as <-.
      apply (Hfail fitting.LM_FUNC_NOTFINITE "not finite");
        [discriminate | | reflexivity].
      intros ? ? ? ? ? ? [= -> -> -> -> ->] H0. contradiction. }
    destruct (decide (ier > 4)%Z) as [Hbig | Hsmall].
    { cbn [fitting._get_def_stuff] in Hrun. injection Hrun as <-.
      exists (2 ^ (ier - 5))%Z. split; [reflexivity |].
      assert (0 < 2 ^ (ier - 5))%Z by (apply Z.pow_pos_nonneg; lia).
      split.
      - split; [lia |].
        intros (? & ? & ? & ? & ? & ? & [= -> -> -> -> ->] & ? & ? & _). lia.
      - intros _. now right. }
    destruct pcov0 as [pcov0 |].
    2:{ cbn [fitting._get_def_stuff] in Hrun. injection Hrun as <-.
        exists (0 + fitting.LM_SINGULAR_MATRIX)%Z. split; [reflexivity |].
        split.
        - split; [discriminate |].
          intros (? & ? & ? & ? & ? & ? & [=] & _).
        - intros _. now right. }
    destruct (func pars) as [e | fdiff] eqn:Hfunc.
    { (* [func] raised at the solution *)
      destruct e as [| | | msg | | | key | |]; try discriminate.
      + injection Hrun as <-.
        apply (Hfail fitting.LM_DIV_ZERO "zero division");
          [discriminate | | reflexivity].
        intros ? ? ? ? ? ? [= <- <- <- <- <-] _ _ Hf. congruence.
      + destruct (fitting.contains "NaNs" msg
                  || fitting.contains "infs" msg); [| discriminate].
        injection Hrun as <-.
        apply (Hfail fitting.LM_FUNC_NOTFINITE "not finite");
          [discriminate | | reflexivity].
        intros ? ? ? ? ? ? [= <- <- <- <- <-] _ _ Hf. congruence. }
    set (pcov := map (map (fun x =>
                   xf.mul x
                     (xf.div (fitting.sum_squares_from n_prior_pars fdiff)
                             dof))) pcov0) in *.
    destruct (decide (fitting._test_cov linalg_eig pcov <> 0)%Z)
      as [Hbad | Hgood].
    + cbn [fitting._get_def_stuff] in Hrun. injection Hrun as <-.
      exists (0 + fitting._test_cov linalg_eig pcov)%Z.
      split; [reflexivity |]. split.
      * split; [lia |].
        intros (? & ? & ? & ? & ? & fdiff' & [= <- <- <- <- <-] & _ & _
                & Hf & Ht & _).
        rewrite Hfunc in Hf. injection Hf as <-. fold pcov in Ht. lia.
      * intros _. now right.
    + injection Hrun as <-.
      exists 0%Z. split; [reflexivity |]. split.
      * split; [| reflexivity]. intros _.
        exists pars, pcov0, nfev, errmsg, ier, fdiff.
        fold pcov. repeat split; try reflexivity; try assumption; lia.
      * intros H. contradiction.
Qed.

Lemma run_leastsq_flags_zero_iff_witness :
  exists (res : gmap string pyval) (flags : Z),
    fitting.run_leastsq (fun _ => inr []) solved_singular (fun _ => inr [])
      1 (Fin 1) 0 = inr res /\
    res !! "flags" = Some (PyInt flags) /\
    flags <> 0%Z.
Proof.
  eexists.
  destruct (run_leastsq_flags_zero_iff (fun _ => inr []) solved_singular
              (fun _ => inr []) 1 (Fin 1) 0 _ eq_refl)
    as (flags & Hf & Hiff & _).
  exists flags. split; [reflexivity |]. split; [exact Hf |].
  intros E. apply Hiff in E.
  destruct E as (? & ? & ? & ? & ? & ? & E & _). discriminate E.
Defined.

(** ** Division by zero while the mixtures are filled *)

Lemma foldM_never {S A B : Type} (e0 : exn) (body : B -> A -> M S B)
  (l : list A) :
  (forall (acc : B) (x : A) (s : S), (body acc x s).1 <> inl e0) ->
  forall (acc : B) (s : S), (foldM body l acc s).1 <> inl e0.
Proof.
  intros Hbody. induction l as [| x l IH]; intros acc s.
  - cbn. discriminate.
  - rewrite foldM_cons. specialize (Hbody acc x s).
    destruct (body acc x s) as [[e | acc'] s']; [exact Hbody | apply IH].
Qed.

Lemma except_zero_division_never {S A : Type} (body : M S A) (e : exn)
  (s : S) :
  e <> ZeroDivisionError ->
  (fitting.except_zero_division body (raise e) s).1
  <> inl ZeroDivisionError.
Proof.
  intros He. unfold fitting.except_zero_division.
  destruct (body s) as [[e' | a] s']; [| discriminate].
  destruct e'; cbn; congruence.
Qed.

Section fill_nopsf.

Variable Obs : Type.
Variable obs_psf_gmix : Obs -> list gmix.gauss2d.
Variable _get_band_pars : list xfloat -> nat -> result (list xfloat).
Variable gmix_fill : list xfloat -> Z -> M (list gmix.gauss2d) unit.
Variable convolve_fill :
  list gmix.gauss2d -> list gmix.gauss2d -> M (list gmix.gauss2d) unit.

(** X22. Without a psf ([dopsf] false), no [ZeroDivisionError] raised by
    the compiled [gmix_fill] leaves [_fill_gmix_all]: whatever [gmix_fill]
    does, the call never ends in [ZeroDivisionError] (provided
    [_get_band_pars] does not raise it), because the [except] clause of
    [_fill_gmix_all_nopsf] re-raises it as [GMixRangeError]. *)
Theorem fill_gmix_all_nopsf_no_zero_division :
  forall (pars : list xfloat) (self : fitting.FitterBase Obs),
    fitting.dopsf Obs self = false ->
    (forall (p : list xfloat) (band : nat),
        _get_band_pars p band <> inl ZeroDivisionError) ->
    (fitting._fill_gmix_all Obs obs_psf_gmix _get_band_pars gmix_fill
       convolve_fill pars self).1
    <> inl ZeroDivisionError.
Proof.
  intros pars self Hpsf Hband.
  unfold fitting._fill_gmix_all. rewrite Hpsf. cbn [negb].
  unfold fitting._fill_gmix_all_nopsf.
  apply foldM_never. intros [] [band obs_list] s.
  unfold bind at 1, fitting.band_lists.
  destruct (fitting._gmix_all0 Obs s !! band); [| cbn; discriminate].
  destruct (fitting._gmix_all Obs s !! band); [| cbn; discriminate].
  unfold bind at 1, lift.
  specialize (Hband pars band).
  destruct (_get_band_pars pars band) as [e | band_pars];
    [cbn; congruence |].
  apply foldM_never. intros [] [i o] s'.
  apply except_zero_division_never. discriminate.
Qed.

End fill_nopsf.

Lemma fill_gmix_all_nopsf_no_zero_division_witness :
  (fitting._fill_gmix_all unit (fun _ => []) (fun pars _ => inr pars)
     (fun _ _ => raise ZeroDivisionError) (fun _ _ => ret tt)
     [Fin 0; Fin 0; Fin 0; Fin 0; Fin 4; Fin 1] fitter_raising).1
  <> inl ZeroDivisionError.
Proof.
  apply (fill_gmix_all_nopsf_no_zero_division unit (fun _ => [])
           (fun pars _ => inr pars) (fun _ _ => raise ZeroDivisionError)
           (fun _ _ => ret tt)
           [Fin 0; Fin 0; Fin 0; Fin 0; Fin 4; Fin 1] fitter_raising).
  - reflexivity.
  - intros p band. discriminate.
Defined.

(** ** The outcomes of [calc_cov] *)

(** X23. [MaxSimple.calc_cov] on a result that holds ['pars'] and
    ['flags'] never lets [LinAlgError] escape, whatever the Hessian routine
    and the matrix inversion do.  When it returns, exactly one of two
    things has happened: either a covariance was found whose variances are
    all positive and finite, and ['pars_cov'], ['pars_err'] =
    [sqrt(diag(cov))] and ['g_cov'] = [cov[2:4, 2:4]] were added with the
    flags untouched; or nothing was added and bit [EIG_NOTFINITE] was set
    in the flags. *)
Theorem calc_cov_outcomes :
  forall (calc_hess : list xfloat -> xfloat -> result (list (list xfloat)))
         (linalg_inv : list (list xfloat) -> result (list (list xfloat)))
         (res : gmap string pyval) (pars : list xfloat) (h m : xfloat)
         (flags : Z),
    res !! "pars" = Some (PyArray pars) ->
    res !! "flags" = Some (PyInt flags) ->
    let out := fitting.calc_cov calc_hess linalg_inv h m (Some res) in
    out.1 <> inl LinAlgError /\
    (out.1 = inr tt ->
     (exists cov : list (list xfloat),
         fitting.get_cov calc_hess linalg_inv pars h m = inr cov /\
         Forall (fun x => exists r : R, x = Fin r /\ 0 < r)
                (fitting.diag cov) /\
         out.2
         = Some (<["g_cov" := PyMatrix (fitting.block22 cov)]>
                   (<["pars_err" := PyArray (map xf.sqrt (fitting.diag cov))]>
                      (<["pars_cov" := PyMatrix cov]> res)))) \/
     (out.2
      = Some (<["flags" := PyInt (Z.lor flags fitting.EIG_NOTFINITE)]> res) /\
      Z.testbit (Z.lor flags fitting.EIG_NOTFINITE) 7 = true)) /\
    (forall e : exn, out.1 = inl e -> out.2 = Some res).
Proof.
  intros calc_hess linalg_inv res pars h m flags Hp Hf out.
  assert (Hbit : Z.testbit (Z.lor flags fitting.EIG_NOTFINITE) 7 = true).
  { rewrite Z.lor_spec. change (Z.testbit fitting.EIG_NOTFINITE 7) with true.
    apply orb_true_r. }
  destruct (fitting.get_cov calc_hess linalg_inv pars h m) as [e | cov]
    eqn:Hcov.
  - subst out. unfold fitting.calc_cov, fitting.calc_cov_try.
    rewrite Hp, Hcov.
    destruct e; rewrite ?Hf; cbn [fst snd];
      (split; [discriminate |]);
      (split; [try discriminate
              | intros e' He'; first [discriminate He' | reflexivity]]).
    intros _. right. split; [reflexivity | exact Hbit].
  - destruct (calc_cov_keeps_positive_finite calc_hess linalg_inv res pars
                h m cov flags Hp Hf Hcov) as [Hgood Hbad].
    assert (Hdec : Forall (fun x => exists r : R, x = Fin r /\ 0 < r)
                     (fitting.diag cov)
                   \/ ~ Forall (fun x => exists r : R, x = Fin r /\ 0 < r)
                        (fitting.diag cov)).
    { pose proof (variances_checks (fitting.diag cov)) as Hchk.
      destruct (forallb (fun x => negb (xf.le x (Fin 0))) (fitting.diag cov)
                && forallb xf.isfinite (map xf.sqrt (fitting.diag cov)));
        [left; now apply Hchk |].
      right. intros H. apply Hchk in H. discriminate. }
    subst out. destruct Hdec as [Hall | Hnall].
    + rewrite (Hgood Hall). cbn [fst snd].
      split; [discriminate |]. split; [| intros e [=]].
      intros _. left. exists cov. now repeat split.
    + rewrite (Hbad Hnall). cbn [fst snd].
      split; [discriminate |]. split; [| intros e [=]].
      intros _. right. split; [reflexivity | exact Hbit].
Qed.

Lemma calc_cov_outcomes_witness :
  (fitting.calc_cov (fun _ _ => inr hess_rank_one) inv_diagonal
     (Fin 0.001) (Fin 5) (Some res_nm)).1 <> inl LinAlgError.
Proof.
  apply (calc_cov_outcomes (fun _ _ => inr hess_rank_one) inv_diagonal
           res_nm pars_round (Fin 0.001) (Fin 5) 0).
  - reflexivity.
  - reflexivity.
Defined.

(** ** The shear at which [get_cov] takes the Hessian *)

Lemma get_cov_within (calc_hess : list xfloat -> xfloat -> result (list (list xfloat)))
  (linalg_inv : list (list xfloat) -> result (list (list xfloat)))
  (pars : list xfloat) (a b hh mm : R) :
  pars !! 2%nat = Some (Fin a) -> pars !! 3%nat = Some (Fin b) ->
  sqrt (a * a + b * b) <= 1 - mm * hh ->
  fitting.get_cov calc_hess linalg_inv pars (Fin hh) (Fin mm)
  = cov_at calc_hess linalg_inv pars (Fin hh).
Proof.
  intros H2 H3 Hle. unfold fitting.get_cov, fitting.getx. rewrite H2, H3.
  cbn [xf.mul xf.add xf.sub xf.neg]. unfold xf.sqrt.
  destruct (Rlt_dec (a * a + b * b) 0) as [Hneg | _].
  { pose proof (Rle_0_sqr a). pose proof (Rle_0_sqr b).
    unfold Rsqr in *. lra. }
  unfold xf.gt, xf.lt.
  destruct (Rlt_dec (1 + - (mm * hh)) (sqrt (a * a + b * b))) as [Hgt | _];
    [lra | reflexivity].
Qed.

Lemma get_cov_beyond (calc_hess : list xfloat -> xfloat -> result (list (list xfloat)))
  (linalg_inv : list (list xfloat) -> result (list (list xfloat)))
  (pars : list xfloat) (a b hh mm : R) :
  pars !! 2%nat = Some (Fin a) -> pars !! 3%nat = Some (Fin b) ->
  0 <= 1 - mm * hh ->
  1 - mm * hh < sqrt (a * a + b * b) ->
  fitting.get_cov calc_hess linalg_inv pars (Fin hh) (Fin mm)
  = cov_at calc_hess linalg_inv
      (<[3%nat := Fin (b * ((1 + - (mm * hh)) / sqrt (a * a + b * b)))]>
         (<[2%nat := Fin (a * ((1 + - (mm * hh)) / sqrt (a * a + b * b)))]>
            pars))
      (Fin hh).
Proof.
  intros H2 H3 Hmax Hgt. unfold fitting.get_cov, fitting.getx.
  rewrite H2, H3.
  cbn [xf.mul xf.add xf.sub xf.neg]. unfold xf.sqrt.
  destruct (Rlt_dec (a * a + b * b) 0) as [Hneg | _].
  { pose proof (Rle_0_sqr a). pose proof (Rle_0_sqr b).
    unfold Rsqr in *. lra. }
  unfold xf.gt, xf.lt.
  destruct (Rlt_dec (1 + - (mm * hh)) (sqrt (a * a + b * b))) as [_ | Hn];
    [| lra].
  unfold xf.div.
  destruct (Req_dec_T (sqrt (a * a + b * b)) 0) as [E | _]; [lra |].
  reflexivity.
Qed.

(** X24. [MaxSimple.get_cov] takes the Hessian at a shear of magnitude at
    most [maxg = 1 - m*h].  For finite parameters and [maxg >= 0], with
    [(g1, g2) = (pars[2], pars[3])] and [g = sqrt(g1^2 + g2^2)]: the call
    gives what it gives on the parameters whose shear [(g1', g2')] points
    the same way and has magnitude [min(g, maxg)]: [(g1, g2)] itself when
    [g <= maxg], and [(g1, g2)*maxg/g] otherwise.  No other parameter is
    changed. *)
Theorem get_cov_clips_shear :
  forall (calc_hess : list xfloat -> xfloat -> result (list (list xfloat)))
         (linalg_inv : list (list xfloat) -> result (list (list xfloat)))
         (pars : list xfloat) (g1 g2 h m : R),
    pars !! 2%nat = Some (Fin g1) ->
    pars !! 3%nat = Some (Fin g2) ->
    0 <= 1 - m * h ->
    let g := sqrt (g1 * g1 + g2 * g2) in
    let maxg := 1 - m * h in
    exists g1' g2' : R,
      sqrt (g1' * g1' + g2' * g2') = Rmin g maxg /\
      g1' * g2 = g2' * g1 /\
      0 <= g1 * g1' /\ 0 <= g2 * g2' /\
      (g <= maxg -> g1' = g1 /\ g2' = g2) /\
      fitting.get_cov calc_hess linalg_inv pars (Fin h) (Fin m)
      = fitting.get_cov calc_hess linalg_inv
          (<[3%nat := Fin g2']> (<[2%nat := Fin g1']> pars)) (Fin h) (Fin m).
Proof.
  intros calc_hess linalg_inv pars g1 g2 h m H2 H3 Hmax g maxg.
  destruct (Rle_dec g maxg) as [Hle | Hgt].
  - exists g1, g2.
    rewrite Rmin_left by exact Hle.
    split; [reflexivity |]. split; [ring |].
    split; [apply Rle_0_sqr |]. split; [apply Rle_0_sqr |].
    split; [tauto |].
    rewrite (list_insert_id pars 2 (Fin g1) H2).
    now rewrite (list_insert_id pars 3 (Fin g2) H3).
  - apply Rnot_le_lt in Hgt.
    assert (Hg : 0 < g) by (unfold maxg in *; lra).
    set (fac := (1 + - (m * h)) / g).
    assert (Hfac : 0 <= fac).
    { unfold fac. apply Rmult_le_pos; [lra |].
      left. now apply Rinv_0_lt_compat. }
    assert (Hgg : g * g = g1 * g1 + g2 * g2).
    { unfold g. apply sqrt_sqrt.
      pose proof (Rle_0_sqr g1). pose proof (Rle_0_sqr g2).
      unfold Rsqr in *. lra. }
    assert (Hnew : sqrt (g1 * fac * (g1 * fac) + g2 * fac * (g2 * fac))
                   = maxg).
    { assert (Heq : g1 * fac * (g1 * fac) + g2 * fac * (g2 * fac)
                    = fac * g * (fac * g)).
      { transitivity (fac * fac * (g1 * g1 + g2 * g2)); [ring |].
        rewrite <- Hgg. ring. }
      rewrite Heq.
      rewrite sqrt_square by (apply Rmult_le_pos; lra).
      unfold fac, maxg. field. lra. }
    exists (g1 * fac), (g2 * fac).
    rewrite Rmin_right by lra.
    split; [exact Hnew |]. split; [ring |].
    split.
    { replace (g1 * (g1 * fac)) with (g1 * g1 * fac) by ring.
      apply Rmult_le_pos; [apply Rle_0_sqr | exact Hfac]. }
    split.
    { replace (g2 * (g2 * fac)) with (g2 * g2 * fac) by ring.
      apply Rmult_le_pos; [apply Rle_0_sqr | exact Hfac]. }
    split; [intros Hle; lra |].
    rewrite (get_cov_beyond calc_hess linalg_inv pars g1 g2 h m H2 H3 Hmax Hgt).
    fold g. fold fac.
    assert (Hlen2 : (2 < length pars)%nat)
      by (apply lookup_lt_is_Some; eauto).
    assert (Hlen3 : (3 < length pars)%nat)
      by (apply lookup_lt_is_Some; eauto).
    symmetry.
    rewrite (get_cov_within calc_hess linalg_inv _ (g1 * fac) (g2 * fac) h m).
    + reflexivity.
    + rewrite list_lookup_insert_ne by lia.
      apply list_lookup_insert_eq. lia.
    + apply list_lookup_insert_eq. rewrite length_insert. lia.
    + rewrite Hnew. unfold maxg. lra.
Qed.

Lemma get_cov_clips_shear_witness :
  exists g1' g2' : R,
    sqrt (g1' * g1' + g2' * g2') = Rmin (sqrt (0 * 0 + 0 * 0)) (1 - 5 * 0.001)
    /\ g1' * 0 = g2' * 0.
Proof.
  destruct (get_cov_clips_shear (fun _ _ => inr hess_rank_one) inv_diagonal
              pars_round 0 0 0.001 5 eq_refl eq_refl ltac:(lra))
    as (g1' & g2' & H1 & H2 & _).
  exists g1', g2'. split; assumption.
Defined.

(** ** Fit statistics after a range error *)

Section fit_stats.

Variable Obs : Type.
Variable obs_psf_gmix : Obs -> list gmix.gauss2d.
Variable obs_model_image : Obs -> list (list xfloat).
Variables LOWVAL BIGVAL : xfloat.
Variable _get_priors : list xfloat -> result xfloat.
Variable _get_band_pars : list xfloat -> nat -> result (list xfloat).
Variable gmix_fill : list xfloat -> Z -> M (list gmix.gauss2d) unit.
Variable convolve_fill :
  list gmix.gauss2d -> list gmix.gauss2d -> M (list gmix.gauss2d) unit.
Variable get_loglike_robust :
  fitting.GMixObj -> Obs -> xfloat -> Z -> result (xfloat * xfloat * xfloat).
Variable get_loglike_margsky :
  fitting.GMixObj -> Obs -> list (list xfloat) -> Z ->
  result (xfloat * xfloat * xfloat).
Variable get_loglike :
  fitting.GMixObj -> Obs -> Z -> result (xfloat * xfloat * xfloat).

Local Abbreviation fill_gmix_all :=
  (fitting._fill_gmix_all Obs obs_psf_gmix _get_band_pars gmix_fill
     convolve_fill).
Local Abbreviation loglike_loops :=
  (fitting.loglike_loops Obs obs_model_image get_loglike_robust
     get_loglike_margsky get_loglike).
Local Abbreviation calc_lnprob :=
  (fitting.calc_lnprob Obs obs_psf_gmix obs_model_image LOWVAL BIGVAL
     _get_priors _get_band_pars gmix_fill convolve_fill get_loglike_robust
     get_loglike_margsky get_loglike).
Local Abbreviation _get_fit_stats :=
  (fitting._get_fit_stats Obs obs_psf_gmix obs_model_image LOWVAL BIGVAL
     _get_priors _get_band_pars gmix_fill convolve_fill get_loglike_robust
     get_loglike_margsky get_loglike).
Local Abbreviation pipeline_raises :=
  (range_error_in_pipeline Obs obs_psf_gmix obs_model_image _get_priors
     _get_band_pars gmix_fill convolve_fill get_loglike_robust
     get_loglike_margsky get_loglike).

Lemma calc_lnprob_s2nsums_on_range_error (pars : list xfloat)
  (self : fitting.FitterBase Obs) :
  pipeline_raises pars self ->
  (calc_lnprob pars true false self).1
  = inr (fitting.RetS2nSums LOWVAL (Fin 0) BIGVAL).
Proof.
  intros Hraise. unfold fitting.calc_lnprob.
  destruct Hraise as [Hp | (lp & Hp & Hrest)]; rewrite Hp; [reflexivity |].
  assert (Hbody :
    (fitting.calc_lnprob_body Obs obs_psf_gmix obs_model_image
       _get_band_pars gmix_fill convolve_fill get_loglike_robust
       get_loglike_margsky get_loglike pars (fitting.nsub Obs self) lp
       (Fin 0) (Fin 0) self).1 = inl GMixRangeError).
  { unfold fitting.calc_lnprob_body, bind.
    destruct Hrest as [Hfill | (self1 & Hfill & Hloop)].
    - destruct (fill_gmix_all pars self) as [[e | u] s1]; cbn in *;
        [congruence | discriminate].
    - rewrite Hfill.
      destruct (loglike_loops (fitting.nsub Obs self)
                  (Fin 0, Fin 0, Fin 0) self1) as [[e | [[a b] c]] s2];
        cbn in *; [congruence | discriminate]. }
  destruct (fitting.calc_lnprob_body _ _ _ _ _ _ _ _ _ _ _ _ _ _ _)
    as [[e | [[a b] c]] s'] eqn:E; cbn in Hbody; [| discriminate].
  injection Hbody as ->. reflexivity.
Qed.

(** X25. A range error shows in the fit statistics as values, never as an
    exception.  When the first exception inside [calc_lnprob] is a
    [GMixRangeError] and [BIGVAL] is a positive finite number,
    [_get_fit_stats] returns a dictionary with ['lnprob'] = [LOWVAL] and
    ['s2n_w'] = [0.0]; its ['dof'] is positive ([npix - npars], or [1e-6]
    when that is not positive), so that ['chi2per'] =
    [LOWVAL/(-0.5)/dof] is a division by a non-zero number. *)
Theorem get_fit_stats_on_range_error :
  forall (npars npix : Z) (pars : list xfloat)
         (self : fitting.FitterBase Obs) (b : R),
    pipeline_raises pars self ->
    BIGVAL = Fin b -> 0 < b ->
    exists (stats : gmap string pyval) (d : R),
      (_get_fit_stats npars npix pars self).1 = inr stats /\
      stats !! "lnprob" = Some (PyFloat LOWVAL) /\
      stats !! "s2n_w" = Some (PyFloat (Fin 0)) /\
      stats !! "dof" = Some (PyFloat (Fin d)) /\
      0 < d /\
      (d = IZR (npix - npars) \/ (npix - npars <= 0)%Z /\ d = 1e-6) /\
      stats !! "chi2per"
      = Some (PyFloat (xf.div (xf.div LOWVAL (Fin (-0.5))) (Fin d))).
Proof.
  intros npars npix pars self b Hraise HB Hb.
  pose proof (calc_lnprob_s2nsums_on_range_error pars self Hraise) as Hcalc.
  unfold fitting._get_fit_stats, bind.
  destruct (calc_lnprob pars true false self) as [r self'].
  cbn [fst] in Hcalc. subst r. rewrite HB.
  unfold xf.gt, xf.lt.
  destruct (Rlt_dec 0 b) as [_ | Hn]; [| contradiction].
  unfold xf.sqrt. destruct (Rlt_dec b 0) as [Hneg | _]; [lra |].
  unfold xf.div at 1.
  assert (Hsq : sqrt b <> 0).
  { pose proof (sqrt_lt_R0 b Hb). lra. }
  destruct (Req_dec_T (sqrt b) 0) as [E | _]; [contradiction |].
  assert (Hd : exists d : R,
             fitting.get_dof npix npars = Fin d /\ 0 < d /\
             (d = IZR (npix - npars) \/ (npix - npars <= 0)%Z /\ d = 1e-6)).
  { unfold fitting.get_dof. cbv zeta.
    destruct (decide (npix - npars <= 0)%Z) as [Hle | Hgt].
    - exists 1e-6. split; [reflexivity |]. split; [lra | now right].
    - exists (IZR (npix - npars)). split; [reflexivity |].
      split; [apply IZR_lt; lia | now left]. }
  destruct Hd as (d & Hdof & Hdpos & Hdval).
  rewrite Hdof. cbv zeta.
  eexists. exists d. split; [reflexivity |].
  split; [reflexivity |].
  split.
  { rewrite lookup_insert_eq. do 3 f_equal. unfold Rdiv. ring. }
  split; [reflexivity |]. split; [exact Hdpos |]. split; [exact Hdval |].
  reflexivity.
Qed.

End fit_stats.

Lemma get_fit_stats_on_range_error_witness :
  exists (stats : gmap string pyval) (d : R),
    (fitting._get_fit_stats unit (fun _ => []) (fun _ => [])
       (Fin (-9999)) (Fin 9999)
       (fun _ => inr (Fin 0)) (fun pars _ => inr pars)
       (fun _ _ => ret tt) (fun _ _ => ret tt)
       (fun _ _ _ _ => inl GMixRangeError)
       (fun _ _ _ _ => inl GMixRangeError)
       (fun _ _ _ => inl GMixRangeError)
       6 25 [Fin 0; Fin 0; Fin 0; Fin 0; Fin 4; Fin 1] fitter_raising).1
    = inr stats /\
    stats !! "lnprob" = Some (PyFloat (Fin (-9999))) /\
    stats !! "s2n_w" = Some (PyFloat (Fin 0)) /\
    stats !! "dof" = Some (PyFloat (Fin d)) /\
    0 < d.
Proof.
  destruct (get_fit_stats_on_range_error unit (fun _ => []) (fun _ => [])
              (Fin (-9999)) (Fin 9999)
              (fun _ => inr (Fin 0)) (fun pars _ => inr pars)
              (fun _ _ => ret tt) (fun _ _ => ret tt)
              (fun _ _ _ _ => inl GMixRangeError)
              (fun _ _ _ _ => inl GMixRangeError)
              (fun _ _ _ => inl GMixRangeError)
              6 25 [Fin 0; Fin 0; Fin 0; Fin 0; Fin 4; Fin 1] fitter_raising
              9999)
    as (stats & d & H1 & H2 & H3 & H4 & H5 & _).
  - right. exists (Fin 0). split; [reflexivity |].
    right. exists fitter_raising. split; [reflexivity |].
    cbn. destruct (Rlt_dec 2 0); reflexivity.
  - reflexivity.
  - lra.
  - exists stats, d. repeat split; assumption.
Defined.

(** ** Rendering *)

Lemma foldM_ext {S A B : Type} (body body' : B -> A -> M S B) :
  (forall b a s, body b a s = body' b a s) ->
  forall (l : list A) (b : B) (s : S),
    foldM body l b s = foldM body' l b s.
Proof.
  intros H. induction l as [| x l IH]; intros b s; [reflexivity |].
  rewrite !foldM_cons. unfold bind. rewrite H.
  destruct (body' b x s) as [[e | b'] s']; [reflexivity | apply IH].
Qed.

Lemma bind_inr {S A B : Type} (m : M S A) (k : A -> M S B) (s s' : S)
  (a : A) :
  m s = (inr a, s') -> bind m k s = k a s'.
Proof. intros H. unfold bind. now rewrite H. Qed.

Lemma bind_inl {S A B : Type} (m : M S A) (k : A -> M S B) (s s' : S)
  (e : exn) :
  m s = (inl e, s') -> bind m k s = (inl e, s').
Proof. intros H. unfold bind. now rewrite H. Qed.

(** The loop over the Gaussians never fails with the module's table, in any
    state and from any value of the accumulator. *)
Lemma gauss_loop_sum (self : list gmix.gauss2d) (u v : R) :
  exists m : R,
    forall (St : Type) (acc : R) (s : St),
      foldM (S := St)
        (fun tval g =>
           let* term :=
             lift (gmix.gauss_eval_fast3 (-26) gmix._exp3_lookup g
                     (u - gmix.row g) (v - gmix.col g)) in
           ret (tval + term))
        self acc s
      = (inr (acc + m), s).
Proof.
  induction self as [| g self [m IH]].
  - exists 0. intros St acc s. cbn. unfold ret. now rewrite Rplus_0_r.
  - destruct (gauss_eval_total g (u - gmix.row g) (v - gmix.col g))
      as [t Ht].
    exists (t + m). intros St acc s.
    rewrite foldM_cons. unfold bind at 1, bind at 1, lift at 1.
    rewrite Ht. unfold ret at 1. rewrite IH. now rewrite Rplus_assoc.
Qed.

Lemma model_at_value (self : list gmix.gauss2d) (u v : R) :
  model_at self (-26) gmix._exp3_lookup u v = inr (mixture_value self u v).
Proof.
  unfold mixture_value.
  destruct (gauss_loop_sum self u v) as [m Hm].
  unfold model_at. rewrite Hm. reflexivity.
Qed.

Lemma gauss_loop_run {St : Type} (self : list gmix.gauss2d) (u v : R)
  (acc : R) (s : St) :
  foldM (S := St)
    (fun tval g =>
       let* term :=
         lift (gmix.gauss_eval_fast3 (-26) gmix._exp3_lookup g
                 (u - gmix.row g) (v - gmix.col g)) in
       ret (tval + term))
    self acc s
  = (inr (acc + mixture_value self u v), s).
Proof.
  destruct (gauss_loop_sum self u v) as [m Hm].
  assert (Hv : mixture_value self u v = m).
  { unfold mixture_value, model_at. rewrite Hm. cbn. lra. }
  rewrite Hm, Hv. reflexivity.
Qed.

Lemma sum_over_cons (k n : nat) (f : nat -> R) :
  sum_over (seq k (S n)) f = f k + sum_over (seq (S k) n) f.
Proof. reflexivity. Qed.

(** The loop over the sub-columns of [_render_fast3]. *)
Lemma subcols_run {St : Type} (self : list gmix.gauss2d)
  (stepsize trow c0 : R) :
  forall (n k : nat) (tval tcol : R) (s : St),
    tcol = c0 + INR k * stepsize ->
    exists tcol' : R,
      foldM (S := St)
        (fun '(tval, tcol) (icolsub : nat) =>
           let* tval :=
             foldM (fun tval g =>
               let u := trow - gmix.row g in
               let v := tcol - gmix.col g in
               let* term :=
                 lift (gmix.gauss_eval_fast3 (-26) gmix._exp3_lookup
                         g u v) in
               ret (tval + term))
               self tval in
           ret (tval, tcol + stepsize))
        (seq k n) (tval, tcol) s
      = (inr (tval
              + sum_over (seq k n) (fun j =>
                  mixture_value self trow (c0 + INR j * stepsize)),
              tcol'), s).
Proof.
  induction n as [| n IH]; intros k tval tcol s Htcol.
  - exists tcol. cbn. unfold ret, sum_over. cbn. now rewrite Rplus_0_r.
  - cbn [seq]. rewrite foldM_cons. cbv beta iota zeta.
    rewrite (bind_inr _ _ s s (tval + mixture_value self trow tcol))
      by apply gauss_loop_run.
    unfold ret at 1. cbv beta iota.
    destruct (IH (S k) (tval + mixture_value self trow tcol)
                (tcol + stepsize) s) as [tcol' Hrun].
    { rewrite Htcol, S_INR. ring. }
    exists tcol'. cbv zeta in Hrun. rewrite Hrun.
    change (k :: seq (S k) n) with (seq k (S n)).
    rewrite sum_over_cons, Htcol. now rewrite Rplus_assoc.
Qed.

(** The loop over the sub-columns of [_render_jacob_fast3]. *)
Lemma subcols_jacob_run {St : Type} (self : list gmix.gauss2d)
  (ustepsize vstepsize u0 v0 : R) :
  forall (n k : nat) (tval u v : R) (s : St),
    u = u0 + INR k * ustepsize -> v = v0 + INR k * vstepsize ->
    exists u' v' : R,
      foldM (S := St)
        (fun '(tval, u, v) (icolsub : nat) =>
           let* tval :=
             foldM (fun tval g =>
               let udiff := u - gmix.row g in
               let vdiff := v - gmix.col g in
               let* term :=
                 lift (gmix.gauss_eval_fast3 (-26) gmix._exp3_lookup
                         g udiff vdiff) in
               ret (tval + term))
               self tval in
           ret (tval, u + ustepsize, v + vstepsize))
        (seq k n) (tval, u, v) s
      = (inr (tval
              + sum_over (seq k n) (fun j =>
                  mixture_value self (u0 + INR j * ustepsize)
                    (v0 + INR j * vstepsize)),
              u', v'), s).
Proof.
  induction n as [| n IH]; intros k tval u v s Hu Hv.
  - exists u, v. cbn. unfold ret, sum_over. cbn. now rewrite Rplus_0_r.
  - cbn [seq]. rewrite foldM_cons. cbv beta iota zeta.
    rewrite (bind_inr _ _ s s (tval + mixture_value self u v))
      by apply gauss_loop_run.
    unfold ret at 1. cbv beta iota.
    destruct (IH (S k) (tval + mixture_value self u v)
                (u + ustepsize) (v + vstepsize) s) as (u' & v' & Hrun).
    { rewrite Hu, S_INR. ring. }
    { rewrite Hv, S_INR. ring. }
    exists u', v'. cbv zeta in Hrun. rewrite Hrun.
    change (k :: seq (S k) n) with (seq k (S n)).
    rewrite sum_over_cons, Hu, Hv. now rewrite Rplus_assoc.
Qed.

(** The loop over the columns of a row of the image, with the columns
    [done] already behind it. *)
Lemma pixel_cols_run (inc : nat -> nat -> R) (r : nat) :
  forall (rest done : list R) (image : list (list R)),
    image !! r = Some (done ++ rest) ->
    foldM (fun (_ : unit) col_ => pixel_step inc r col_)
      (seq (length done) (length rest)) tt image
    = (inr tt,
       <[r := done ++ imap (fun i x => x + inc r (length done + i)%nat) rest]>
         image).
Proof.
  induction rest as [| x rest IH]; intros done image Hrow.
  - cbn. unfold ret. now rewrite list_insert_id.
  - cbn [length seq]. rewrite foldM_cons.
    assert (Hr : (r < length image)%nat)
      by (eapply lookup_lt_Some; exact Hrow).
    assert (Hx : (done ++ x :: rest) !! length done = Some x)
      by now rewrite lookup_app_r, Nat.sub_diag by lia.
    unfold pixel_step at 1, gmix.getitem2, gmix.getitem, gmix.setitem2.
    rewrite Hrow, Hx.
    case_decide as Hlt; [| rewrite length_app in Hlt; cbn in Hlt; lia].
    set (image' := <[r := _]> image).
    assert (Hrow' : image' !! r
                    = Some ((done ++ [x + inc r (length done)]) ++ rest)).
    { unfold image'. rewrite list_lookup_insert_eq by exact Hr.
      f_equal. rewrite insert_app_r_alt, Nat.sub_diag by lia.
      now rewrite <- app_assoc. }
    pose proof (IH _ _ Hrow') as Hrun.
    rewrite length_app in Hrun. cbn [length] in Hrun.
    replace (length done + 1)%nat with (S (length done)) in Hrun by lia.
    rewrite Hrun. f_equal.
    unfold image'. rewrite list_insert_insert_eq.
    f_equal. rewrite <- app_assoc. cbn [app]. f_equal.
    rewrite imap_cons. f_equal.
    + now rewrite Nat.add_0_r.
    + apply imap_ext. intros i y _. cbn. f_equal. f_equal. lia.
Qed.

(** The loops over the pixels of a rectangular image, with the rows [done]
    already behind them. *)
Lemma pixel_rows_run (inc : nat -> nat -> R) (ncols : nat) :
  forall (rest done : list (list R)),
    Forall (fun r => length r = ncols) rest ->
    foldM (fun (_ : unit) row_ =>
             foldM (fun (_ : unit) col_ => pixel_step inc row_ col_)
               (seq 0 ncols) tt)
      (seq (length done) (length rest)) tt (done ++ rest)
    = (inr tt,
       done ++ imap (fun i rowl =>
                 imap (fun c x => x + inc (length done + i)%nat c) rowl)
                 rest).
Proof.
  induction rest as [| rowl rest IH]; intros done Hrect.
  - reflexivity.
  - inversion Hrect as [| ? ? Hlen Hrect']; subst.
    cbn [length seq]. rewrite foldM_cons.
    pose proof (pixel_cols_run inc (length done) rowl [] (done ++ rowl :: rest))
      as Hcols.
    cbn [length app] in Hcols.
    rewrite Hcols by now rewrite lookup_app_r, Nat.sub_diag by lia.
    rewrite insert_app_r_alt, Nat.sub_diag by lia. cbn [insert list_insert].
    pose proof (IH (done ++ [imap (fun i x => x + inc (length done) (0 + i)%nat)
                               rowl]) Hrect') as Hrun.
    rewrite length_app in Hrun. cbn [length] in Hrun.
    replace (length done + 1)%nat with (S (length done)) in Hrun by lia.
    rewrite <- app_assoc in Hrun. cbn [app] in Hrun.
    rewrite Hrun. f_equal. rewrite <- app_assoc. cbn [app]. f_equal.
    rewrite imap_cons. f_equal.
    + now rewrite Nat.add_0_r.
    + apply imap_ext. intros i y _. cbn. apply imap_ext. intros c x _.
      f_equal. f_equal. lia.
Qed.

Lemma pixel_loops_run (inc : nat -> nat -> R) (ncols : nat)
  (image : list (list R)) :
  Forall (fun r => length r = ncols) image ->
  foldM (fun (_ : unit) row_ =>
           foldM (fun (_ : unit) col_ => pixel_step inc row_ col_)
             (seq 0 ncols) tt)
    (seq 0 (length image)) tt image
  = (inr tt, add_to_pixels inc image).
Proof.
  intros Hrect. exact (pixel_rows_run inc ncols image [] Hrect).
Qed.

Lemma sum_over_ext (l : list nat) (f g : nat -> R) :
  (forall i, f i = g i) -> sum_over l f = sum_over l g.
Proof.
  intros H. unfold sum_over. induction l as [| x l IH]; [reflexivity |].
  cbn. now rewrite H, IH.
Qed.

(** The loops over the sub-pixel grid of [_render_fast3] at the pixel
    [(row_, col_)], from sub-row [k] on. *)
Lemma subrows_run {St : Type} (self : list gmix.gauss2d) (nsub : nat)
  (stepsize offset : R) (row_ col_ : nat) :
  forall (m k : nat) (tval trow : R) (s : St),
    trow = INR row_ - offset + INR k * stepsize ->
    exists trow' : R,
      foldM (S := St)
        (fun '(tval, trow) (irowsub : nat) =>
           let tcol := INR col_ - offset in
           let* (tval, _) :=
             foldM (fun '(tval, tcol) (icolsub : nat) =>
               let* tval :=
                 foldM (fun tval g =>
                   let u := trow - gmix.row g in
                   let v := tcol - gmix.col g in
                   let* term :=
                     lift (gmix.gauss_eval_fast3 (-26) gmix._exp3_lookup
                             g u v) in
                   ret (tval + term))
                   self tval in
               ret (tval, tcol + stepsize))
               (seq 0 nsub) (tval, tcol) in
           ret (tval, trow + stepsize))
        (seq k m) (tval, trow) s
      = (inr (tval
              + sum_over (seq k m) (fun i =>
                  sum_over (seq 0 nsub) (fun j =>
                    let '(u, v) :=
                      render_coords None
                        (INR row_ - offset + INR i * stepsize)
                        (INR col_ - offset + INR j * stepsize) in
                    mixture_value self u v)),
              trow'), s).
Proof.
  induction m as [| m IH]; intros k tval trow s Htrow.
  - exists trow. cbn. unfold ret, sum_over. cbn. now rewrite Rplus_0_r.
  - cbn [seq]. rewrite foldM_cons. cbv beta iota zeta.
    destruct (subcols_run (St := St) self stepsize trow (INR col_ - offset)
                nsub 0 tval (INR col_ - offset) s) as [tcol' Hcols].
    { cbn. ring. }
    cbv zeta in Hcols.
    rewrite (bind_inr _ _ s s _ Hcols).
    unfold ret at 1. cbv beta iota.
    match goal with
    | |- context [foldM _ (seq (S k) m) (?a, _) s] =>
        destruct (IH (S k) a (trow + stepsize) s) as [trow' Hrun]
    end.
    { rewrite Htrow, S_INR. ring. }
    exists trow'. cbv zeta in Hrun. rewrite Hrun.
    change (k :: seq (S k) m) with (seq k (S m)).
    rewrite sum_over_cons, Htrow. cbn [render_coords].
    now rewrite Rplus_assoc.
Qed.

(** The same for [_render_jacob_fast3]. *)
Lemma subrows_jacob_run {St : Type} (self : list gmix.gauss2d) (nsub : nat)
  (jac : jacobian.Jacobian) (stepsize offset : R) (row_ col_ : nat) :
  forall (m k : nat) (tval trow : R) (s : St),
    trow = INR row_ - offset + INR k * stepsize ->
    exists trow' : R,
      foldM (S := St)
        (fun '(tval, trow) (irowsub : nat) =>
           let u := jacobian.dudrow (jacobian._data jac)
                      * (trow - jacobian.row0 (jacobian._data jac))
                    + jacobian.dudcol (jacobian._data jac)
                      * (INR col_ - offset
                         - jacobian.col0 (jacobian._data jac)) in
           let v := jacobian.dvdrow (jacobian._data jac)
                      * (trow - jacobian.row0 (jacobian._data jac))
                    + jacobian.dvdcol (jacobian._data jac)
                      * (INR col_ - offset
                         - jacobian.col0 (jacobian._data jac)) in
           let* (tval, _, _) :=
             foldM (fun '(tval, u, v) (icolsub : nat) =>
               let* tval :=
                 foldM (fun tval g =>
                   let udiff := u - gmix.row g in
                   let vdiff := v - gmix.col g in
                   let* term :=
                     lift (gmix.gauss_eval_fast3 (-26) gmix._exp3_lookup
                             g udiff vdiff) in
                   ret (tval + term))
                   self tval in
               ret (tval,
                    u + stepsize * jacobian.dudcol (jacobian._data jac),
                    v + stepsize * jacobian.dvdcol (jacobian._data jac)))
               (seq 0 nsub) (tval, u, v) in
           ret (tval, trow + stepsize))
        (seq k m) (tval, trow) s
      = (inr (tval
              + sum_over (seq k m) (fun i =>
                  sum_over (seq 0 nsub) (fun j =>
                    let '(u, v) :=
                      render_coords (Some jac)
                        (INR row_ - offset + INR i * stepsize)
                        (INR col_ - offset + INR j * stepsize) in
                    mixture_value self u v)),
              trow'), s).
Proof.
  set (j := jacobian._data jac).
  induction m as [| m IH]; intros k tval trow s Htrow.
  - exists trow. cbn. unfold ret, sum_over. cbn. now rewrite Rplus_0_r.
  - cbn [seq]. rewrite foldM_cons. cbv beta iota zeta.
    set (u0 := jacobian.dudrow j * (trow - jacobian.row0 j)
               + jacobian.dudcol j * (INR col_ - offset - jacobian.col0 j)).
    set (v0 := jacobian.dvdrow j * (trow - jacobian.row0 j)
               + jacobian.dvdcol j * (INR col_ - offset - jacobian.col0 j)).
    destruct (subcols_jacob_run (St := St) self
                (stepsize * jacobian.dudcol j) (stepsize * jacobian.dvdcol j)
                u0 v0 nsub 0 tval u0 v0 s) as (u' & v' & Hcols).
    { cbn. ring. }
    { cbn. ring. }
    cbv zeta in Hcols.
    rewrite (bind_inr _ _ s s _ Hcols).
    unfold ret at 1. cbv beta iota.
    match goal with
    | |- context [foldM _ (seq (S k) m) (?a, _) s] =>
        destruct (IH (S k) a (trow + stepsize) s) as [trow' Hrun]
    end.
    { rewrite Htrow, S_INR. ring. }
    exists trow'. cbv zeta in Hrun. rewrite Hrun.
    change (k :: seq (S k) m) with (seq k (S m)).
    rewrite (sum_over_cons k m), Rplus_assoc.
    rewrite (sum_over_ext (seq 0 nsub) _
               (fun j0 =>
                  let '(u, v) :=
                    render_coords (Some jac)
                      (INR row_ - offset + INR k * stepsize)
                      (INR col_ - offset + INR j0 * stepsize) in
                  mixture_value self u v)); [reflexivity |].
    intros i. cbn [render_coords]. fold j. cbv beta iota zeta.
    unfold u0, v0. rewrite Htrow. f_equal; ring.
Qed.

Lemma fdiv_nonzero (a b : R) : b <> 0 -> fdiv a b = inr (a / b).
Proof. intros Hb. unfold fdiv. now destruct (Req_dec_T b 0). Qed.

(** What [_render_fast3] does at one pixel. *)
Lemma render_pixel_run (self : list gmix.gauss2d) (nsub : Z)
  (row_ col_ : nat) (image : list (list R)) :
  (let stepsize := 1 / IZR nsub in
   let offset := IZR (nsub - 1) * stepsize / 2 in
   let areafac := 1 / IZR (nsub * nsub) in
   let* model_val := (fun image => (gmix.getitem2 image row_ col_, image)) in
   let tval := 0 in
   let trow := INR row_ - offset in
   let* (tval, _) :=
     foldM (fun '(tval, trow) (irowsub : nat) =>
       let tcol := INR col_ - offset in
       let* (tval, _) :=
         foldM (fun '(tval, tcol) (icolsub : nat) =>
           let* tval :=
             foldM (fun tval g =>
               let u := trow - gmix.row g in
               let v := tcol - gmix.col g in
               let* term :=
                 lift (gmix.gauss_eval_fast3 (-26) gmix._exp3_lookup
                         g u v) in
               ret (tval + term))
               self tval in
           ret (tval, tcol + stepsize))
           (seq 0 (Z.to_nat nsub)) (tval, tcol) in
       ret (tval, trow + stepsize))
       (seq 0 (Z.to_nat nsub)) (tval, trow) in
   let tval := tval * areafac in
   let model_val := model_val + tval in
   gmix.setitem2 row_ col_ model_val) image
  = pixel_step (subpixel_mean self nsub None) row_ col_ image.
Proof.
  cbv zeta. unfold pixel_step.
  destruct (gmix.getitem2 image row_ col_) as [e | model_val] eqn:Hget.
  - apply bind_inl. now rewrite Hget.
  - rewrite (bind_inr _ _ image image model_val) by now rewrite Hget.
    destruct (subrows_run (St := list (list R)) self (Z.to_nat nsub)
                (1 / IZR nsub) (IZR (nsub - 1) * (1 / IZR nsub) / 2)
                row_ col_ (Z.to_nat nsub) 0 0
                (INR row_ - IZR (nsub - 1) * (1 / IZR nsub) / 2) image)
      as [trow' Hsub].
    { cbn. ring. }
    cbv zeta in Hsub.
    rewrite (bind_inr _ _ image image _ Hsub). cbv beta iota.
    unfold subpixel_mean. cbv zeta. now rewrite Rplus_0_l.
Qed.

(** What [_render_jacob_fast3] does at one pixel. *)
Lemma render_jacob_pixel_run (self : list gmix.gauss2d) (nsub : Z)
  (jac : jacobian.Jacobian) (row_ col_ : nat) (image : list (list R)) :
  (let j := jacobian._data jac in
   let col0 := jacobian.col0 j in
   let row0 := jacobian.row0 j in
   let dudrow := jacobian.dudrow j in
   let dudcol := jacobian.dudcol j in
   let dvdrow := jacobian.dvdrow j in
   let dvdcol := jacobian.dvdcol j in
   let stepsize := 1 / IZR nsub in
   let offset := IZR (nsub - 1) * stepsize / 2 in
   let areafac := 1 / IZR (nsub * nsub) in
   let ustepsize := stepsize * dudcol in
   let vstepsize := stepsize * dvdcol in
   let* model_val := (fun image => (gmix.getitem2 image row_ col_, image)) in
   let tval := 0 in
   let trow := INR row_ - offset in
   let lowcol := INR col_ - offset in
   let* (tval, _) :=
     foldM (fun '(tval, trow) (irowsub : nat) =>
       let u := dudrow * (trow - row0) + dudcol * (lowcol - col0) in
       let v := dvdrow * (trow - row0) + dvdcol * (lowcol - col0) in
       let* (tval, _, _) :=
         foldM (fun '(tval, u, v) (icolsub : nat) =>
           let* tval :=
             foldM (fun tval g =>
               let udiff := u - gmix.row g in
               let vdiff := v - gmix.col g in
               let* term :=
                 lift (gmix.gauss_eval_fast3 (-26) gmix._exp3_lookup
                         g udiff vdiff) in
               ret (tval + term))
               self tval in
           ret (tval, u + ustepsize, v + vstepsize))
           (seq 0 (Z.to_nat nsub)) (tval, u, v) in
       ret (tval, trow + stepsize))
       (seq 0 (Z.to_nat nsub)) (tval, trow) in
   let tval := tval * areafac in
   let model_val := model_val + tval in
   gmix.setitem2 row_ col_ model_val) image
  = pixel_step (subpixel_mean self nsub (Some jac)) row_ col_ image.
Proof.
  cbv zeta. unfold pixel_step.
  destruct (gmix.getitem2 image row_ col_) as [e | model_val] eqn:Hget.
  - apply bind_inl. now rewrite Hget.
  - rewrite (bind_inr _ _ image image model_val) by now rewrite Hget.
    destruct (subrows_jacob_run (St := list (list R)) self (Z.to_nat nsub)
                jac (1 / IZR nsub) (IZR (nsub - 1) * (1 / IZR nsub) / 2)
                row_ col_ (Z.to_nat nsub) 0 0
                (INR row_ - IZR (nsub - 1) * (1 / IZR nsub) / 2) image)
      as [trow' Hsub].
    { cbn. ring. }
    cbv zeta in Hsub.
    rewrite (bind_inr _ _ image image _ Hsub). cbv beta iota.
    unfold subpixel_mean. cbv zeta. now rewrite Rplus_0_l.
Qed.

(** [fill_image] on a rectangular image, with a grid of at least one point
    per pixel: every pixel gains the mean of the mixture over its grid. *)
Lemma fill_image_run (self : list gmix.gauss2d) (nsub : Z)
  (jacobian : option jacobian.Jacobian) (ncols : nat)
  (image : list (list R)) :
  (1 <= nsub)%Z ->
  Forall (fun r => length r = ncols) image ->
  gmix.fill_image self nsub jacobian image
  = (inr tt, add_to_pixels (subpixel_mean self nsub jacobian) image).
Proof.
  intros Hnsub Hrect.
  assert (H1 : IZR nsub <> 0) by (apply not_0_IZR; lia).
  assert (H2 : IZR (nsub * nsub) <> 0) by (apply not_0_IZR; nia).
  unfold gmix.fill_image.
  change (default 0%Z (head gmix._exp3_ivals)) with (-26)%Z.
  destruct jacobian as [jac |].
  - unfold gmix._render_jacob_fast3. cbv zeta.
    rewrite (bind_inr _ _ image image (1 / IZR nsub))
      by (unfold lift; now rewrite fdiv_nonzero).
    rewrite (bind_inr _ _ image image (1 / IZR (nsub * nsub)))
      by (unfold lift; now rewrite fdiv_nonzero).
    destruct image as [| r0 image]; [reflexivity |].
    rewrite (head_length (r0 :: image) ncols Hrect) by discriminate.
    rewrite (foldM_ext _
               (fun (_ : unit) row_ =>
                  foldM (fun (_ : unit) col_ =>
                           pixel_step (subpixel_mean self nsub (Some jac))
                             row_ col_)
                    (seq 0 ncols) tt)).
    + now apply pixel_loops_run.
    + intros [] row_ s. apply foldM_ext. intros [] col_ s'.
      apply render_jacob_pixel_run.
  - unfold gmix._render_fast3. cbv zeta.
    rewrite (bind_inr _ _ image image (1 / IZR nsub))
      by (unfold lift; now rewrite fdiv_nonzero).
    rewrite (bind_inr _ _ image image (1 / IZR (nsub * nsub)))
      by (unfold lift; now rewrite fdiv_nonzero).
    destruct image as [| r0 image]; [reflexivity |].
    rewrite (head_length (r0 :: image) ncols Hrect) by discriminate.
    rewrite (foldM_ext _
               (fun (_ : unit) row_ =>
                  foldM (fun (_ : unit) col_ =>
                           pixel_step (subpixel_mean self nsub None)
                             row_ col_)
                    (seq 0 ncols) tt)).
    + now apply pixel_loops_run.
    + intros [] row_ s. apply foldM_ext. intros [] col_ s'.
      apply render_pixel_run.
Qed.

Lemma add_row_zeros (rowl : list R) :
  forall g : nat -> R,
    zip_with Rplus rowl (imap (fun c x => x + g c) (replicate (length rowl) 0))
    = imap (fun c x => x + g c) rowl.
Proof.
  induction rowl as [| x rowl IH]; intros g; [reflexivity |].
  cbn [length replicate]. rewrite !imap_cons. cbn [zip_with].
  rewrite Rplus_0_l. f_equal. apply (IH (g ∘ S)).
Qed.

Lemma add_to_zeros (ncols : nat) (image : list (list R)) :
  Forall (fun r => length r = ncols) image ->
  forall inc : nat -> nat -> R,
    zip_with (zip_with Rplus) image
      (add_to_pixels inc (replicate (length image) (replicate ncols 0)))
    = add_to_pixels inc image.
Proof.
  unfold add_to_pixels.
  induction 1 as [| rowl image Hlen Hrect IH]; intros inc; [reflexivity |].
  cbn [length replicate]. rewrite !imap_cons. cbn [zip_with].
  rewrite <- Hlen at 1. rewrite add_row_zeros. f_equal.
  apply (IH (inc ∘ S)).
Qed.

Lemma zeros_rect (nrows ncols : nat) :
  Forall (fun r : list R => length r = ncols)
    (replicate nrows (replicate ncols 0)).
Proof. apply Forall_replicate. apply length_replicate. Qed.

Lemma make_image_run (self : list gmix.gauss2d) (nrows ncols : nat)
  (nsub : Z) (jacobian : option jacobian.Jacobian) :
  (1 <= nsub)%Z ->
  gmix.make_image self nrows ncols nsub jacobian
  = inr (add_to_pixels (subpixel_mean self nsub jacobian)
           (replicate nrows (replicate ncols 0))).
Proof.
  intros Hnsub. unfold gmix.make_image.
  now rewrite (fill_image_run self nsub jacobian ncols _ Hnsub
                 (zeros_rect nrows ncols)).
Qed.

Lemma rendered_pixel (inc : nat -> nat -> R) (nrows ncols r c : nat) :
  (r < nrows)%nat -> (c < ncols)%nat ->
  gmix.getitem2
    (add_to_pixels inc (replicate nrows (replicate ncols 0))) r c
  = inr (inc r c).
Proof.
  intros Hr Hc. unfold gmix.getitem2, gmix.getitem, add_to_pixels.
  rewrite list_lookup_imap, lookup_replicate_2 by exact Hr. cbn.
  rewrite list_lookup_imap, lookup_replicate_2 by exact Hc. cbn.
  now rewrite Rplus_0_l.
Qed.

Lemma rendered_rect (inc : nat -> nat -> R) (ncols : nat)
  (image : list (list R)) :
  Forall (fun r => length r = ncols) image ->
  Forall (fun r => length r = ncols) (add_to_pixels inc image).
Proof.
  intros Hrect. apply Forall_forall. intros rowl Hin.
  apply list_elem_of_lookup in Hin as [i Hi]. unfold add_to_pixels in Hi.
  rewrite list_lookup_imap in Hi.
  destruct (image !! i) as [rowl0 |] eqn:Hrow; [| discriminate].
  injection Hi as <-. rewrite length_imap.
  rewrite Forall_forall in Hrect. apply Hrect.
  eapply list_elem_of_lookup_2. exact Hrow.
Qed.

(** X26. [GMix.fill_image] adds to the image what [GMix.make_image] makes
    for the same dimensions: on a rectangular image, with [nsub >= 1] and
    with or without a Jacobian, both calls return, and the image after
    [fill_image] is, pixel by pixel, the image before plus the new image
    of [make_image]. *)
Theorem fill_image_adds_make_image :
  forall (self : list gmix.gauss2d) (image : list (list R)) (nsub : Z)
         (jacobian : option jacobian.Jacobian) (ncols : nat),
    (1 <= nsub)%Z ->
    Forall (fun r => length r = ncols) image ->
    exists rendered : list (list R),
      gmix.make_image self (length image) ncols nsub jacobian = inr rendered /\
      gmix.fill_image self nsub jacobian image
      = (inr tt, zip_with (zip_with Rplus) image rendered).
Proof.
  intros self image nsub jac ncols Hnsub Hrect.
  eexists. split; [now apply make_image_run |].
  rewrite (fill_image_run self nsub jac ncols image Hnsub Hrect).
  now rewrite (add_to_zeros ncols image Hrect).
Qed.

Lemma fill_image_adds_make_image_witness :
  exists rendered : list (list R),
    gmix.make_image [unit_gauss] 2 2 2 (Some (jacobian.UnitJacobian 0 0))
    = inr rendered /\
    gmix.fill_image [unit_gauss] 2 (Some (jacobian.UnitJacobian 0 0))
      [[1; 2]; [3; 4]]
    = (inr tt, zip_with (zip_with Rplus) [[1; 2]; [3; 4]] rendered).
Proof.
  apply (fill_image_adds_make_image [unit_gauss] [[1; 2]; [3; 4]] 2
           (Some (jacobian.UnitJacobian 0 0)) 2).
  - lia.
  - repeat constructor.
Defined.

(** X27. [GMix.make_image(dims, nsub, jacobian)] with [nsub >= 1] returns
    an image of the dimensions asked for, and its pixel [(row, col)] is the
    mean of the mixture over the [nsub] by [nsub] points
    [(row - offset + i/nsub, col - offset + j/nsub)],
    [offset = (nsub-1)/(2 nsub)], each taken through the Jacobian when one
    is given: the coordinates that the kernels step by repeated addition
    are those points. *)
Theorem make_image_is_subpixel_mean :
  forall (self : list gmix.gauss2d) (nrows ncols : nat) (nsub : Z)
         (jacobian : option jacobian.Jacobian),
    (1 <= nsub)%Z ->
    exists rendered : list (list R),
      gmix.make_image self nrows ncols nsub jacobian = inr rendered /\
      length rendered = nrows /\
      Forall (fun r => length r = ncols) rendered /\
      forall row_ col_ : nat,
        (row_ < nrows)%nat -> (col_ < ncols)%nat ->
        gmix.getitem2 rendered row_ col_
        = inr (subpixel_mean self nsub jacobian row_ col_).
Proof.
  intros self nrows ncols nsub jac Hnsub.
  eexists. split; [now apply make_image_run |].
  split; [| split].
  - unfold add_to_pixels. now rewrite length_imap, length_replicate.
  - apply rendered_rect, zeros_rect.
  - intros r c Hr Hc. now apply rendered_pixel.
Qed.

Lemma make_image_is_subpixel_mean_witness :
  exists rendered : list (list R),
    gmix.make_image [unit_gauss] 2 3 2 None = inr rendered /\
    length rendered = 2%nat /\
    Forall (fun r => length r = 3%nat) rendered /\
    forall row_ col_ : nat,
      (row_ < 2)%nat -> (col_ < 3)%nat ->
      gmix.getitem2 rendered row_ col_
      = inr (subpixel_mean [unit_gauss] 2 None row_ col_).
Proof.
  apply (make_image_is_subpixel_mean [unit_gauss] 2 3 2 None). lia.
Defined.

Lemma subpixel_mean_one (self : list gmix.gauss2d)
  (jacobian : option jacobian.Jacobian) (row_ col_ : nat) :
  subpixel_mean self 1 jacobian row_ col_
  = mixture_value self
      (render_coords jacobian (INR row_) (INR col_)).1
      (render_coords jacobian (INR row_) (INR col_)).2.
Proof.
  unfold subpixel_mean. cbv zeta.
  change (Z.to_nat 1) with 1%nat. change (1 - 1)%Z with 0%Z.
  change (1 * 1)%Z with 1%Z. unfold sum_over. cbn [seq fmap list_fmap foldr].
  replace (INR row_ - 0 * (1 / 1) / 2 + INR 0 * (1 / 1)) with (INR row_)
    by (cbn [INR]; lra).
  replace (INR col_ - 0 * (1 / 1) / 2 + INR 0 * (1 / 1)) with (INR col_)
    by (cbn [INR]; lra).
  destruct (render_coords jacobian (INR row_) (INR col_)) as [u v].
  cbn [fst snd]. lra.
Qed.

Lemma rect_concat_length (ncols : nat) (a : list (list R)) :
  Forall (fun r => length r = ncols) a ->
  length (concat a) = (length a * ncols)%nat.
Proof.
  induction 1 as [| r a Hr Hrect IH]; [reflexivity |].
  cbn [concat length]. rewrite length_app, Hr, IH. lia.
Qed.

(** The loop over the columns of [_loglike_fast3] on a row whose pixels
    hold the value of the mixture. *)
Lemma loglike_cols_own (self : list gmix.gauss2d)
  (image weight : list (list R)) (ncols row_ : nat) :
  Forall (fun r => length r = ncols) weight ->
  (row_ < length weight)%nat ->
  (forall c, (c < ncols)%nat ->
     gmix.getitem2 image row_ c
     = inr (mixture_value self (INR row_) (INR c))) ->
  forall cols : list nat,
    Forall (fun c => (c < ncols)%nat) cols ->
    forall n : R,
      exists n' : R,
        foldM (loglike_cols self image weight (-26) gmix._exp3_lookup row_)
          cols (0, n, n) tt
        = (inr (0, n', n'), tt).
Proof.
  intros Hwt Hrow Hpix cols Hcols.
  induction Hcols as [| c cols Hc Hcols IH]; intros n.
  - now exists n.
  - rewrite foldM_cons, loglike_cols_step.
    destruct (getitem2_ok weight ncols row_ c Hwt Hrow Hc) as [ivar ->].
    destruct (Rle_dec ivar 0) as [Hmask | Hpos]; [apply IH |].
    rewrite model_at_value, (Hpix c Hc).
    set (m := mixture_value self (INR row_) (INR c)).
    replace (0 + (m - m) * (m - m) * ivar) with 0 by ring.
    apply IH.
Qed.

Lemma loglike_rows_own (self : list gmix.gauss2d)
  (image weight : list (list R)) (ncols : nat) :
  Forall (fun r => length r = ncols) weight ->
  (forall r c, (r < length weight)%nat -> (c < ncols)%nat ->
     gmix.getitem2 image r c = inr (mixture_value self (INR r) (INR c))) ->
  forall rows : list nat,
    Forall (fun r => (r < length weight)%nat) rows ->
    forall n : R,
      exists n' : R,
        foldM (fun acc row_ =>
                 foldM (loglike_cols self image weight (-26)
                          gmix._exp3_lookup row_)
                   (seq 0 ncols) acc)
          rows (0, n, n) tt
        = (inr (0, n', n'), tt).
Proof.
  intros Hwt Hpix rows Hrows.
  induction Hrows as [| r rows Hr Hrows IH]; intros n.
  - now exists n.
  - rewrite foldM_cons.
    destruct (loglike_cols_own self image weight ncols r Hwt Hr
                (fun c Hc => Hpix r c Hr Hc) (seq 0 ncols)
                ltac:(apply Forall_forall; intros c Hc;
                      apply elem_of_seq in Hc; lia) n) as [n1 ->].
    apply IH.
Qed.

(** The loop over the columns of [_loglike_jacob_fast3] on a row without
    masked pixels whose pixels hold the value of the mixture at their
    position under the Jacobian. *)
Lemma loglike_jacob_cols_own (self : list gmix.gauss2d)
  (image weight : list (list R)) (jac : jacobian.Jacobian)
  (ncols row_ : nat) :
  Forall (fun r => length r = ncols) weight ->
  Forall (Forall (fun w => 0 < w)) weight ->
  (row_ < length weight)%nat ->
  (forall c, (c < ncols)%nat ->
     gmix.getitem2 image row_ c
     = inr (mixture_value self
              (render_coords (Some jac) (INR row_) (INR c)).1
              (render_coords (Some jac) (INR row_) (INR c)).2)) ->
  forall (m k : nat) (n u v : R),
    (k + m <= ncols)%nat ->
    u = (render_coords (Some jac) (INR row_) (INR k)).1 ->
    v = (render_coords (Some jac) (INR row_) (INR k)).2 ->
    exists n' u' v' : R,
      foldM (loglike_jacob_cols self image weight (jacobian._data jac)
               (-26) gmix._exp3_lookup row_)
        (seq k m) (0, n, n, u, v) tt
      = (inr (0, n', n', u', v'), tt).
Proof.
  intros Hwt Hpos Hrow Hpix.
  induction m as [| m IH]; intros k n u v Hk Hu Hv.
  - now exists n, u, v.
  - cbn [seq]. rewrite foldM_cons, loglike_jacob_cols_step.
    destruct (getitem2_ok weight ncols row_ k Hwt Hrow ltac:(lia))
      as [ivar Hivar].
    rewrite Hivar.
    assert (Hw : 0 < ivar).
    { destruct (getitem2_elem weight row_ k ivar Hivar) as (r & Hr & Hin).
      rewrite Forall_forall in Hpos. specialize (Hpos r Hr).
      rewrite Forall_forall in Hpos. now apply Hpos. }
    destruct (Rle_dec ivar 0) as [Hmask | _]; [lra |].
    rewrite model_at_value, (Hpix k ltac:(lia)), <- Hu, <- Hv.
    set (mv := mixture_value self u v).
    replace (0 + (mv - mv) * (mv - mv) * ivar) with 0 by ring.
    apply IH; [lia | |].
    + rewrite Hu. cbn [render_coords fst]. rewrite S_INR. ring.
    + rewrite Hv. cbn [render_coords snd]. rewrite S_INR. ring.
Qed.

Lemma loglike_jacob_rows_own (self : list gmix.gauss2d)
  (image weight : list (list R)) (jac : jacobian.Jacobian) (ncols : nat) :
  Forall (fun r => length r = ncols) weight ->
  Forall (Forall (fun w => 0 < w)) weight ->
  (forall r c, (r < length weight)%nat -> (c < ncols)%nat ->
     gmix.getitem2 image r c
     = inr (mixture_value self
              (render_coords (Some jac) (INR r) (INR c)).1
              (render_coords (Some jac) (INR r) (INR c)).2)) ->
  forall rows : list nat,
    Forall (fun r => (r < length weight)%nat) rows ->
    forall n : R,
      exists n' : R,
        foldM (fun '(loglike, s2n_numer, s2n_denom) row_ =>
                 fun s =>
                   drop_uv
                     (foldM (loglike_jacob_cols self image weight
                               (jacobian._data jac) (-26) gmix._exp3_lookup
                               row_)
                        (seq 0 ncols)
                        (loglike, s2n_numer, s2n_denom,
                         jacobian.dudrow (jacobian._data jac)
                           * (INR row_ - jacobian.row0 (jacobian._data jac))
                         + jacobian.dudcol (jacobian._data jac)
                           * (0 - jacobian.col0 (jacobian._data jac)),
                         jacobian.dvdrow (jacobian._data jac)
                           * (INR row_ - jacobian.row0 (jacobian._data jac))
                         + jacobian.dvdcol (jacobian._data jac)
                           * (0 - jacobian.col0 (jacobian._data jac))) s))
          rows (0, n, n) tt
        = (inr (0, n', n'), tt).
Proof.
  intros Hwt Hpos Hpix rows Hrows.
  induction Hrows as [| r rows Hr Hrows IH]; intros n.
  - now exists n.
  - rewrite foldM_cons. cbv beta iota.
    destruct (loglike_jacob_cols_own self image weight jac ncols r Hwt Hpos Hr
                (fun c Hc => Hpix r c Hr Hc) ncols 0 n _ _
                ltac:(lia) eq_refl eq_refl) as (n1 & u1 & v1 & Hcols).
    cbn [render_coords fst snd INR] in Hcols. rewrite Hcols.
    cbn [drop_uv]. apply IH.
Qed.

(** X28. A mixture fits its own image exactly: for the image that
    [GMix.make_image] makes with [nsub=1], [GMix.get_loglike] with the same
    Jacobian (or with none in both calls) returns log-likelihood [0] and
    equal sums [s2n_numer] and [s2n_denom], for every weight map of the
    image's shape without a Jacobian, and for every weight map without
    masked pixels with one. *)
Theorem get_loglike_of_own_image :
  forall (self : list gmix.gauss2d) (nrows ncols : nat)
         (weight : list (list R)) (jacobian : option jacobian.Jacobian),
    length weight = nrows ->
    Forall (fun r => length r = ncols) weight ->
    jacobian = None \/ Forall (Forall (fun w => 0 < w)) weight ->
    exists (rendered : list (list R)) (s2n : R),
      gmix.make_image self nrows ncols 1 jacobian = inr rendered /\
      gmix.get_loglike self rendered weight jacobian true
      = inr (inr (0, s2n, s2n)).
Proof.
  intros self nrows ncols weight jac Hlen Hwt Hcase.
  set (rendered := add_to_pixels (subpixel_mean self 1 jac)
                     (replicate nrows (replicate ncols 0))).
  assert (Hmake : gmix.make_image self nrows ncols 1 jac = inr rendered)
    by (apply make_image_run; lia).
  assert (Hrect : Forall (fun r => length r = ncols) rendered)
    by apply rendered_rect, zeros_rect.
  assert (Hrows : length rendered = nrows)
    by (unfold rendered, add_to_pixels;
        now rewrite length_imap, length_replicate).
  assert (Hpix : forall r c, (r < length weight)%nat -> (c < ncols)%nat ->
            gmix.getitem2 rendered r c
            = inr (mixture_value self
                     (render_coords jac (INR r) (INR c)).1
                     (render_coords jac (INR r) (INR c)).2)).
  { intros r c Hr Hc. unfold rendered.
    rewrite rendered_pixel by lia. now rewrite subpixel_mean_one. }
  assert (Hseq : Forall (fun r => (r < length weight)%nat)
                   (seq 0 (length rendered))).
  { apply Forall_forall. intros r Hr. apply elem_of_seq in Hr. lia. }
  assert (Hncols : rendered <> [] ->
            length (default [] (head rendered)) = ncols)
    by (intros Hne; now apply head_length).
  cut (exists s2n : R,
         gmix.get_loglike self rendered weight jac true
         = inr (inr (0, s2n, s2n))).
  { intros [s2n Hll]. now exists rendered, s2n. }
  unfold gmix.get_loglike.
  case_decide as Hsize.
  { exfalso. apply Hsize.
    rewrite (rect_concat_length ncols rendered Hrect),
      (rect_concat_length ncols weight Hwt). lia. }
  change (default 0%Z (head gmix._exp3_ivals)) with (-26)%Z.
  destruct jac as [jac |].
  - destruct Hcase as [Hnone | Hpos]; [discriminate |].
    rewrite loglike_jacob_fast3_loops.
    destruct (decide (rendered = [])) as [Hnil | Hne].
    { rewrite Hnil. cbn. exists 0. now rewrite Rmult_0_l. }
    rewrite (Hncols Hne).
    destruct (loglike_jacob_rows_own self rendered weight jac ncols Hwt Hpos
                Hpix _ Hseq 0) as [n ->].
    exists n. now rewrite Rmult_0_l.
  - rewrite loglike_fast3_loops.
    destruct (decide (rendered = [])) as [Hnil | Hne].
    { rewrite Hnil. cbn. exists 0. now rewrite Rmult_0_l. }
    rewrite (Hncols Hne).
    destruct (loglike_rows_own self rendered weight ncols Hwt Hpix _ Hseq 0)
      as [n ->].
    exists n. now rewrite Rmult_0_l.
Qed.

Lemma get_loglike_of_own_image_witness :
  exists (rendered : list (list R)) (s2n : R),
    gmix.make_image [unit_gauss] 2 2 1 None = inr rendered /\
    gmix.get_loglike [unit_gauss] rendered [[1; 0]; [1; 1]] None true
    = inr (inr (0, s2n, s2n)).
Proof.
  apply (get_loglike_of_own_image [unit_gauss] 2 2 [[1; 0]; [1; 1]] None).
  - reflexivity.
  - repeat constructor.
  - left. reflexivity.
Defined.
